(** * GithubUtils: the release-checklist helper of expensify-common

    A shallow embedding of [lib/GithubUtils.js]: the three URL identifier
    parsers, the checklist decoder [getStagingDeployCashData], the version
    comparator [generateVersionComparisonURL] and the checklist encoder
    [generateStagingDeployCashBody], together with the pieces of the
    JavaScript runtime and of the [underscore] and [semver] packages that
    these functions call. *)

From Stdlib Require Import List Ascii ZArith Lia Bool Arith.
From Stdlib Require Import Sorted Permutation DecimalString SpecFloat.
From Stdlib Require String.
Import ListNotations String.StringSyntax.
Local Open Scope string_scope.
Local Open Scope list_scope.

Set Implicit Arguments.

(** ** JavaScript values

    A JavaScript string is a sequence of code units; the embedding keeps the
    code units below 256, so a string is a [list ascii].  Thrown values are
    [exn]; a call that may throw returns a [result]. *)

Module Js.

Definition str := list ascii.

Definition CR : ascii := "013"%char.
Definition LF : ascii := "010"%char.
Definition CRLF : str := [CR; LF].

Definition lit (s : String.string) : str := String.list_ascii_of_string s.

Definition str_eqb (a b : str) : bool :=
  if list_eq_dec ascii_dec a b then true else false.

Inductive exn : Type :=
| Error (message : str)       (* [new Error(message)] *)
| TypeError                   (* a property read on [null] or [undefined] *)
| HttpError (payload : str).  (* what the forge client rejects with *)

Inductive result (A : Type) : Type :=
| Ok (a : A)
| Throw (e : exn).
Arguments Ok {A} & a.
Arguments Throw {A} e.

Definition bind {A B} (x : result A) (f : A -> result B) : result B :=
  match x with
  | Ok a => f a
  | Throw e => Throw e
  end.

(** [try { x } catch (exception) { handler }] *)
Definition try_catch {A} (x : result A) (handler : exn -> result A) : result A :=
  match x with
  | Ok a => Ok a
  | Throw e => handler e
  end.

(** [x[i]] on a value that may be [null]: reading an index of [null]
    throws a [TypeError]. *)
Definition of_nullable {A} (x : option A) : result A :=
  match x with
  | Some a => Ok a
  | None => Throw TypeError
  end.

(** The state of a promise once the event loop is idle. *)
Inductive promise (A : Type) : Type :=
| Pending
| Resolved (a : A)
| Rejected (e : exn).
Arguments Pending {A}.
Arguments Resolved {A} a.
Arguments Rejected {A} e.

(** What a promise may resolve with here: a string or [undefined]. *)
Inductive value : Type :=
| VUndefined
| VString (s : str).

Definition is_digit (a : ascii) : bool :=
  (48 <=? nat_of_ascii a) && (nat_of_ascii a <=? 57).

Definition digit_value (a : ascii) : N := N.of_nat (nat_of_ascii a - 48).

(** The value of a run of decimal digits, most significant first. *)
Definition digits_value (s : str) : N :=
  fold_left (fun acc a => (10 * acc + digit_value a)%N) s 0%N.

(** A Number that a run of digits stands for: a double, kept by its value
    when it is finite (that value is then an integer), or [Infinity].  A
    finite Number is written as its integer. *)
Inductive number : Type :=
| Finite (z : Z)
| Infinity.

Coercion Finite : Z >-> number.

(** The distance between two neighbouring doubles from 2^52 on: doubles
    have 53 significant bits, so around [z] it is 2^(log2 z - 52). *)
Definition spacing (z : Z) : Z := (2 ^ (Z.log2 z - 52))%Z.

(** The multiple of the spacing that is nearest to [z]; half way between
    two multiples, the even one. *)
Definition nearest_even (z : Z) : Z :=
  let u := spacing z in
  let q := (z / u)%Z in
  let r := (z mod u)%Z in
  if (2 * r <? u)%Z then (q * u)%Z
  else if (u <? 2 * r)%Z then ((q + 1) * u)%Z
  else if Z.even q then (q * u)%Z else ((q + 1) * u)%Z.

(** The Number value of a natural number: the number itself below 2^53,
    where every natural number is a double; from there on the nearest
    double, ties to even, and [Infinity] once that reaches 2^1024.  This is
    the rounding of IEEE 754 binary64 ([to_number_binary64] below). *)
Definition to_number (n : N) : number :=
  let z := Z.of_N n in
  if (z <? 2 ^ 53)%Z then Finite z
  else
    let v := nearest_even z in
    if (v <? 2 ^ 1024)%Z then Finite v else Infinity.

(** [Number.parseInt(s, 10)] and [+s] on a string of decimal digits: the
    value of the digits, rounded to a double. *)
Definition parseInt (s : str) : number := to_number (digits_value s).

(** The order of these Numbers. *)
Definition number_compare (a b : number) : comparison :=
  match a, b with
  | Finite x, Finite y => (x ?= y)%Z
  | Finite _, Infinity => Lt
  | Infinity, Finite _ => Gt
  | Infinity, Infinity => Eq
  end.

(** [a === b] and [a < b] on Numbers. *)
Definition number_eqb (a b : number) : bool :=
  match number_compare a b with
  | Eq => true
  | _ => false
  end.

Definition number_ltb (a b : number) : bool :=
  match number_compare a b with
  | Lt => true
  | _ => false
  end.

(** The decimal text of a natural number, as a template literal prints
    it. *)
Definition number_to_string (n : N) : str :=
  lit (NilEmpty.string_of_uint (N.to_uint n)).

(** [a < b] on strings: the order of the code units, a proper prefix
    first. *)
Fixpoint str_compare (a b : str) : comparison :=
  match a, b with
  | [], [] => Eq
  | [], _ :: _ => Lt
  | _ :: _, [] => Gt
  | x :: a', y :: b' =>
      match Nat.compare (nat_of_ascii x) (nat_of_ascii y) with
      | Eq => str_compare a' b'
      | c => c
      end
  end.

(** Line terminators among the code units below 256. *)
Definition is_line_terminator (a : ascii) : bool :=
  (nat_of_ascii a =? 10) || (nat_of_ascii a =? 13).

(** White space and line terminators, as [String.prototype.trim] removes
    them, among the code units below 256. *)
Definition is_white_space (a : ascii) : bool :=
  let n := nat_of_ascii a in
  ((9 <=? n) && (n <=? 13)) || (n =? 32) || (n =? 160).

Fixpoint trim_start (s : str) : str :=
  match s with
  | a :: s' => if is_white_space a then trim_start s' else s
  | [] => []
  end.

Definition trim (s : str) : str := rev (trim_start (rev (trim_start s))).

(** [s.split(sep)] for a one-character separator. *)
Fixpoint split_on (sep : ascii) (s : str) : list str :=
  match s with
  | [] => [[]]
  | a :: s' =>
      if Ascii.eqb a sep then [] :: split_on sep s'
      else match split_on sep s' with
           | w :: ws => (a :: w) :: ws
           | [] => [[a]]
           end
  end.

(** [parts.join(sep)] *)
Fixpoint join (sep : str) (parts : list str) : str :=
  match parts with
  | [] => []
  | [w] => w
  | w :: ws => w ++ sep ++ join sep ws
  end.

End Js.

Declare Scope js_scope.
Delimit Scope js_scope with js.
Notation "x <- e ;; k" := (Js.bind e (fun x => k))
  (at level 61, e at next level, right associativity) : js_scope.

(** ** Regular expressions

    The patterns of the module, as syntax trees, and the backtracking matcher
    of ECMAScript: a matcher takes the rest of the input, the captures so far
    and a continuation, and returns the first success in priority order. *)

Module RegExp.
Import Js.

Inductive regex : Type :=
| Eps                              (* the empty pattern *)
| Chr (a : ascii)                  (* a literal character *)
| Dot                              (* [.]: anything but a line terminator *)
| Cls (rs : list (ascii * ascii))  (* a class of inclusive ranges *)
| Eos                              (* [$] without the [m] flag *)
| Cat (r1 r2 : regex)
| Alt (r1 r2 : regex)              (* [r1|r2], left first *)
| Star (r : regex)                 (* greedy [r*] *)
| Grp (i : nat) (r : regex).       (* capturing group number [i] *)

(** [r+], [r?] and a literal run of characters. *)
Definition Plus (r : regex) : regex := Cat r (Star r).
Definition Opt (r : regex) : regex := Alt r Eps.

Fixpoint Lit (s : str) : regex :=
  match s with
  | [] => Eps
  | a :: s' => Cat (Chr a) (Lit s')
  end.

(** The patterns of a sequence, one after the other. *)
Definition Seq (rs : list regex) : regex := fold_right Cat Eps rs.

Definition in_range (a : ascii) (r : ascii * ascii) : bool :=
  (nat_of_ascii (fst r) <=? nat_of_ascii a) && (nat_of_ascii a <=? nat_of_ascii (snd r)).

Definition in_class (rs : list (ascii * ascii)) (a : ascii) : bool :=
  existsb (in_range a) rs.

(** Captures: the latest binding of a group number wins. *)
Definition captures := list (nat * str).

Definition set_cap (i : nat) (w : str) (c : captures) : captures := (i, w) :: c.

Fixpoint get_cap (i : nat) (c : captures) : option str :=
  match c with
  | [] => None
  | (j, w) :: c' => if Nat.eqb i j then Some w else get_cap i c'
  end.

Section Matcher.
Variable R : Type.

Definition cont := str -> captures -> option R.
Definition matcher := str -> captures -> cont -> option R.

(** The repeat matcher of [r*]: an iteration that consumes nothing is
    refused, so [fuel = length s] iterations are enough. *)
Fixpoint repeat_matcher (step : matcher) (fuel : nat) (s : str) (c : captures) (k : cont)
  : option R :=
  match fuel with
  | O => k s c
  | S fuel' =>
      match step s c (fun s' c' =>
                        if length s' <? length s
                        then repeat_matcher step fuel' s' c' k
                        else None) with
      | Some x => Some x
      | None => k s c
      end
  end.

Fixpoint run (r : regex) (s : str) (c : captures) (k : cont) {struct r} : option R :=
  match r with
  | Eps => k s c
  | Chr a =>
      match s with
      | x :: s' => if Ascii.eqb x a then k s' c else None
      | [] => None
      end
  | Dot =>
      match s with
      | x :: s' => if is_line_terminator x then None else k s' c
      | [] => None
      end
  | Cls rs =>
      match s with
      | x :: s' => if in_class rs x then k s' c else None
      | [] => None
      end
  | Eos =>
      match s with
      | [] => k s c
      | _ :: _ => None
      end
  | Cat r1 r2 => run r1 s c (fun s' c' => run r2 s' c' k)
  | Alt r1 r2 =>
      match run r1 s c k with
      | Some x => Some x
      | None => run r2 s c k
      end
  | Star r1 => repeat_matcher (run r1) (length s) s c k
  | Grp i r1 =>
      run r1 s c (fun s' c' => k s' (set_cap i (firstn (length s - length s') s) c'))
  end.
End Matcher.

(** The number of capturing groups of a pattern. *)
Fixpoint ngroups (r : regex) : nat :=
  match r with
  | Cat r1 r2 | Alt r1 r2 => ngroups r1 + ngroups r2
  | Star r1 => ngroups r1
  | Grp _ r1 => S (ngroups r1)
  | _ => 0
  end.

(** One match: the text before it, the matched text, the captures and the
    text after it. *)
Record found : Type := Found {
  before : str;
  matched : str;
  caps : captures;
  after : str
}.

(** A match that starts at the head of [s]: the rest and the captures. *)
Definition exec_at (r : regex) (s : str) : option (str * captures) :=
  run r s [] (fun s' c => Some (s', c)).

(** The leftmost match in [s]; [pre] is the text already skipped, newest
    character first. *)
Fixpoint search (r : regex) (pre : str) (s : str) : option found :=
  match exec_at r s with
  | Some (s', c) => Some (Found (rev pre) (firstn (length s - length s') s) c s')
  | None =>
      match s with
      | [] => None
      | a :: s' => search r (a :: pre) s'
      end
  end.

(** The match array: the matched text, then one entry per group, [None]
    for a group that took no part. *)
Definition match_array (r : regex) (f : found) : list (option str) :=
  Some (matched f) :: map (fun i => get_cap i (caps f)) (seq 1 (ngroups r)).

(** [RegExp.prototype.exec] on a pattern without the [g] flag. *)
Definition exec (r : regex) (s : str) : option (list (option str)) :=
  option_map (match_array r) (search r [] s).

(** All matches left to right, each search starting where the last match
    ended, one character further after an empty match. *)
Fixpoint search_all (r : regex) (fuel : nat) (pre : str) (s : str) : list found :=
  match fuel with
  | O => []
  | S fuel' =>
      match search r pre s with
      | None => []
      | Some f =>
          f :: match matched f, after f with
               | [], [] => []
               | [], a :: s' => search_all r fuel' [a] s'
               | _ :: _, s' => search_all r fuel' [] s'
               end
      end
  end.

Definition all_matches (r : regex) (s : str) : list found :=
  search_all r (S (length s)) [] s.

(** [s.match(r)] for [r] without the [g] flag. *)
Definition String_match (r : regex) (s : str) : option (list (option str)) := exec r s.

(** [s.match(r)] for [r] with the [g] flag: the matched texts, [null]
    when there is none. *)
Definition String_match_g (r : regex) (s : str) : option (list str) :=
  match all_matches r s with
  | [] => None
  | fs => Some (map matched fs)
  end.

(** [[...s.matchAll(r)]] for [r] with the [g] flag. *)
Definition String_matchAll (r : regex) (s : str) : list (list (option str)) :=
  map (match_array r) (all_matches r s).

(** [s.replace(r, replacement)] for [r] with the [g] flag and a replacement
    without [$] patterns. *)
Fixpoint replace_found (fs : list found) (rest : str) (replacement : str) : str :=
  match fs with
  | [] => rest
  | f :: fs' => before f ++ replacement ++ replace_found fs' (after f) replacement
  end.

Definition String_replace_g (r : regex) (s replacement : str) : str :=
  replace_found (all_matches r s) s replacement.

(** A match of a pattern that opens with [^]: only a match at the head of
    [s] counts. *)
Definition exec_anchored (r : regex) (s : str) : option (list (option str)) :=
  match exec_at r s with
  | Some (s', c) => Some (match_array r (Found [] (firstn (length s - length s') s) c s'))
  | None => None
  end.

(** Some character classes and shorthands. *)
Definition digit : regex := Cls [("0", "9")]%char.
Definition digits1 : regex := Plus digit.

End RegExp.

(** ** The underscore package

    The collection helpers the module calls, after the package's code. *)

Module Underscore.
Import Js.

(** [_.contains(list, value)] on strings, compared with [===]. *)
Definition contains (array : list str) (value : str) : bool :=
  existsb (str_eqb value) array.

(** [_.unique(array)]: a value is pushed unless the result holds it. *)
Definition unique (array : list str) : list str :=
  fold_left (fun result value => if contains result value then result else result ++ [value])
    array [].

(** [_.isEmpty(array)] *)
Definition isEmpty {A} (array : list A) : bool :=
  match array with
  | [] => true
  | _ :: _ => false
  end.

(** [_.sortBy(list, iteratee)] wraps every value with its index and its
    criterion, sorts with the comparator below and plucks the values. *)
Record wrapped (A : Type) : Type := {
  value : A;
  index : nat;
  criteria : number
}.

(** [true] when the comparator puts [left] before [right]: by criterion,
    equal criteria by index. *)
Definition before_ {A} (left right : wrapped A) : bool :=
  if number_eqb (criteria left) (criteria right) then index left <=? index right
  else number_ltb (criteria left) (criteria right).

Fixpoint insert {A} (x : wrapped A) (l : list (wrapped A)) : list (wrapped A) :=
  match l with
  | [] => [x]
  | y :: l' => if before_ x y then x :: y :: l' else y :: insert x l'
  end.

(** [Array.prototype.sort] with that comparator: the order is total on
    wrapped values of distinct indices, so the sorted array is the same for
    every sorting method. *)
Definition sort {A} (l : list (wrapped A)) : list (wrapped A) :=
  fold_right insert [] l.

(** The wrapping [map]; the iteratee may throw, which ends the call. *)
Fixpoint wrap {A} (iteratee : A -> result number) (i : nat) (l : list A) : result (list (wrapped A)) :=
  match l with
  | [] => Ok []
  | v :: l' =>
      (c <- iteratee v ;;
       rest <- wrap iteratee (S i) l' ;;
       Ok ({| value := v; index := i; criteria := c |} :: rest))%js
  end.

Definition sortBy {A} (array : list A) (iteratee : A -> result number) : result (list A) :=
  (ws <- wrap iteratee 0 array ;; Ok (map (@value A) (sort ws)))%js.

End Underscore.

(** ** The semver package

    The repository imports [semver/functions/parse] and
    [semver/functions/satisfies]; their code is not part of it.  The model
    follows release line 7.3 of the package: the strict version grammar, the
    precedence order with prerelease identifiers, and the comparators that the
    four range templates of the caller are rewritten to when
    [includePrerelease] is set. *)

Module Semver.
Import Js RegExp.

Definition MAX_LENGTH : nat := 256.
Definition MAX_SAFE_INTEGER : N := 9007199254740991.

(** A prerelease identifier: [INum] for one made of digits only, kept by
    the value of its digits and compared as a Number; [IStr] for any
    other. *)
Inductive identifier : Type :=
| INum (n : N)
| IStr (s : str).

Record SemVer : Type := {
  raw : str;
  major : N;
  minor : N;
  patch : N;
  prerelease : list identifier;
  build : list str
}.

Definition alnum_hyphen : list (ascii * ascii) :=
  [("0", "9"); ("a", "z"); ("A", "Z"); ("-", "-")]%char.

(** [0|[1-9]\d*] *)
Definition NUMERICIDENTIFIER : regex :=
  Alt (Chr "0") (Cat (Cls [("1", "9")]%char) (Star digit)).

(** [\d*[a-zA-Z-][a-zA-Z0-9-]*] *)
Definition NONNUMERICIDENTIFIER : regex :=
  Seq [Star digit; Cls [("a", "z"); ("A", "Z"); ("-", "-")]%char; Star (Cls alnum_hyphen)].

Definition PRERELEASEIDENTIFIER : regex := Alt NUMERICIDENTIFIER NONNUMERICIDENTIFIER.

(** [[0-9A-Za-z-]+] *)
Definition BUILDIDENTIFIER : regex := Plus (Cls alnum_hyphen).

(** The strict version pattern [FULL]: an optional [v], the three numeric
    identifiers, an optional hyphen and dot-separated prerelease
    identifiers (group 4), an optional plus sign and dot-separated build
    identifiers (group 5), then the end of the text.  The opening [^] is
    left to [exec_anchored]. *)
Definition FULL : regex :=
  Seq [Opt (Chr "v");
       Grp 1 NUMERICIDENTIFIER; Chr "."; Grp 2 NUMERICIDENTIFIER; Chr ".";
       Grp 3 NUMERICIDENTIFIER;
       Opt (Cat (Chr "-")
              (Grp 4 (Cat PRERELEASEIDENTIFIER (Star (Cat (Chr ".") PRERELEASEIDENTIFIER)))));
       Opt (Cat (Chr "+")
              (Grp 5 (Cat BUILDIDENTIFIER (Star (Cat (Chr ".") BUILDIDENTIFIER)))));
       Eos].

(** [/^[0-9]+$/.test(id)] *)
Definition numeric (id : str) : bool :=
  match id with
  | [] => false
  | _ => forallb is_digit id
  end.

Definition identifier_of (id : str) : identifier :=
  if numeric id then INum (digits_value id) else IStr id.

(** [m[i].split('.')] when the group took part, the empty array
    otherwise. *)
Definition split_group (g : option str) : list str :=
  match g with
  | Some w => split_on "." w
  | None => []
  end.

(** [new SemVer(version, options)]; [None] when the constructor throws. *)
Definition SemVer_new (version : str) : option SemVer :=
  if MAX_LENGTH <? length version then None
  else
    match exec_anchored FULL (trim version) with
    | Some [_; Some m1; Some m2; Some m3; m4; m5] =>
        let major := digits_value m1 in
        let minor := digits_value m2 in
        let patch := digits_value m3 in
        if ((MAX_SAFE_INTEGER <? major) || (MAX_SAFE_INTEGER <? minor)
            || (MAX_SAFE_INTEGER <? patch))%N
        then None
        else Some {| raw := version; major := major; minor := minor; patch := patch;
                     prerelease := map identifier_of (split_group m4);
                     build := split_group m5 |}
    | _ => None
    end.

(** [semverParse(version)] on a string. *)
Definition parse (version : str) : option SemVer :=
  if MAX_LENGTH <? length version then None
  else
    match exec_anchored FULL version with
    | None => None
    | Some _ => SemVer_new version
    end.

Definition identifier_to_string (id : identifier) : str :=
  match id with
  | INum n => number_to_string n
  | IStr s => s
  end.

(** The [version] field, also what [toString] returns. *)
Definition version (v : SemVer) : str :=
  number_to_string (major v) ++ lit "." ++ number_to_string (minor v) ++ lit "."
    ++ number_to_string (patch v)
    ++ match prerelease v with
       | [] => []
       | ids => lit "-" ++ join (lit ".") (map identifier_to_string ids)
       end.

(** Two identifiers made of digits are compared as [+a] and [+b]. *)
Definition compareIdentifiers (a b : identifier) : comparison :=
  match a, b with
  | INum x, INum y => number_compare (to_number x) (to_number y)
  | INum _, IStr _ => Lt
  | IStr _, INum _ => Gt
  | IStr x, IStr y => str_compare x y
  end.

(** [a || b] on comparison results. *)
Definition or_else (a b : comparison) : comparison :=
  match a with
  | Eq => b
  | _ => a
  end.

Definition compareMain (a b : SemVer) : comparison :=
  or_else (N.compare (major a) (major b))
    (or_else (N.compare (minor a) (minor b)) (N.compare (patch a) (patch b))).

(** The loop of [comparePre] over the two identifier lists. *)
Fixpoint compare_identifier_lists (a b : list identifier) : comparison :=
  match a, b with
  | [], [] => Eq
  | _ :: _, [] => Gt
  | [], _ :: _ => Lt
  | x :: a', y :: b' =>
      match compareIdentifiers x y with
      | Eq => compare_identifier_lists a' b'
      | c => c
      end
  end.

Definition comparePre (a b : SemVer) : comparison :=
  match prerelease a, prerelease b with
  | _ :: _, [] => Lt
  | [], _ :: _ => Gt
  | [], [] => Eq
  | pa, pb => compare_identifier_lists pa pb
  end.

Definition compare (a b : SemVer) : comparison :=
  or_else (compareMain a b) (comparePre a b).

Inductive operator : Type := LT | LTE.

Record Comparator : Type := {
  operator_of : operator;
  semver : SemVer
}.

Definition cmp (a : SemVer) (op : operator) (b : SemVer) : bool :=
  match op, compare a b with
  | LT, Lt => true
  | LTE, (Lt | Eq) => true
  | _, _ => false
  end.

Definition plain (M m p : N) (pre : list identifier) : SemVer :=
  {| raw := []; major := M; minor := m; patch := p; prerelease := pre; build := [] |}.

(** The ranges the caller builds, each one comparator once parsed with
    [includePrerelease]: an X-range under [<] is rewritten with zeros for
    the wildcards and the lowest prerelease [-0]. *)

(** [<${major}.x.x], rewritten to [<major.0.0-0] *)
Definition range_lt_major_x_x (M : N) : Comparator :=
  {| operator_of := LT; semver := plain M 0 0 [INum 0] |}.

(** [<${major}.${minor}.x], rewritten to [<major.minor.0-0] *)
Definition range_lt_major_minor_x (M m : N) : Comparator :=
  {| operator_of := LT; semver := plain M m 0 [INum 0] |}.

(** [<${version}] for the version text of [v] *)
Definition range_lt_version (v : SemVer) : Comparator :=
  {| operator_of := LT; semver := plain (major v) (minor v) (patch v) (prerelease v) |}.

(** [<=${major}.${minor}.${patch}] *)
Definition range_lte_major_minor_patch (M m p : N) : Comparator :=
  {| operator_of := LTE; semver := plain M m p [] |}.

(** [semverSatisfies(version, range, {includePrerelease: true})] for a
    range of one comparator: a version text that does not parse satisfies
    nothing. *)
Definition satisfies (version : str) (range : Comparator) : bool :=
  match SemVer_new version with
  | Some v => cmp v (operator_of range) (semver range)
  | None => false
  end.

End Semver.

(** ** lib/GithubUtils.js *)

Module GithubUtils.
Import Js RegExp.

Definition GITHUB_OWNER : str := lit "Expensify".
Definition EXPENSIFY_ISSUE_REPO : str := lit "Expensify".
Definition EXPENSIFY_CASH_REPO : str := lit "Expensify.cash".
Definition EXPENSIFY_CASH_URL : str := lit "https://github.com/Expensify/Expensify.cash".
Definition STAGING_DEPLOY_CASH_LABEL : str := lit "StagingDeployCash".

(** [https?://(?:github\.com|api\.github\.com)] *)
Definition GITHUB_BASE_URL_REGEX : regex :=
  Seq [Lit (lit "http"); Opt (Chr "s"); Lit (lit "://");
       Alt (Lit (lit "github.com")) (Lit (lit "api.github.com"))].

(** [${GITHUB_BASE_URL_REGEX.source}/.*/.*/KIND/([0-9]+)]: the pattern of a
    URL up to its number, the group being number [g] of the pattern it is
    part of. *)
Definition url_core (kind : regex) (g : nat) : regex :=
  Seq [GITHUB_BASE_URL_REGEX; Chr "/"; Star Dot; Chr "/"; Star Dot; Chr "/"; kind; Chr "/";
       Grp g digits1].

(** [${GITHUB_BASE_URL_REGEX.source}/.*/.*/KIND/([0-9]+).*]: the same, and
    the closing wildcard. *)
Definition url_pattern (kind : regex) (g : nat) : regex :=
  Cat (url_core kind g) (Star Dot).

Definition PULL_REQUEST_REGEX : regex := url_pattern (Lit (lit "pull")) 1.
Definition ISSUE_REGEX : regex := url_pattern (Lit (lit "issues")) 1.
Definition ISSUE_OR_PULL_REQUEST_REGEX : regex :=
  url_pattern (Alt (Lit (lit "pull")) (Lit (lit "issues"))) 1.

(** The three parsers share their body: [matches] is [null] or an array of
    the matched text and the one group, which takes part in every match. *)
Definition number_from_match (matches : option (list (option str))) (message : str)
  : result number :=
  match matches with
  | Some [_; Some n] => Ok (parseInt n)
  | _ => Throw (Error message)
  end.

Definition getPullRequestNumberFromURL (URL : str) : result number :=
  number_from_match (String_match PULL_REQUEST_REGEX URL)
    (lit "Provided URL " ++ URL ++ lit " is not a Github Pull Request!").

Definition getIssueNumberFromURL (URL : str) : result number :=
  number_from_match (String_match ISSUE_REGEX URL)
    (lit "Provided URL " ++ URL ++ lit " is not a Github Issue!").

Definition getIssueOrPullRequestNumberFromURL (URL : str) : result number :=
  number_from_match (String_match ISSUE_OR_PULL_REQUEST_REGEX URL)
    (lit "Provided URL " ++ URL ++ lit " is not a valid Github Issue or Pull Request!").

(** *** Decoding a checklist body *)

(** A pattern source spliced from plain text whose only special character
    is the dot, as [EXPENSIFY_CASH_URL] is spliced into [compareURLRegex]:
    a dot stands for any character of a line. *)
Definition pattern_of_text (s : str) : regex :=
  Seq (map (fun a => if Ascii.eqb a "." then Dot else Chr a) s).

(** [([0-9]+)\.([0-9]+)\.([0-9]+)(?:-([0-9]+))?], its groups numbered from
    [g + 1]. *)
Definition versionRegex_source (g : nat) : regex :=
  Seq [Grp (g + 1) digits1; Chr "."; Grp (g + 2) digits1; Chr "."; Grp (g + 3) digits1;
       Opt (Cat (Chr "-") (Grp (g + 4) digits1))].

Definition versionRegex : regex := versionRegex_source 0.

(** [${EXPENSIFY_CASH_URL}/compare/${versionRegex.source}\.\.\.${versionRegex.source}] *)
Definition compareURLRegex : regex :=
  Seq [pattern_of_text EXPENSIFY_CASH_URL; Lit (lit "/compare/"); versionRegex_source 0;
       Lit (lit "..."); versionRegex_source 4].

(** [- \[[ x]] (${ISSUE_OR_PULL_REQUEST_REGEX.source})] *)
Definition checklistItemRegex : regex :=
  Seq [Lit (lit "- ["); Cls [(" ", " "); ("x", "x")]%char; Lit (lit "] ");
       Grp 1 (url_pattern (Alt (Lit (lit "pull")) (Lit (lit "issues"))) 2)].

(** [(?:.*\r\n)+] *)
Definition lines1 : regex := Plus (Cat (Star Dot) (Lit CRLF)).

(** [/pull requests:\*\*\r\n((?:.*\r\n)+)\r\n/] *)
Definition PRListSectionRegex : regex :=
  Seq [Lit (lit "pull requests:**"); Lit CRLF; Grp 1 lines1; Lit CRLF].

(** [/Deploy Blockers:\*\*\r\n((?:.*\r\n)+)/] *)
Definition deployBlockerSectionRegex : regex :=
  Seq [Lit (lit "Deploy Blockers:**"); Lit CRLF; Grp 1 lines1].

(** [/`/g] *)
Definition backtickRegex : regex := Chr "`".

(** The issue object of the forge, as far as the decoder reads it; [body]
    is [None] for the [null] body of an issue without description. *)
Record Issue : Type := {
  issue_title : str;
  issue_url : str;
  issue_labels : list str;
  issue_body : option str
}.

(** The decoded checklist.  An entry of [PRList] or [deployBlockers] is
    [match[1]]: a string, or [None] for [undefined]. *)
Record StagingDeployCashData : Type := {
  title : str;
  url : str;
  labels : list str;
  tag : str;
  comparisonURL : str;
  PRList : list (option str);
  deployBlockers : list (option str)
}.

Definition MalformedChecklist : exn :=
  Error (lit "Unable to find " ++ STAGING_DEPLOY_CASH_LABEL ++ lit " issue with correct data.").

(** [x[i]] for an array [x]: [undefined] past the end. *)
Definition index {A} (x : list A) (i : nat) : option A := nth_error x i.

(** [[...section.matchAll(checklistItemRegex)].map(match => match[1])] *)
Definition checklistItems (section : str) : list (option str) :=
  map (fun match_ => nth 1 match_ None) (String_matchAll checklistItemRegex section).

(** [x.match(r)[1]] for [r] without the [g] flag: a [TypeError] when there
    is no match. *)
Definition first_group (r : regex) (s : str) : result str :=
  (matches <- of_nullable (String_match r s) ;;
   of_nullable (nth 1 matches None))%js.

(** The four extraction steps of the decoder, in order. *)
Definition extract_tag (body : str) : result str :=
  (matches <- of_nullable (String_match_g versionRegex body) ;;
   first <- of_nullable (index matches 0) ;;
   Ok (String_replace_g backtickRegex first []))%js.

Definition extract_comparisonURL (body : str) : result str :=
  (matches <- of_nullable (String_match_g compareURLRegex body) ;;
   of_nullable (index matches 0))%js.

Definition extract_PRList (body : str) : result (list (option str)) :=
  (PRListSection <- first_group PRListSectionRegex body ;;
   Ok (checklistItems PRListSection))%js.

Definition extract_deployBlockers (body : str) : result (list (option str)) :=
  (deployBlockerSection <- first_group deployBlockerSectionRegex body ;;
   Ok (checklistItems deployBlockerSection))%js.

Definition getStagingDeployCashData (issue : Issue) : result StagingDeployCashData :=
  try_catch
    (body <- of_nullable (issue_body issue) ;;
     tag <- extract_tag body ;;
     comparisonURL <- extract_comparisonURL body ;;
     PRList <- extract_PRList body ;;
     deployBlockers <- extract_deployBlockers body ;;
     Ok {| title := issue_title issue; url := issue_url issue; labels := issue_labels issue;
           tag := tag; comparisonURL := comparisonURL; PRList := PRList;
           deployBlockers := deployBlockers |})%js
    (fun exception => Throw MalformedChecklist).

(** *** The version comparator *)

(** The forge client, as far as the module calls it: [repos.listTags]
    answers with a promise of the tag names, in the order of the listing. *)
Record Octokit : Type := {
  listTags : option str -> option str -> promise (list str)
}.

Definition getComparisonURL (previousTag currentTag : str) : str :=
  EXPENSIFY_CASH_URL ++ lit "/compare/" ++ previousTag ++ lit "..." ++ currentTag.

(** [`${tagSemver}`]: the version text, or [null] spelled out. *)
Definition tagSemver_to_string (tagSemver : option Semver.SemVer) : str :=
  match tagSemver with
  | Some t => Semver.version t
  | None => lit "null"
  end.

(** The four conditions of the callback, each the range predicate of one
    level; reading a field of a [null] [tagSemver] throws. *)
Definition major_condition (tagSemver : option Semver.SemVer) (repoTag : str) : result bool :=
  (t <- of_nullable tagSemver ;;
   Ok (Semver.satisfies repoTag (Semver.range_lt_major_x_x (Semver.major t))))%js.

Definition minor_condition (tagSemver : option Semver.SemVer) (repoTag : str) : result bool :=
  (t <- of_nullable tagSemver ;;
   Ok (Semver.satisfies repoTag
         (Semver.range_lt_major_minor_x (Semver.major t) (Semver.minor t))))%js.

(** [`<${tagSemver}`] is [<null] for a [null] [tagSemver], which is no
    range: nothing satisfies it. *)
Definition patch_condition (tagSemver : option Semver.SemVer) (repoTag : str) : result bool :=
  match tagSemver with
  | Some t => Ok (Semver.satisfies repoTag (Semver.range_lt_version t))
  | None => Ok false
  end.

Definition build_condition (tagSemver : option Semver.SemVer) (repoTag : str) : result bool :=
  (t <- of_nullable tagSemver ;;
   if str_eqb repoTag (Semver.version t) then Ok false
   else Ok (Semver.satisfies repoTag
              (Semver.range_lte_major_minor_patch
                 (Semver.major t) (Semver.minor t) (Semver.patch t))))%js.

(** [semverLevel === level && condition]: the condition is not evaluated
    for another level. *)
Definition at_level (semverLevel : str) (level : String.string) (condition : result bool)
  : result bool :=
  if str_eqb semverLevel (lit level) then condition else Ok false.

(** The callback of [some] for one tag: [Ok true] when it resolves the
    promise and returns [true], [Ok false] when it returns [false]. *)
Definition tag_matches (semverLevel : str) (tagSemver : option Semver.SemVer) (repoTag : str)
  : result bool :=
  (m1 <- at_level semverLevel "MAJOR" (major_condition tagSemver repoTag) ;;
   if m1 then Ok true else
   m2 <- at_level semverLevel "MINOR" (minor_condition tagSemver repoTag) ;;
   if m2 then Ok true else
   m3 <- at_level semverLevel "PATCH" (patch_condition tagSemver repoTag) ;;
   if m3 then Ok true else
   m4 <- at_level semverLevel "BUILD" (build_condition tagSemver repoTag) ;;
   if m4 then Ok true else
   Ok false)%js.

(** [data.some(callback)] inside the [then], and what it leaves of the
    promise: resolved by the first tag that matches, rejected through the
    [catch] when the callback throws, and still pending when [some] runs
    out of tags, as neither [resolve] nor [reject] is called then. *)
Fixpoint scan_tags (semverLevel : str) (tagSemver : option Semver.SemVer) (data : list str)
  : promise str :=
  match data with
  | [] => Pending
  | repoTag :: data' =>
      match tag_matches semverLevel tagSemver repoTag with
      | Throw githubError => Rejected githubError
      | Ok true => Resolved (getComparisonURL repoTag (tagSemver_to_string tagSemver))
      | Ok false => scan_tags semverLevel tagSemver data'
      end
  end.

Definition generateVersionComparisonURL (octokit : Octokit) (repoSlug tag semverLevel : str)
  : promise str :=
  let parts := split_on "/" repoSlug in
  let repoOwner := index parts 0 in
  let repoName := index parts 1 in
  let tagSemver := Semver.parse tag in
  match listTags octokit repoOwner repoName with
  | Pending => Pending
  | Rejected githubError => Rejected githubError
  | Resolved data => scan_tags semverLevel tagSemver data
  end.

(** *** Encoding a checklist body *)

(** What [console.warn] was called with. *)
Inductive log_entry : Type :=
| Warn (message : str) (err : exn).

(** One pass of the [_.each] loops: the box, checked when the URL is in
    [checked], then the URL. *)
Definition append_line (checked : list str) (issueBody URL : str) : str :=
  (issueBody ++ (if Underscore.contains checked URL then lit "- [x]" else lit "- [ ]"))
    ++ lit " " ++ URL ++ CRLF.

(** The [then] callback of the encoder. *)
Definition render_body (tag comparisonURL : str)
  (PRList verifiedPRList deployBlockers resolvedDeployBlockers : list str) : result str :=
  (sortedPRList <- Underscore.sortBy (Underscore.unique PRList) getPullRequestNumberFromURL ;;
   sortedDeployBlockers <-
     Underscore.sortBy (Underscore.unique deployBlockers) getIssueOrPullRequestNumberFromURL ;;
   let issueBody := lit "**Release Version:** " ++ tag ++ CRLF in
   let issueBody := issueBody ++ lit "**Compare Changes:** " ++ comparisonURL ++ CRLF in
   let issueBody :=
     if negb (Underscore.isEmpty PRList)
     then fold_left (append_line verifiedPRList) sortedPRList
            (issueBody
               ++ lit "**This release contains changes from the following pull requests:**"
               ++ CRLF)
     else issueBody in
   let issueBody :=
     if negb (Underscore.isEmpty deployBlockers)
     then fold_left (append_line resolvedDeployBlockers) sortedDeployBlockers
            (issueBody ++ CRLF ++ lit "**Deploy Blockers:**" ++ CRLF)
     else issueBody in
   Ok issueBody)%js.

Definition comparison_warning : str := lit "Error generating comparison URL, continuing...".

(** The promise of the encoder and the console output.  The closing
    [catch] turns a rejection of the comparator, or a throw of the [then]
    callback, into a warning and a promise resolved with [undefined]. *)
Definition generateStagingDeployCashBody (octokit : Octokit) (tag : str)
  (PRList verifiedPRList deployBlockers resolvedDeployBlockers : list str)
  : promise value * list log_entry :=
  match generateVersionComparisonURL octokit
          (GITHUB_OWNER ++ lit "/" ++ EXPENSIFY_CASH_REPO) tag (lit "BUILD") with
  | Pending => (Pending, [])
  | Rejected err => (Resolved VUndefined, [Warn comparison_warning err])
  | Resolved comparisonURL =>
      match render_body tag comparisonURL PRList verifiedPRList deployBlockers
              resolvedDeployBlockers with
      | Ok issueBody => (Resolved (VString issueBody), [])
      | Throw err => (Resolved VUndefined, [Warn comparison_warning err])
      end
  end.

(** *** The checklist issue on the forge *)

Definition APPLAUSE_BOT : str := lit "applausebot".

(** [promise.then(callback)] for a callback that returns a value or
    throws. *)
Definition then_ {A B} (p : promise A) (callback : A -> result B) : promise B :=
  match p with
  | Pending => Pending
  | Rejected e => Rejected e
  | Resolved a =>
      match callback a with
      | Ok b => Resolved b
      | Throw e => Rejected e
      end
  end.

(** The parameters of [issues.listForRepo] and of [issues.create], with
    the keys the module fills. *)
Record ListForRepoParams : Type := {
  list_owner : str;
  list_repo : str;
  list_labels : str;
  list_state : str
}.

Record CreateParams : Type := {
  create_owner : str;
  create_repo : str;
  create_labels : str;
  create_assignee : str;
  create_title : str;
  create_body : value
}.

(** The issue calls of the forge client: [issues.listForRepo] answers with
    a promise of the [data] of its response, [issues.create] with a promise
    of a [Response]. *)
Record OctokitIssues (Response : Type) : Type := {
  listForRepo : ListForRepoParams -> promise (list Issue);
  create : CreateParams -> promise Response
}.

Definition getStagingDeployCash {Response} (issues : OctokitIssues Response)
  : promise StagingDeployCashData :=
  then_ (listForRepo issues
           {| list_owner := GITHUB_OWNER; list_repo := EXPENSIFY_ISSUE_REPO;
              list_labels := STAGING_DEPLOY_CASH_LABEL; list_state := lit "open" |})
    (fun data =>
       if length data =? 0
       then Throw (Error (lit "Unable to find " ++ STAGING_DEPLOY_CASH_LABEL ++ lit " issue."))
       else if 1 <? length data
       then Throw (Error (lit "Found more than one " ++ STAGING_DEPLOY_CASH_LABEL
                            ++ lit " issue."))
       else match index data 0 with
            | Some issue => getStagingDeployCashData issue
            | None => Throw MalformedChecklist
            end).

(** The [then] of [createNewStagingDeployCash] runs when the encoder
    resolves, with whatever it resolved with. *)
Definition createNewStagingDeployCash {Response} (octokit : Octokit)
  (issues : OctokitIssues Response) (title tag : str) (PRList : list str)
  : promise Response * list log_entry :=
  let (issueBody, output) := generateStagingDeployCashBody octokit tag PRList [] [] [] in
  (match issueBody with
   | Pending => Pending
   | Rejected err => Rejected err
   | Resolved issueBody =>
       create issues
         {| create_owner := GITHUB_OWNER; create_repo := EXPENSIFY_ISSUE_REPO;
            create_labels := STAGING_DEPLOY_CASH_LABEL; create_assignee := APPLAUSE_BOT;
            create_title := title; create_body := issueBody |}
   end, output).

End GithubUtils.

(** * Properties of the module *)

Import Js RegExp GithubUtils.

(** ** Numbers

    Below 2^53 the Number of a run of digits is the value of the run; the
    order of Numbers is total. *)

Lemma to_number_exact (n : N) : (n < 2 ^ 53)%N -> to_number n = Finite (Z.of_N n).
Proof.
  intro H. unfold to_number. cbv zeta.
  destruct (Z.ltb_spec (Z.of_N n) (2 ^ 53)) as [_|Hge]; [reflexivity|].
  exfalso. change (2 ^ 53)%Z with (Z.of_N (2 ^ 53)) in Hge. lia.
Qed.

Lemma parseInt_exact (digits : str) :
  (digits_value digits < 2 ^ 53)%N -> parseInt digits = Finite (Z.of_N (digits_value digits)).
Proof.
  apply to_number_exact.
Qed.

Lemma spacing_pos (z : Z) : (2 ^ 53 <= z)%Z -> (0 < spacing z)%Z.
Proof.
  intro H. unfold spacing. apply Z.pow_pos_nonneg; [lia|].
  assert (53 <= Z.log2 z)%Z; [|lia].
  change 53%Z with (Z.log2 (2 ^ 53)). apply Z.log2_le_mono. exact H.
Qed.

Lemma nearest_even_nonneg (z : Z) : (2 ^ 53 <= z)%Z -> (0 <= nearest_even z)%Z.
Proof.
  intro H. pose proof (spacing_pos H) as Hu. unfold nearest_even. cbv zeta.
  assert (Hz : (0 <= z)%Z) by (pose proof (Z.pow_pos_nonneg 2 53); lia).
  assert (Hq : (0 <= z / spacing z)%Z) by (apply Z.div_pos; assumption).
  generalize dependent (z / spacing z)%Z. generalize dependent (spacing z).
  intros u Hu q Hq.
  destruct (2 * (z mod u) <? u)%Z; [nia|].
  destruct (u <? 2 * (z mod u))%Z; [nia|].
  destruct (Z.even q); nia.
Qed.

(** No Number of a natural number is below zero. *)
Lemma to_number_nonneg (n : N) : number_compare (to_number n) (to_number 0) <> Lt.
Proof.
  change (to_number 0) with (Finite 0). unfold to_number. cbv zeta.
  destruct (Z.ltb_spec (Z.of_N n) (2 ^ 53)) as [_|Hge]; cbn [number_compare].
  - intro H. pose proof (proj1 (Z.compare_lt_iff _ _) H). lia.
  - pose proof (nearest_even_nonneg Hge) as Hv.
    destruct (nearest_even (Z.of_N n) <? 2 ^ 1024)%Z; cbn [number_compare]; [|discriminate].
    intro H. pose proof (proj1 (Z.compare_lt_iff _ _) H). lia.
Qed.

(** The same Number by the standard library's binary64: the natural number
    normalized to 53 bits of precision and exponents below 1024, rounding
    to nearest, ties to even. *)
Definition binary64_of (n : N) : number :=
  match binary_normalize 53 1024 (Z.of_N n) 0 false with
  | S754_zero _ => Finite 0
  | S754_finite _ m e => Finite (Z.shiftl (Z.pos m) e)
  | _ => Infinity
  end.

Section Binary64.
Local Open Scope Z_scope.

(** The library shifts a mantissa right one bit at a time, keeping the
    last bit shifted out and whether any bit before it was set. *)
Lemma iter_pos_nat (A : Type) (f : A -> A) (p : positive) (x : A) :
  iter_pos f p x = Nat.iter (Pos.to_nat p) f x.
Proof.
  revert x. induction p as [p IH|p IH|]; intro x; cbn [iter_pos].
  - rewrite !IH, <- Nat.iter_succ_r, <- Nat.iter_add. f_equal. lia.
  - rewrite !IH, <- Nat.iter_add. f_equal. lia.
  - reflexivity.
Qed.

Lemma shr_1_nonneg (m : Z) (r s : bool) :
  (0 <= m)%Z ->
  shr_1 {| shr_m := m; shr_r := r; shr_s := s |}
  = {| shr_m := Z.div2 m; shr_r := Z.odd m; shr_s := r || s |}.
Proof.
  intro H. destruct m as [|[p|p|]|p]; cbn; try reflexivity. lia.
Qed.

Lemma mod_pow2_succ (m j : Z) :
  (0 <= j)%Z ->
  (m mod 2 ^ (j + 1) = m mod 2 ^ j + (if Z.testbit m j then 2 ^ j else 0))%Z.
Proof.
  intro Hj. rewrite Z.pow_add_r, Z.pow_1_r by lia.
  assert (Hp : (0 < 2 ^ j)%Z) by (apply Z.pow_pos_nonneg; lia).
  rewrite Z.rem_mul_r by lia.
  pose proof (Z.testbit_spec' m j Hj) as Ht.
  destruct (Z.testbit m j); cbn [Z.b2z] in Ht; rewrite <- Ht; lia.
Qed.

Lemma shr_iter (m : Z) (j : nat) :
  (0 <= m)%Z ->
  Nat.iter (S j) shr_1 {| shr_m := m; shr_r := false; shr_s := false |}
  = {| shr_m := Z.shiftr m (Z.of_nat (S j));
       shr_r := Z.testbit m (Z.of_nat j);
       shr_s := negb (m mod 2 ^ Z.of_nat j =? 0)%Z |}.
Proof.
  intro Hm. induction j as [|j IH].
  - cbn [Nat.iter nat_rect]. rewrite shr_1_nonneg by exact Hm.
    rewrite Z.div2_spec, Z.bit0_odd. change (Z.of_nat 0) with 0%Z.
    change (Z.of_nat 1) with 1%Z. rewrite Z.pow_0_r, Z.mod_1_r. reflexivity.
  - change (Nat.iter (S (S j)) shr_1 ?x) with (shr_1 (Nat.iter (S j) shr_1 x)).
    rewrite IH. rewrite shr_1_nonneg by (apply Z.shiftr_nonneg; exact Hm).
    f_equal.
    + rewrite Z.div2_spec, Z.shiftr_shiftr by lia. f_equal; lia.
    + rewrite <- Z.bit0_odd, Z.shiftr_spec by lia. f_equal; lia.
    + replace (Z.of_nat (S j)) with (Z.of_nat j + 1)%Z by lia.
      rewrite mod_pow2_succ by lia.
      assert (Hp : (0 < 2 ^ Z.of_nat j)%Z) by (apply Z.pow_pos_nonneg; lia).
      pose proof (Z.mod_pos_bound m (2 ^ Z.of_nat j) Hp) as Hb.
      destruct (Z.testbit m (Z.of_nat j)); cbn [orb].
      * symmetry. apply negb_true_iff. apply Z.eqb_neq. lia.
      * rewrite Z.add_0_r. reflexivity.
Qed.

(** The library counts the bits of a mantissa. *)
Lemma digits2_pos_log2 (m : positive) : Z.pos (digits2_pos m) = Z.log2 (Z.pos m) + 1.
Proof.
  assert (H : digits2_pos m = Pos.size m).
  { induction m as [m IH|m IH|]; cbn [digits2_pos Pos.size]; congruence. }
  rewrite H. destruct m as [m|m|]; cbn [Z.log2 Pos.size]; lia.
Qed.

Lemma iter_xO_pow (m p : positive) : Z.pos (Pos.iter xO m p) = Z.pos m * 2 ^ Z.pos p.
Proof.
  induction p as [|p IH] using Pos.peano_ind.
  - cbn [Pos.iter]. rewrite Z.pow_1_r. lia.
  - rewrite Pos.iter_succ, Pos2Z.inj_succ, Z.pow_succ_r by lia.
    rewrite Pos2Z.inj_xO, IH. lia.
Qed.

(** The mantissa [nearest_even] keeps. *)
Definition mantissa (z u : Z) : Z :=
  if 2 * (z mod u) <? u then z / u
  else if u <? 2 * (z mod u) then z / u + 1
  else if Z.even (z / u) then z / u else z / u + 1.

Lemma nearest_even_mantissa (z : Z) : nearest_even z = mantissa z (spacing z) * spacing z.
Proof.
  unfold nearest_even, mantissa. cbv zeta.
  destruct (2 * (z mod spacing z) <? spacing z); [reflexivity|].
  destruct (spacing z <? 2 * (z mod spacing z)); [reflexivity|].
  destruct (Z.even (z / spacing z)); reflexivity.
Qed.

(** Shifting [z] right by [k] bits and rounding to nearest, ties to even,
    gives that mantissa for the spacing 2^k. *)
Lemma shr_rounds (z : Z) (k : positive) :
  0 <= z ->
  let mrs := iter_pos shr_1 k {| shr_m := z; shr_r := false; shr_s := false |} in
  round_nearest_even (shr_m mrs) (loc_of_shr_record mrs) = mantissa z (2 ^ Z.pos k).
Proof.
  intro Hz. cbv zeta. rewrite iter_pos_nat.
  destruct (Pos.to_nat k) as [|j] eqn:Hk; [lia|].
  rewrite shr_iter by exact Hz. cbn [shr_m].
  assert (Ek : Z.pos k = Z.of_nat j + 1) by lia.
  rewrite Ek at 1. replace (Z.of_nat (S j)) with (Z.of_nat j + 1) by lia.
  rewrite Z.shiftr_div_pow2 by lia.
  unfold mantissa.
  rewrite (mod_pow2_succ z) by lia.
  assert (Hp : 0 < 2 ^ Z.of_nat j) by (apply Z.pow_pos_nonneg; lia).
  pose proof (Z.mod_pos_bound z (2 ^ Z.of_nat j) Hp) as Hb.
  assert (Hu : 2 ^ (Z.of_nat j + 1) = 2 * 2 ^ Z.of_nat j)
    by (rewrite Z.pow_add_r, Z.pow_1_r by lia; lia).
  set (q := z / 2 ^ (Z.of_nat j + 1)). rewrite !Hu.
  set (low := z mod 2 ^ Z.of_nat j) in *.
  set (h := 2 ^ Z.of_nat j) in *.
  destruct (Z.testbit z (Z.of_nat j)); destruct (Z.eqb_spec low 0) as [E|E];
    cbn [negb loc_of_shr_record round_nearest_even].
  - destruct (Z.ltb_spec (2 * (low + h)) (2 * h)); [lia|].
    destruct (Z.ltb_spec (2 * h) (2 * (low + h))); [lia|]. reflexivity.
  - destruct (Z.ltb_spec (2 * (low + h)) (2 * h)); [lia|].
    destruct (Z.ltb_spec (2 * h) (2 * (low + h))); [reflexivity|lia].
  - destruct (Z.ltb_spec (2 * (low + 0)) (2 * h)); [reflexivity|lia].
  - destruct (Z.ltb_spec (2 * (low + 0)) (2 * h)); [reflexivity|lia].
Qed.

(** A mantissa of 53 bits is left as it is. *)
Lemma shr_fexp_canonical (mz : positive) (ez : Z) :
  Z.log2 (Z.pos mz) = 52 -> -1074 <= ez ->
  shr_fexp 53 1024 (Z.pos mz) ez loc_Exact
  = ({| shr_m := Z.pos mz; shr_r := false; shr_s := false |}, ez).
Proof.
  intros Hlog He. unfold shr_fexp, fexp, emin. cbn [Zdigits2 shr_record_of_loc].
  rewrite digits2_pos_log2, Hlog.
  match goal with |- shr _ _ ?n = _ => replace n with 0 by lia end.
  reflexivity.
Qed.

Lemma binary_round_aux_canonical (mz : positive) (ez : Z) :
  Z.log2 (Z.pos mz) = 52 -> -1074 <= ez ->
  binary_round_aux 53 1024 false (Z.pos mz) ez loc_Exact
  = if ez <=? 971 then S754_finite false mz ez else S754_infinity false.
Proof.
  intros Hlog He. unfold binary_round_aux.
  rewrite (shr_fexp_canonical _ Hlog He).
  cbn [shr_m loc_of_shr_record round_nearest_even].
  rewrite (shr_fexp_canonical _ Hlog He). reflexivity.
Qed.

(** Below 2^53 the library shifts the mantissa left and rounds nothing. *)
Lemma binary64_of_small (m : positive) :
  Z.pos m < 2 ^ 53 -> binary64_of (N.pos m) = Finite (Z.pos m).
Proof.
  intro Hlow. unfold binary64_of. cbn [Z.of_N binary_normalize]. unfold binary_round.
  assert (HL : 0 <= Z.log2 (Z.pos m) < 53).
  { split; [apply Z.log2_nonneg|]. apply Z.log2_lt_pow2; lia. }
  unfold shl_align, fexp, emin. rewrite digits2_pos_log2.
  destruct (Z.max (Z.log2 (Z.pos m) + 1 + 0 - 53) (3 - 1024 - 53) - 0) as [|p|p] eqn:E.
  - rewrite binary_round_aux_canonical by lia.
    cbn [Z.leb Z.compare]. rewrite Z.shiftl_0_r. reflexivity.
  - lia.
  - assert (Hmz : Z.log2 (Z.pos (Pos.iter xO m p)) = 52).
    { rewrite iter_xO_pow, Z.log2_mul_pow2 by lia. lia. }
    rewrite binary_round_aux_canonical by (exact Hmz || lia).
    destruct (Z.leb_spec (Z.max (Z.log2 (Z.pos m) + 1 + 0 - 53) (3 - 1024 - 53)) 971); [|lia].
    f_equal. rewrite iter_xO_pow.
    replace (Z.max (Z.log2 (Z.pos m) + 1 + 0 - 53) (3 - 1024 - 53)) with (- Z.pos p) by lia.
    change (Z.shiftl (Z.pos m * 2 ^ Z.pos p) (- Z.pos p))
      with (Z.shiftr (Z.pos m * 2 ^ Z.pos p) (Z.pos p)).
    rewrite Z.shiftr_div_pow2 by lia. apply Z.div_mul.
    apply Z.pow_nonzero; lia.
Qed.

(** Rounding up to 2^53 takes one more shift. *)
Lemma shr_fexp_carry (k : Z) :
  0 < k ->
  shr_fexp 53 1024 (2 ^ 53) k loc_Exact
  = ({| shr_m := 2 ^ 52; shr_r := false; shr_s := false |}, k + 1).
Proof.
  intro Hk. unfold shr_fexp, fexp, emin. change (Zdigits2 (2 ^ 53)) with 54.
  replace (Z.max (54 + k - 53) (3 - 1024 - 53) - k) with 1 by lia.
  reflexivity.
Qed.

Lemma mantissa_bounds (z k : Z) :
  0 < k -> Z.log2 z = 52 + k -> 0 < z ->
  2 ^ 52 <= mantissa z (2 ^ k) <= 2 ^ 53.
Proof.
  intros Hk Hlog Hz.
  destruct (Z.log2_spec z Hz) as [Hlo Hhi]. rewrite Hlog in Hlo, Hhi.
  assert (Hu : 0 < 2 ^ k) by (apply Z.pow_pos_nonneg; lia).
  replace (Z.succ (52 + k)) with (53 + k) in Hhi by lia.
  rewrite Z.pow_add_r in Hlo, Hhi by lia.
  assert (Hq1 : 2 ^ 52 <= z / 2 ^ k) by (apply Z.div_le_lower_bound; lia).
  assert (Hq2 : z / 2 ^ k < 2 ^ 53) by (apply Z.div_lt_upper_bound; lia).
  unfold mantissa.
  destruct (2 * (z mod 2 ^ k) <? 2 ^ k); [lia|].
  destruct (2 ^ k <? 2 * (z mod 2 ^ k)); [lia|].
  destruct (Z.even (z / 2 ^ k)); lia.
Qed.

(** From 2^53 on it shifts right by the logarithm of the spacing, rounds,
    and overflows to infinity above the exponent 971. *)
Lemma binary64_of_large (m : positive) :
  2 ^ 53 <= Z.pos m -> binary64_of (N.pos m) = to_number (N.pos m).
Proof.
  intro Hge.
  assert (HL : 53 <= Z.log2 (Z.pos m)).
  { change 53 with (Z.log2 (2 ^ 53)). apply Z.log2_le_mono. exact Hge. }
  destruct (Z.log2 (Z.pos m) - 52) as [|k|k] eqn:Ek; try lia.
  assert (Hlog : Z.log2 (Z.pos m) = 52 + Z.pos k) by lia.
  pose proof (@mantissa_bounds (Z.pos m) (Z.pos k) ltac:(lia) Hlog ltac:(lia)) as HQ.
  assert (Hu : 0 < 2 ^ Z.pos k) by (apply Z.pow_pos_nonneg; lia).
  (* the side of [to_number] *)
  unfold to_number. cbv zeta. cbn [Z.of_N].
  destruct (Z.ltb_spec (Z.pos m) (2 ^ 53)) as [Hlt|_]; [lia|].
  rewrite nearest_even_mantissa. unfold spacing. rewrite Ek.
  (* the side of the library *)
  unfold binary64_of. cbn [Z.of_N binary_normalize]. unfold binary_round.
  unfold shl_align, fexp, emin. rewrite digits2_pos_log2, Hlog.
  replace (Z.max (52 + Z.pos k + 1 + 0 - 53) (3 - 1024 - 53) - 0) with (Z.pos k) by lia.
  unfold binary_round_aux. unfold shr_fexp at 1. unfold fexp, emin.
  cbn [Zdigits2 shr_record_of_loc]. rewrite digits2_pos_log2, Hlog.
  replace (Z.max (52 + Z.pos k + 1 + 0 - 53) (3 - 1024 - 53) - 0) with (Z.pos k) by lia.
  cbn [shr]. rewrite shr_rounds by lia. rewrite Z.add_0_l.
  set (Q := mantissa (Z.pos m) (2 ^ Z.pos k)) in *.
  destruct (Z.eq_dec Q (2 ^ 53)) as [EQ|NQ].
  - rewrite EQ, shr_fexp_carry by lia. cbn [shr_m].
    change (2 ^ 52) with (Z.pos (2 ^ 52)) at 1.
    assert (Hv : 2 ^ 53 * 2 ^ Z.pos k = 2 ^ 52 * 2 ^ (Z.pos k + 1))
      by (rewrite (Z.pow_add_r 2 (Z.pos k) 1), Z.pow_1_r by lia; lia).
    destruct (Z.leb_spec (Z.pos k + 1) (1024 - 53)) as [Hk|Hk].
    + destruct (Z.ltb_spec (2 ^ 53 * 2 ^ Z.pos k) (2 ^ 1024)) as [_|Hv'].
      * f_equal. rewrite Z.shiftl_mul_pow2 by lia. symmetry. exact Hv.
      * exfalso. rewrite <- (Z.pow_add_r 2 53 (Z.pos k)) in Hv' by lia.
        apply Z.pow_le_mono_r_iff in Hv'; lia.
    + destruct (Z.ltb_spec (2 ^ 53 * 2 ^ Z.pos k) (2 ^ 1024)) as [Hv'|_]; [|reflexivity].
      exfalso. rewrite <- (Z.pow_add_r 2 53 (Z.pos k)) in Hv' by lia.
      apply Z.pow_lt_mono_r_iff in Hv'; lia.
  - destruct Q as [|Qp|Qp] eqn:EQ'; try lia.
    assert (HlogQ : Z.log2 (Z.pos Qp) = 52).
    { apply Z.log2_unique; [lia|]. change (Z.succ 52) with 53. lia. }
    rewrite (shr_fexp_canonical _ HlogQ) by lia. cbn [shr_m].
    destruct (Z.leb_spec (Z.pos k) (1024 - 53)) as [Hk|Hk].
    + destruct (Z.ltb_spec (Z.pos Qp * 2 ^ Z.pos k) (2 ^ 1024)) as [_|Hv'].
      * f_equal. rewrite Z.shiftl_mul_pow2 by lia. reflexivity.
      * exfalso.
        assert (2 ^ Z.pos k <= 2 ^ 971) by (apply Z.pow_le_mono_r; lia).
        assert (Z.pos Qp * 2 ^ Z.pos k < 2 ^ 53 * 2 ^ 971) by nia.
        change (2 ^ 53 * 2 ^ 971) with (2 ^ 1024) in *. lia.
    + destruct (Z.ltb_spec (Z.pos Qp * 2 ^ Z.pos k) (2 ^ 1024)) as [Hv'|_]; [|reflexivity].
      exfalso.
      assert (2 ^ 972 <= 2 ^ Z.pos k) by (apply Z.pow_le_mono_r; lia).
      assert (2 ^ 52 * 2 ^ 972 <= Z.pos Qp * 2 ^ Z.pos k) by nia.
      change (2 ^ 52 * 2 ^ 972) with (2 ^ 1024) in *. lia.
Qed.

(** [to_number] is the library's rounding of a natural number to
    binary64, for every natural number. *)
Lemma to_number_binary64 (n : N) : to_number n = binary64_of n.
Proof.
  destruct n as [|m]; [reflexivity|].
  destruct (Z.lt_ge_cases (Z.pos m) (2 ^ 53)) as [H|H].
  - rewrite (binary64_of_small H). apply (@to_number_exact (N.pos m)).
    change (2 ^ 53)%N with (Z.to_N (2 ^ 53)). lia.
  - symmetry. apply binary64_of_large. exact H.
Qed.

End Binary64.

(** [a <= b] on Numbers. *)
Definition number_le (a b : number) : Prop := number_compare a b <> Gt.

Lemma number_compare_antisym (a b : number) :
  number_compare b a = CompOpp (number_compare a b).
Proof.
  destruct a as [x|], b as [y|]; cbn [number_compare CompOpp]; try reflexivity.
  apply Z.compare_antisym.
Qed.

Lemma number_le_trans (a b c : number) : number_le a b -> number_le b c -> number_le a c.
Proof.
  unfold number_le.
  destruct a as [x|], b as [y|], c as [z|]; cbn [number_compare]; try congruence.
  intros H1 H2. apply Z.compare_le_iff. pose proof (proj1 (Z.compare_le_iff _ _) H1).
  pose proof (proj1 (Z.compare_le_iff _ _) H2). lia.
Qed.

Lemma number_eqb_eq (a b : number) : number_eqb a b = true <-> a = b.
Proof.
  unfold number_eqb. destruct a as [x|], b as [y|]; cbn [number_compare];
    try (split; [discriminate | congruence]); try (split; reflexivity).
  destruct (Z.compare_spec x y) as [E|E|E]; split; intro H; try discriminate;
    try (subst; reflexivity); injection H as H; lia.
Qed.

(** ** The URL identifier parsers *)

(** C6: the pull-request parser reads 482 from
    [https://github.com/Org/Repo/pull/482], the issue parser throws its
    invalid-URL error on that same URL, and the issue-or-pull-request parser
    reads 123 from a pull-request URL and from an issue URL alike. *)
Theorem url_identifier_examples :
  getPullRequestNumberFromURL (lit "https://github.com/Org/Repo/pull/482") = Ok 482%Z
  /\ getIssueNumberFromURL (lit "https://github.com/Org/Repo/pull/482")
     = Throw (Error (lit "Provided URL https://github.com/Org/Repo/pull/482 is not a Github Issue!"))
  /\ getIssueOrPullRequestNumberFromURL (lit "https://github.com/Org/Repo/pull/123") = Ok 123%Z
  /\ getIssueOrPullRequestNumberFromURL (lit "https://github.com/Org/Repo/issues/123") = Ok 123%Z.
Proof.
  repeat split; vm_compute; reflexivity.
Qed.

(** ** The version comparator *)

(** A forge client whose tag listing answers with [tags], whatever the
    repository asked for. *)
Definition octokit_listing (tags : list str) : Octokit :=
  {| listTags := fun _ _ => Resolved tags |}.

(** A forge client whose tag listing fails with [err]. *)
Definition octokit_failing (err : exn) : Octokit :=
  {| listTags := fun _ _ => Rejected err |}.

(** C9: at level PATCH with anchor 2.3.5 and the listing 2.3.4, 2.3.6,
    1.9.9, the comparator resolves with the comparison URL from 2.3.4 to
    2.3.5: 2.3.4 is the first listed tag below the anchor.  Listed after
    1.9.9 it would lose to it. *)
Theorem patch_level_selects_first_lower_tag :
  forall repoSlug : str,
    generateVersionComparisonURL
      (octokit_listing [lit "2.3.4"; lit "2.3.6"; lit "1.9.9"]) repoSlug (lit "2.3.5") (lit "PATCH")
    = Resolved (getComparisonURL (lit "2.3.4") (lit "2.3.5"))
    /\ getComparisonURL (lit "2.3.4") (lit "2.3.5")
       = lit "https://github.com/Expensify/Expensify.cash/compare/2.3.4...2.3.5"
    /\ generateVersionComparisonURL
         (octokit_listing [lit "1.9.9"; lit "2.3.4"; lit "2.3.6"]) repoSlug (lit "2.3.5") (lit "PATCH")
       = Resolved (getComparisonURL (lit "1.9.9") (lit "2.3.5")).
Proof.
  intro repoSlug. unfold generateVersionComparisonURL, octokit_listing. cbn [listTags].
  repeat split; vm_compute; reflexivity.
Qed.

(** The comparator scans the listing to its end when no tag matches. *)
Lemma scan_tags_no_match (semverLevel : str) (tagSemver : option Semver.SemVer) (data : list str) :
  (forall repoTag, In repoTag data -> tag_matches semverLevel tagSemver repoTag = Ok false) ->
  scan_tags semverLevel tagSemver data = Pending.
Proof.
  induction data as [|repoTag data IH]; intro H; cbn [scan_tags].
  - reflexivity.
  - rewrite (H repoTag (or_introl eq_refl)). apply IH.
    intros t Ht. apply H. right. exact Ht.
Qed.

(** The first tag of the listing that matches wins, whatever follows it. *)
Lemma scan_tags_first_match (semverLevel : str) (tagSemver : option Semver.SemVer)
  (skipped : list str) (repoTag : str) (later : list str) :
  (forall t, In t skipped -> tag_matches semverLevel tagSemver t = Ok false) ->
  tag_matches semverLevel tagSemver repoTag = Ok true ->
  scan_tags semverLevel tagSemver (skipped ++ repoTag :: later)
  = Resolved (getComparisonURL repoTag (tagSemver_to_string tagSemver)).
Proof.
  intros Hskip Hmatch. induction skipped as [|t skipped IH]; cbn [app scan_tags].
  - rewrite Hmatch. reflexivity.
  - rewrite (Hskip t (or_introl eq_refl)). apply IH.
    intros t' Ht'. apply Hskip. right. exact Ht'.
Qed.

(** C3: when the listing arrives and no tag of it satisfies the level's
    condition, the promise of the comparator stays pending: the code calls
    neither [resolve] nor [reject], so no error of any kind comes out. *)
Theorem no_matching_tag_leaves_promise_pending
  (octokit : Octokit) (repoSlug tag semverLevel : str) (data : list str) :
  listTags octokit (index (split_on "/" repoSlug) 0) (index (split_on "/" repoSlug) 1)
  = Resolved data ->
  (forall repoTag, In repoTag data ->
     tag_matches semverLevel (Semver.parse tag) repoTag = Ok false) ->
  generateVersionComparisonURL octokit repoSlug tag semverLevel = Pending.
Proof.
  intros Hlist Hnone. unfold generateVersionComparisonURL.
  rewrite Hlist. apply scan_tags_no_match. exact Hnone.
Qed.

(** The failing input of C3: anchor 1.0.0 at level MAJOR against a listing
    that holds 1.0.0 only. *)
Lemma no_matching_tag_leaves_promise_pending_witness :
  generateVersionComparisonURL (octokit_listing [lit "1.0.0"])
    (lit "Expensify/Expensify.cash") (lit "1.0.0") (lit "MAJOR") = Pending.
Proof.
  apply (@no_matching_tag_leaves_promise_pending _ _ _ _ [lit "1.0.0"]).
  - reflexivity.
  - intros repoTag [<-|[]]. vm_compute. reflexivity.
Defined.

(** ** The encoder and a failing comparator *)

(** C8: when the comparator rejects, the encoder does not reject: its
    promise resolves with [undefined] and the one console output is the
    warning with the comparator's error. *)
Theorem comparator_rejection_is_swallowed
  (octokit : Octokit) (tag : str)
  (PRList verifiedPRList deployBlockers resolvedDeployBlockers : list str) (err : exn) :
  generateVersionComparisonURL octokit (GITHUB_OWNER ++ lit "/" ++ EXPENSIFY_CASH_REPO) tag
    (lit "BUILD") = Rejected err ->
  generateStagingDeployCashBody octokit tag PRList verifiedPRList deployBlockers
    resolvedDeployBlockers
  = (Resolved VUndefined, [Warn comparison_warning err]).
Proof.
  intro H. unfold generateStagingDeployCashBody. rewrite H. reflexivity.
Qed.

(** Whatever its arguments, the encoder's promise is never rejected. *)
Lemma encoder_never_rejects
  (octokit : Octokit) (tag : str)
  (PRList verifiedPRList deployBlockers resolvedDeployBlockers : list str) (err : exn) :
  fst (generateStagingDeployCashBody octokit tag PRList verifiedPRList deployBlockers
         resolvedDeployBlockers) <> Rejected err.
Proof.
  unfold generateStagingDeployCashBody.
  destruct (generateVersionComparisonURL octokit _ tag _) as [|comparisonURL|e];
    cbn [fst]; try discriminate.
  destruct (render_body tag comparisonURL PRList verifiedPRList deployBlockers
              resolvedDeployBlockers); cbn [fst]; discriminate.
Qed.

Lemma comparator_rejection_is_swallowed_witness :
  generateStagingDeployCashBody (octokit_failing (HttpError (lit "503"))) (lit "1.0.1-1")
    [lit "https://github.com/Expensify/Expensify.cash/pull/1"] [] [] []
  = (Resolved VUndefined, [Warn comparison_warning (HttpError (lit "503"))]).
Proof.
  apply comparator_rejection_is_swallowed. reflexivity.
Defined.

(** ** The decoder: one error or a whole record *)

Definition throws {A} (x : result A) : Prop := exists e, x = Throw e.

Lemma bind_ok {A B} (x : result A) (f : A -> result B) (b : B) :
  bind x f = Ok b -> exists a, x = Ok a /\ f a = Ok b.
Proof.
  destruct x as [a|e]; cbn; intro H; [exists a; auto | discriminate].
Qed.

Lemma Ok_inj {A} (a b : A) : Ok a = Ok b -> a = b.
Proof.
  intro H. injection H as H. exact H.
Qed.

Lemma result_cases {A} (x : result A) : (exists a, x = Ok a) \/ throws x.
Proof.
  destruct x as [a|e]; [left; exists a | right; exists e]; reflexivity.
Qed.

(** A body without a version-shaped text has no tag. *)
Lemma extract_tag_needs_version (body : str) :
  String_match_g versionRegex body = None -> throws (extract_tag body).
Proof.
  intro H. unfold extract_tag. rewrite H. exists TypeError. reflexivity.
Qed.

(** A body the deploy-blocker pattern does not match has no deploy-blocker
    list. *)
Lemma extract_deployBlockers_needs_section (body : str) :
  String_match deployBlockerSectionRegex body = None -> throws (extract_deployBlockers body).
Proof.
  intro H. unfold extract_deployBlockers, first_group. rewrite H. exists TypeError. reflexivity.
Qed.

(** A throw of any step, or a [null] body, ends in the one error. *)
Lemma decode_failure (issue : Issue) :
  (issue_body issue = None
   \/ exists body, issue_body issue = Some body
        /\ (throws (extract_tag body) \/ throws (extract_comparisonURL body)
            \/ throws (extract_PRList body) \/ throws (extract_deployBlockers body))) ->
  getStagingDeployCashData issue = Throw MalformedChecklist.
Proof.
  unfold getStagingDeployCashData.
  intros [Hnull | (body & Hbody & Hstep)].
  - rewrite Hnull. reflexivity.
  - rewrite Hbody. cbn [of_nullable bind].
    destruct (extract_tag body) as [t|e1]; [|reflexivity].
    destruct (extract_comparisonURL body) as [u|e2]; [|reflexivity].
    destruct (extract_PRList body) as [prs|e3]; [|reflexivity].
    destruct (extract_deployBlockers body) as [dbs|e4]; [|reflexivity].
    destruct Hstep as [[e H]|[[e H]|[[e H]|[e H]]]]; discriminate H.
Qed.

(** C7: the decoder either returns the whole record, every field of it
    taken from the issue or from one of the four extraction steps, all of
    which succeeded, or it throws the one malformed-checklist error, and then
    the body was [null] or a step threw; and a throw of any step ends in that
    error. *)
Theorem decode_is_all_or_nothing (issue : Issue) :
  ((exists body d,
       issue_body issue = Some body
       /\ getStagingDeployCashData issue = Ok d
       /\ title d = issue_title issue /\ url d = issue_url issue
       /\ labels d = issue_labels issue
       /\ extract_tag body = Ok (tag d)
       /\ extract_comparisonURL body = Ok (comparisonURL d)
       /\ extract_PRList body = Ok (PRList d)
       /\ extract_deployBlockers body = Ok (deployBlockers d))
   \/ (getStagingDeployCashData issue = Throw MalformedChecklist
       /\ (issue_body issue = None
           \/ exists body, issue_body issue = Some body
                /\ (throws (extract_tag body) \/ throws (extract_comparisonURL body)
                    \/ throws (extract_PRList body) \/ throws (extract_deployBlockers body)))))
  /\ (forall body, issue_body issue = Some body ->
        throws (extract_tag body) \/ throws (extract_comparisonURL body)
        \/ throws (extract_PRList body) \/ throws (extract_deployBlockers body) ->
        getStagingDeployCashData issue = Throw MalformedChecklist).
Proof.
  split.
  - destruct (issue_body issue) as [body|] eqn:Hbody.
    + assert (Hfail : forall P : Prop,
                 throws (extract_tag body) \/ throws (extract_comparisonURL body)
                 \/ throws (extract_PRList body) \/ throws (extract_deployBlockers body) ->
                 P \/ (getStagingDeployCashData issue = Throw MalformedChecklist
                       /\ (Some body = None
                           \/ exists body0, Some body = Some body0
                                /\ (throws (extract_tag body0)
                                    \/ throws (extract_comparisonURL body0)
                                    \/ throws (extract_PRList body0)
                                    \/ throws (extract_deployBlockers body0))))).
      { intros P Hstep. right. split.
        - apply decode_failure. right. exists body. split; assumption.
        - right. exists body. split; [reflexivity | assumption]. }
      destruct (result_cases (extract_tag body)) as [[t Ht]|Ht]; [|apply Hfail; tauto].
      destruct (result_cases (extract_comparisonURL body)) as [[u Hu]|Hu];
        [|apply Hfail; tauto].
      destruct (result_cases (extract_PRList body)) as [[prs Hp]|Hp]; [|apply Hfail; tauto].
      destruct (result_cases (extract_deployBlockers body)) as [[dbs Hd]|Hd];
        [|apply Hfail; tauto].
      left. exists body. eexists. split; [reflexivity|].
      unfold getStagingDeployCashData. rewrite Hbody. cbn [of_nullable bind].
      rewrite Ht, Hu, Hp, Hd. cbn.
      repeat split.
    + right. split; [apply decode_failure|]; left; [assumption | reflexivity].
  - intros body Hbody Hstep. apply decode_failure. right. exists body. auto.
Qed.

(** ** The deploy-blocker section in the decoder *)

Definition issue_with_body (body : str) : Issue :=
  {| issue_title := lit "Deploy Checklist"; issue_url := lit "https://api.github.com/issues/1";
     issue_labels := [STAGING_DEPLOY_CASH_LABEL]; issue_body := Some body |}.

(** A checklist body with a tag, a comparison URL and a pull-request
    section closed by a blank line, and no deploy-blocker section. *)
Definition body_without_deploy_blockers : str :=
  lit "**Release Version:** 1.0.1-472" ++ CRLF
  ++ lit "**Compare Changes:** https://github.com/Expensify/Expensify.cash/compare/1.0.1-400...1.0.1-472"
  ++ CRLF
  ++ lit "**This release contains changes from the following pull requests:**" ++ CRLF
  ++ lit "- [ ] https://github.com/Expensify/Expensify.cash/pull/21" ++ CRLF
  ++ lit "- [x] https://github.com/Expensify/Expensify.cash/pull/22" ++ CRLF
  ++ CRLF.

(** C2, on the code: the tag, the comparison URL and the pull-request list
    of [body_without_deploy_blockers] are all extracted, yet the decoder
    throws the malformed-checklist error, because the deploy-blocker step
    reads group 1 of a match that is [null]; so does it for every body the
    deploy-blocker pattern does not match, and for every body without a
    version-shaped text. *)
Theorem decode_without_deploy_blockers_throws :
  extract_tag body_without_deploy_blockers = Ok (lit "1.0.1-472")
  /\ extract_comparisonURL body_without_deploy_blockers
     = Ok (lit "https://github.com/Expensify/Expensify.cash/compare/1.0.1-400...1.0.1-472")
  /\ extract_PRList body_without_deploy_blockers
     = Ok [Some (lit "https://github.com/Expensify/Expensify.cash/pull/21");
           Some (lit "https://github.com/Expensify/Expensify.cash/pull/22")]
  /\ getStagingDeployCashData (issue_with_body body_without_deploy_blockers)
     = Throw MalformedChecklist
  /\ (forall issue body,
        issue_body issue = Some body ->
        String_match deployBlockerSectionRegex body = None ->
        getStagingDeployCashData issue = Throw MalformedChecklist)
  /\ (forall issue body,
        issue_body issue = Some body ->
        String_match_g versionRegex body = None ->
        getStagingDeployCashData issue = Throw MalformedChecklist).
Proof.
  split; [vm_compute; reflexivity|].
  split; [vm_compute; reflexivity|].
  split; [vm_compute; reflexivity|].
  split; [vm_compute; reflexivity|].
  split; intros issue body Hbody Hnone; apply decode_failure; right; exists body;
    (split; [exact Hbody|]).
  - do 3 right. apply extract_deployBlockers_needs_section. exact Hnone.
  - left. apply extract_tag_needs_version. exact Hnone.
Qed.

(** ** The MINOR level of the comparator *)

Section MinorLevel.
Import Semver.

(** At level MINOR the callback is the MINOR condition. *)
Lemma tag_matches_minor (tagSemver : option SemVer) (repoTag : str) :
  tag_matches (lit "MINOR") tagSemver repoTag = minor_condition tagSemver repoTag.
Proof.
  unfold tag_matches, at_level.
  change (str_eqb (lit "MINOR") (lit "MAJOR")) with false.
  change (str_eqb (lit "MINOR") (lit "MINOR")) with true.
  change (str_eqb (lit "MINOR") (lit "PATCH")) with false.
  change (str_eqb (lit "MINOR") (lit "BUILD")) with false.
  cbn [bind].
  destruct (minor_condition tagSemver repoTag) as [[|]|e]; reflexivity.
Qed.

(** No prerelease is below the lowest prerelease [0]. *)
Lemma not_below_prerelease_zero (x : identifier) (ids : list identifier) :
  compare_identifier_lists (x :: ids) [INum 0] <> Lt.
Proof.
  destruct x as [n|s]; cbn [compare_identifier_lists compareIdentifiers]; intro H.
  - pose proof (to_number_nonneg n) as H0.
    destruct (number_compare (to_number n) (to_number 0));
      [destruct ids; discriminate H | congruence | discriminate H].
  - discriminate H.
Qed.

(** Below [M.m.0-0] in the precedence order means a lower major, or the
    same major and a lower minor. *)
Lemma below_minor_floor (c : SemVer) (M m : N) :
  compare c (plain M m 0 [INum 0]) = Lt ->
  (major c < M \/ (major c = M /\ minor c < m))%N.
Proof.
  unfold compare, compareMain, comparePre. cbn [major minor patch prerelease plain].
  intro H.
  destruct (N.compare_spec (major c) M) as [HM|HM|HM]; cbn [or_else] in H;
    [|left; exact HM|discriminate H].
  destruct (N.compare_spec (minor c) m) as [Hm|Hm|Hm]; cbn [or_else] in H;
    [|right; split; assumption|discriminate H].
  destruct (N.compare_spec (patch c) 0) as [Hp|Hp|Hp]; cbn [or_else] in H;
    [|lia|discriminate H].
  destruct (prerelease c) as [|x ids] eqn:Hpre; [discriminate H|].
  exfalso. exact (not_below_prerelease_zero x ids H).
Qed.

Lemma above_minor_floor (c : SemVer) (M m : N) :
  (major c < M \/ (major c = M /\ minor c < m))%N ->
  compare c (plain M m 0 [INum 0]) = Lt.
Proof.
  unfold compare, compareMain. cbn [major minor patch plain].
  intros [H|[H1 H2]].
  - apply N.compare_lt_iff in H. rewrite H. reflexivity.
  - subst M. rewrite N.compare_refl. apply N.compare_lt_iff in H2. rewrite H2. reflexivity.
Qed.

(** C1, as the code has it: a tag the callback accepts at level MINOR
    parses as a version whose major is lower than the anchor's, or equal
    to it with a lower minor. *)
Theorem minor_level_accepts_lower_major_or_minor
  (tagSemver : option SemVer) (repoTag : str) :
  tag_matches (lit "MINOR") tagSemver repoTag = Ok true ->
  exists anchor candidate,
    tagSemver = Some anchor
    /\ SemVer_new repoTag = Some candidate
    /\ (major candidate < major anchor
        \/ (major candidate = major anchor /\ minor candidate < minor anchor))%N.
Proof.
  rewrite tag_matches_minor. unfold minor_condition.
  destruct tagSemver as [anchor|]; cbn [of_nullable bind]; [|discriminate].
  unfold satisfies. destruct (SemVer_new repoTag) as [candidate|]; [|discriminate].
  cbn [operator_of semver range_lt_major_minor_x]. unfold cmp.
  destruct (compare candidate (plain (major anchor) (minor anchor) 0 [INum 0])) eqn:Hcmp;
    try discriminate.
  intros _. exists anchor, candidate. repeat split.
  apply below_minor_floor. exact Hcmp.
Qed.

(** The converse: every tag that parses to such a version is accepted. *)
Lemma minor_level_accepts_all_lower (anchor candidate : SemVer) (repoTag : str) :
  SemVer_new repoTag = Some candidate ->
  (major candidate < major anchor
   \/ (major candidate = major anchor /\ minor candidate < minor anchor))%N ->
  tag_matches (lit "MINOR") (Some anchor) repoTag = Ok true.
Proof.
  intros Hnew Hlow. rewrite tag_matches_minor. unfold minor_condition.
  cbn [of_nullable bind]. unfold satisfies. rewrite Hnew.
  cbn [operator_of semver range_lt_major_minor_x]. unfold cmp.
  rewrite (above_minor_floor _ Hlow). reflexivity.
Qed.

Lemma minor_level_accepts_lower_major_or_minor_witness :
  exists anchor candidate,
    parse (lit "2.3.0") = Some anchor
    /\ SemVer_new (lit "2.2.7") = Some candidate
    /\ (major candidate < major anchor
        \/ (major candidate = major anchor /\ minor candidate < minor anchor))%N.
Proof.
  apply (@minor_level_accepts_lower_major_or_minor (parse (lit "2.3.0")) (lit "2.2.7")).
  vm_compute. reflexivity.
Defined.

(** C1 as stated fails: with anchor 2.3.0 the tag 1.9.0 is accepted at
    level MINOR, and the comparator resolves with it, though its major is
    not the anchor's and its minor is not lower. *)
Lemma minor_level_accepts_other_major :
  exists anchor candidate,
    parse (lit "2.3.0") = Some anchor
    /\ SemVer_new (lit "1.9.0") = Some candidate
    /\ tag_matches (lit "MINOR") (Some anchor) (lit "1.9.0") = Ok true
    /\ generateVersionComparisonURL (octokit_listing [lit "1.9.0"])
         (lit "Expensify/Expensify.cash") (lit "2.3.0") (lit "MINOR")
       = Resolved (getComparisonURL (lit "1.9.0") (lit "2.3.0"))
    /\ ~ (major candidate = major anchor /\ (minor candidate < minor anchor)%N).
Proof.
  eexists. eexists.
  split; [vm_compute; reflexivity|].
  split; [vm_compute; reflexivity|].
  split; [vm_compute; reflexivity|].
  split; [vm_compute; reflexivity|].
  cbn. intros [H _]. discriminate H.
Qed.

End MinorLevel.

(** ** The rendered lists: no repeats, ascending numbers *)

Section SortBy.
Import Underscore.
Variable A : Type.

Definition criteria_le (a b : wrapped A) : Prop := number_le (criteria a) (criteria b).

Lemma before_le (x y : wrapped A) : before_ x y = true -> criteria_le x y.
Proof.
  unfold before_, criteria_le, number_le, number_eqb, number_ltb.
  destruct (number_compare (criteria x) (criteria y)); intro H;
    [discriminate | discriminate | discriminate H].
Qed.

Lemma not_before_le (x y : wrapped A) : before_ x y = false -> criteria_le y x.
Proof.
  unfold before_, criteria_le, number_le, number_eqb, number_ltb.
  rewrite (number_compare_antisym (criteria x) (criteria y)).
  destruct (number_compare (criteria x) (criteria y)); cbn [CompOpp]; intro H;
    [discriminate | discriminate H | discriminate].
Qed.

Lemma insert_perm (x : wrapped A) (l : list (wrapped A)) :
  Permutation (insert x l) (x :: l).
Proof.
  induction l as [|y l IH]; cbn [insert].
  - apply Permutation_refl.
  - destruct (before_ x y); [apply Permutation_refl|].
    apply perm_trans with (y :: x :: l); [apply perm_skip; exact IH | apply perm_swap].
Qed.

Lemma insert_sorted (x : wrapped A) (l : list (wrapped A)) :
  StronglySorted criteria_le l -> StronglySorted criteria_le (insert x l).
Proof.
  induction 1 as [|y l Hl IH Hy]; cbn [insert].
  - constructor; constructor.
  - destruct (before_ x y) eqn:Hxy.
    + constructor; [constructor; assumption|].
      apply before_le in Hxy. constructor; [exact Hxy|].
      eapply Forall_impl; [|exact Hy]. unfold criteria_le in *. intros z Hz.
      exact (number_le_trans Hxy Hz).
    + constructor; [exact IH|].
      apply (Permutation_Forall (Permutation_sym (insert_perm x l))).
      constructor; [apply not_before_le; exact Hxy | exact Hy].
Qed.

Lemma sort_perm (l : list (wrapped A)) : Permutation (sort l) l.
Proof.
  induction l as [|x l IH]; cbn [sort fold_right].
  - apply Permutation_refl.
  - apply perm_trans with (x :: fold_right insert [] l);
      [apply insert_perm | apply perm_skip; exact IH].
Qed.

Lemma sort_sorted (l : list (wrapped A)) : StronglySorted criteria_le (sort l).
Proof.
  induction l as [|x l IH]; cbn [sort fold_right].
  - constructor.
  - apply insert_sorted. exact IH.
Qed.

Variable iteratee : A -> result number.

(** Ascending by the iteratee: of two entries, the earlier has the lower
    or the same number. *)
Definition ascending_by : list A -> Prop :=
  StronglySorted
    (fun a b => exists x y, iteratee a = Ok x /\ iteratee b = Ok y /\ number_le x y).

Definition well_wrapped (w : wrapped A) : Prop := iteratee (value w) = Ok (criteria w).

Lemma wrap_spec (l : list A) :
  forall i ws, wrap iteratee i l = Ok ws -> map (@value A) ws = l /\ Forall well_wrapped ws.
Proof.
  induction l as [|v l IH]; intros i ws; cbn [wrap].
  - intro H. injection H as <-. split; constructor.
  - intro H. apply bind_ok in H. destruct H as (c & Hc & H).
    apply bind_ok in H. destruct H as (rest & Hrest & H). injection H as <-.
    destruct (IH _ _ Hrest) as [Hmap Hall]. cbn [map value]. split.
    + rewrite Hmap. reflexivity.
    + constructor; [exact Hc | exact Hall].
Qed.

Lemma values_ascending (ws : list (wrapped A)) :
  StronglySorted criteria_le ws -> Forall well_wrapped ws ->
  ascending_by (map (@value A) ws).
Proof.
  induction 1 as [|w ws Hws IH Hw]; intro Hall; cbn [map].
  - constructor.
  - inversion Hall as [|w' ws' Hw1 Hw2]; subst. constructor; [apply IH; exact Hw2|].
    apply Forall_map. rewrite Forall_forall in *. intros z Hz.
    exists (criteria w), (criteria z). repeat split;
      [exact Hw1 | apply Hw2; exact Hz | apply Hw; exact Hz].
Qed.

(** What [sortBy] returns holds the values it was given, in ascending
    order of the iteratee. *)
Lemma sortBy_spec (l r : list A) :
  sortBy l iteratee = Ok r -> Permutation r l /\ ascending_by r.
Proof.
  unfold sortBy. intro H. apply bind_ok in H. destruct H as (ws & Hws & H).
  injection H as <-. destruct (wrap_spec _ _ Hws) as [Hmap Hall]. split.
  - rewrite <- Hmap. apply Permutation_map. apply sort_perm.
  - apply values_ascending; [apply sort_sorted|].
    apply (Permutation_Forall (Permutation_sym (sort_perm ws))). exact Hall.
Qed.

End SortBy.

Section Unique.
Import Underscore.

Lemma str_eqb_eq (a b : str) : str_eqb a b = true <-> a = b.
Proof.
  unfold str_eqb. destruct (list_eq_dec ascii_dec a b); split; intro H;
    (reflexivity || assumption || discriminate || contradiction).
Qed.

Lemma contains_In (l : list str) (x : str) : contains l x = true <-> In x l.
Proof.
  unfold contains. rewrite existsb_exists. split.
  - intros (y & Hy & E). apply str_eqb_eq in E. subst y. exact Hy.
  - intro H. exists x. split; [exact H | apply str_eqb_eq; reflexivity].
Qed.

Definition push_new (result : list str) (value : str) : list str :=
  if contains result value then result else result ++ [value].

Lemma push_all_spec (l : list str) :
  forall acc, NoDup acc ->
    NoDup (fold_left push_new l acc)
    /\ forall x, In x (fold_left push_new l acc) <-> In x acc \/ In x l.
Proof.
  induction l as [|v l IH]; intros acc Hacc; cbn [fold_left].
  - split; [exact Hacc|]. intro x. cbn. tauto.
  - unfold push_new at 2 4. destruct (contains acc v) eqn:Hv.
    + destruct (IH acc Hacc) as [Hnd Hin]. split; [exact Hnd|].
      intro x. rewrite Hin. cbn [In]. apply contains_In in Hv.
      split; [tauto|]. intros [H|[<-|H]]; tauto.
    + assert (Hnew : NoDup (acc ++ [v])).
      { apply NoDup_app; [exact Hacc | repeat constructor; intros [] |].
        intros x Hx [<-|[]]. apply contains_In in Hx. congruence. }
      destruct (IH _ Hnew) as [Hnd Hin]. split; [exact Hnd|].
      intro x. rewrite Hin, in_app_iff. cbn [In]. tauto.
Qed.

(** [unique] keeps every value once. *)
Lemma unique_spec (l : list str) :
  NoDup (unique l) /\ forall x, In x (unique l) <-> In x l.
Proof.
  destruct (push_all_spec l (@NoDup_nil str)) as [Hnd Hin]. split; [exact Hnd|].
  intro x. unfold unique. fold push_new. rewrite Hin. cbn [In]. tauto.
Qed.

End Unique.

Section RenderedLists.
Import Underscore.

(** One rendered line: the box, checked when the URL is in [checked], a
    space, the URL and the line end. *)
Definition checklist_line (checked : list str) (URL : str) : str :=
  (if contains checked URL then lit "- [x]" else lit "- [ ]") ++ lit " " ++ URL ++ CRLF.

Definition checklist_lines (checked URLs : list str) : str :=
  concat (map (checklist_line checked) URLs).

Lemma each_append_line (checked URLs : list str) :
  forall issueBody,
    fold_left (append_line checked) URLs issueBody
    = issueBody ++ checklist_lines checked URLs.
Proof.
  unfold checklist_lines.
  induction URLs as [|URL URLs IH]; intro issueBody; cbn [fold_left map concat].
  - rewrite app_nil_r. reflexivity.
  - rewrite IH. unfold append_line, checklist_line. rewrite <- !app_assoc. reflexivity.
Qed.

(** The text of the two sections for the lists as rendered. *)
Definition PR_section (PRList verifiedPRList sortedPRList : list str) : str :=
  if isEmpty PRList then []
  else lit "**This release contains changes from the following pull requests:**" ++ CRLF
       ++ checklist_lines verifiedPRList sortedPRList.

Definition deploy_blocker_section
  (deployBlockers resolvedDeployBlockers sortedDeployBlockers : list str) : str :=
  if isEmpty deployBlockers then []
  else CRLF ++ lit "**Deploy Blockers:**" ++ CRLF
       ++ checklist_lines resolvedDeployBlockers sortedDeployBlockers.

Lemma render_body_spec (tag comparisonURL : str)
  (PRList verifiedPRList deployBlockers resolvedDeployBlockers : list str) (issueBody : str) :
  render_body tag comparisonURL PRList verifiedPRList deployBlockers resolvedDeployBlockers
  = Ok issueBody ->
  exists sortedPRList sortedDeployBlockers,
    sortBy (unique PRList) getPullRequestNumberFromURL = Ok sortedPRList
    /\ sortBy (unique deployBlockers) getIssueOrPullRequestNumberFromURL
       = Ok sortedDeployBlockers
    /\ issueBody
       = lit "**Release Version:** " ++ tag ++ CRLF
         ++ lit "**Compare Changes:** " ++ comparisonURL ++ CRLF
         ++ PR_section PRList verifiedPRList sortedPRList
         ++ deploy_blocker_section deployBlockers resolvedDeployBlockers sortedDeployBlockers.
Proof.
  unfold render_body. intro H.
  apply bind_ok in H. destruct H as (sortedPRList & H1 & H).
  apply bind_ok in H. destruct H as (sortedDeployBlockers & H2 & H).
  exists sortedPRList, sortedDeployBlockers. split; [exact H1|]. split; [exact H2|].
  apply Ok_inj in H. subst issueBody. cbv zeta. unfold PR_section, deploy_blocker_section.
  destruct (isEmpty PRList); destruct (isEmpty deployBlockers); cbn [negb];
    rewrite ?each_append_line, ?app_nil_r, <- ?app_assoc; reflexivity.
Qed.

(** C5, as the code has it: whenever the encoder resolves with a body,
    that body is the two header lines followed by the sections of two lists
    of URLs; each list has no repeats, holds the URLs of the input list and
    no other, and is in ascending order of the Number that the pull-request
    parser, respectively the issue-or-pull-request parser, returns for its
    URLs.  That Number is a double: it is the number in the URL when that
    is below 2^53. *)
Theorem rendered_lists_are_unique_and_ascending
  (octokit : Octokit) (tag : str)
  (PRList verifiedPRList deployBlockers resolvedDeployBlockers : list str) (issueBody : str) :
  fst (generateStagingDeployCashBody octokit tag PRList verifiedPRList deployBlockers
         resolvedDeployBlockers) = Resolved (VString issueBody) ->
  exists comparisonURL sortedPRList sortedDeployBlockers,
    issueBody
    = lit "**Release Version:** " ++ tag ++ CRLF
      ++ lit "**Compare Changes:** " ++ comparisonURL ++ CRLF
      ++ PR_section PRList verifiedPRList sortedPRList
      ++ deploy_blocker_section deployBlockers resolvedDeployBlockers sortedDeployBlockers
    /\ NoDup sortedPRList
    /\ NoDup sortedDeployBlockers
    /\ (forall URL, In URL sortedPRList <-> In URL PRList)
    /\ (forall URL, In URL sortedDeployBlockers <-> In URL deployBlockers)
    /\ ascending_by getPullRequestNumberFromURL sortedPRList
    /\ ascending_by getIssueOrPullRequestNumberFromURL sortedDeployBlockers.
Proof.
  unfold generateStagingDeployCashBody.
  destruct (generateVersionComparisonURL octokit _ tag _) as [|comparisonURL|err];
    cbn [fst]; try discriminate.
  destruct (render_body tag comparisonURL PRList verifiedPRList deployBlockers
              resolvedDeployBlockers) as [body|err] eqn:Hbody; cbn [fst]; try discriminate.
  intro H. injection H as ->.
  destruct (@render_body_spec _ _ _ _ _ _ _ Hbody) as (l1 & l2 & H1 & H2 & Htext).
  destruct (@sortBy_spec _ _ _ _ H1) as [P1 S1].
  destruct (@sortBy_spec _ _ _ _ H2) as [P2 S2].
  destruct (unique_spec PRList) as [N1 I1]. destruct (unique_spec deployBlockers) as [N2 I2].
  exists comparisonURL, l1, l2. split; [exact Htext|].
  split; [exact (Permutation_NoDup (Permutation_sym P1) N1)|].
  split; [exact (Permutation_NoDup (Permutation_sym P2) N2)|].
  split; [intro URL; rewrite <- I1; split; apply Permutation_in;
          [exact P1 | exact (Permutation_sym P1)]|].
  split; [intro URL; rewrite <- I2; split; apply Permutation_in;
          [exact P2 | exact (Permutation_sym P2)]|].
  split; assumption.
Qed.

Lemma rendered_lists_are_unique_and_ascending_witness :
  exists comparisonURL sortedPRList sortedDeployBlockers,
    lit "**Release Version:** 1.0.1-1" ++ CRLF
    ++ lit "**Compare Changes:** https://github.com/Expensify/Expensify.cash/compare/1.0.1-0...1.0.1-1"
    ++ CRLF
    ++ lit "**This release contains changes from the following pull requests:**" ++ CRLF
    ++ lit "- [x] https://github.com/Expensify/Expensify.cash/pull/3" ++ CRLF
    ++ lit "- [ ] https://github.com/Expensify/Expensify.cash/pull/22" ++ CRLF
    ++ CRLF ++ lit "**Deploy Blockers:**" ++ CRLF
    ++ lit "- [ ] https://github.com/Expensify/Expensify.cash/pull/5" ++ CRLF
    ++ lit "- [ ] https://github.com/Expensify/Expensify.cash/issues/7" ++ CRLF
    = lit "**Release Version:** " ++ lit "1.0.1-1" ++ CRLF
      ++ lit "**Compare Changes:** " ++ comparisonURL ++ CRLF
      ++ PR_section
           [lit "https://github.com/Expensify/Expensify.cash/pull/22";
            lit "https://github.com/Expensify/Expensify.cash/pull/3";
            lit "https://github.com/Expensify/Expensify.cash/pull/22"]
           [lit "https://github.com/Expensify/Expensify.cash/pull/3"] sortedPRList
      ++ deploy_blocker_section
           [lit "https://github.com/Expensify/Expensify.cash/issues/7";
            lit "https://github.com/Expensify/Expensify.cash/pull/5"] [] sortedDeployBlockers
    /\ NoDup sortedPRList
    /\ NoDup sortedDeployBlockers
    /\ (forall URL, In URL sortedPRList
                    <-> In URL [lit "https://github.com/Expensify/Expensify.cash/pull/22";
                                lit "https://github.com/Expensify/Expensify.cash/pull/3";
                                lit "https://github.com/Expensify/Expensify.cash/pull/22"])
    /\ (forall URL, In URL sortedDeployBlockers
                    <-> In URL [lit "https://github.com/Expensify/Expensify.cash/issues/7";
                                lit "https://github.com/Expensify/Expensify.cash/pull/5"])
    /\ ascending_by getPullRequestNumberFromURL sortedPRList
    /\ ascending_by getIssueOrPullRequestNumberFromURL sortedDeployBlockers.
Proof.
  apply (@rendered_lists_are_unique_and_ascending
           (octokit_listing [lit "1.0.1-1"; lit "1.0.1-0"])).
  vm_compute. reflexivity.
Defined.

(** C5, as it was claimed: the lines are not always in ascending order of
    the numbers in the URLs.  The pull requests 9007199254740993 and
    9007199254740992, given in this order, are both read as
    9007199254740992 and keep their order: the higher number comes first. *)
Lemma rendered_order_above_2_53_follows_input :
  generateStagingDeployCashBody (octokit_listing [lit "1.0.1-1"; lit "1.0.1-0"])
    (lit "1.0.1-1")
    [lit "https://github.com/Expensify/Expensify.cash/pull/9007199254740993";
     lit "https://github.com/Expensify/Expensify.cash/pull/9007199254740992"] [] [] []
  = (Resolved
       (VString
          (lit "**Release Version:** 1.0.1-1" ++ CRLF
           ++ lit "**Compare Changes:** https://github.com/Expensify/Expensify.cash/compare/1.0.1-0...1.0.1-1"
           ++ CRLF
           ++ lit "**This release contains changes from the following pull requests:**" ++ CRLF
           ++ lit "- [ ] https://github.com/Expensify/Expensify.cash/pull/9007199254740993"
           ++ CRLF
           ++ lit "- [ ] https://github.com/Expensify/Expensify.cash/pull/9007199254740992"
           ++ CRLF)), [])
  /\ getPullRequestNumberFromURL
       (lit "https://github.com/Expensify/Expensify.cash/pull/9007199254740993")
     = Ok 9007199254740992%Z
  /\ getPullRequestNumberFromURL
       (lit "https://github.com/Expensify/Expensify.cash/pull/9007199254740992")
     = Ok 9007199254740992%Z
  /\ (digits_value (lit "9007199254740992") < digits_value (lit "9007199254740993"))%N.
Proof.
  repeat split; vm_compute; reflexivity.
Qed.

End RenderedLists.

(** ** What the matcher finds

    [derives r w c c'] says that pattern [r] matches exactly the text [w],
    taking the captures from [c] to [c'].  Whatever the backtracking matcher
    returns comes from such a match of a prefix of its input. *)

Inductive derives : regex -> str -> captures -> captures -> Prop :=
| derives_Eps c : derives Eps [] c c
| derives_Chr a c : derives (Chr a) [a] c c
| derives_Dot a c : is_line_terminator a = false -> derives Dot [a] c c
| derives_Cls rs a c : in_class rs a = true -> derives (Cls rs) [a] c c
| derives_Eos c : derives Eos [] c c
| derives_Cat r1 r2 w1 w2 c c1 c2 :
    derives r1 w1 c c1 -> derives r2 w2 c1 c2 -> derives (Cat r1 r2) (w1 ++ w2) c c2
| derives_Alt_l r1 r2 w c c1 : derives r1 w c c1 -> derives (Alt r1 r2) w c c1
| derives_Alt_r r1 r2 w c c1 : derives r2 w c c1 -> derives (Alt r1 r2) w c c1
| derives_Star_nil r c : derives (Star r) [] c c
| derives_Star_cons r w1 w2 c c1 c2 :
    derives r w1 c c1 -> derives (Star r) w2 c1 c2 -> derives (Star r) (w1 ++ w2) c c2
| derives_Grp i r w c c1 : derives r w c c1 -> derives (Grp i r) w c (set_cap i w c1).

(** The text [w] is in the language of [r]. *)
Definition matches (r : regex) (w : str) : Prop := exists c c', derives r w c c'.

(** A text of one line: no line terminator in it. *)
Definition line_text (w : str) : Prop := Forall (fun a => is_line_terminator a = false) w.

Definition at_line_end (s : str) : Prop :=
  s = [] \/ exists a s', s = a :: s' /\ is_line_terminator a = true.

Lemma firstn_app_length (w s : str) : firstn (length (w ++ s) - length s) (w ++ s) = w.
Proof.
  rewrite length_app. replace (length w + length s - length s) with (length w + 0) by lia.
  rewrite firstn_app_2. cbn. apply app_nil_r.
Qed.

Section Soundness.
Variable R : Type.

(** What one run finds, stated for a matcher [step]. *)
Definition sound_for (r : regex) (step : matcher R) : Prop :=
  forall s c (k : cont R) x,
    step s c k = Some x ->
    exists w s' c', s = w ++ s' /\ derives r w c c' /\ k s' c' = Some x.

Lemma repeat_matcher_sound (r : regex) (step : matcher R) :
  sound_for r step ->
  forall fuel, sound_for (Star r) (repeat_matcher step fuel).
Proof.
  intros Hstep fuel. induction fuel as [|fuel IH]; intros s c k x; cbn [repeat_matcher].
  - intro H. exists [], s, c. repeat split; [constructor | exact H].
  - destruct (step s c _) as [y|] eqn:Hy.
    + intro H. injection H as ->.
      apply Hstep in Hy. destruct Hy as (w1 & s1 & c1 & -> & Hw1 & Hk).
      destruct (length s1 <? length (w1 ++ s1)); [|discriminate].
      apply IH in Hk. destruct Hk as (w2 & s2 & c2 & -> & Hw2 & Hk).
      exists (w1 ++ w2), s2, c2. rewrite <- app_assoc. repeat split; [|exact Hk].
      econstructor; eassumption.
    + intro H. exists [], s, c. repeat split; [constructor | exact H].
Qed.

Lemma run_sound (r : regex) : sound_for r (run (R := R) r).
Proof.
  induction r as [| a | | rs | | r1 IH1 r2 IH2 | r1 IH1 r2 IH2 | r IH | i r IH];
    intros s c k x; cbn [run].
  - intro H. exists [], s, c. repeat split; [constructor | exact H].
  - destruct s as [|b s]; [discriminate|]. destruct (Ascii.eqb_spec b a) as [->|_]; [|discriminate].
    intro H. exists [a], s, c. repeat split; [constructor | exact H].
  - destruct s as [|b s]; [discriminate|]. destruct (is_line_terminator b) eqn:Hb; [discriminate|].
    intro H. exists [b], s, c. repeat split; [constructor; exact Hb | exact H].
  - destruct s as [|b s]; [discriminate|]. destruct (in_class rs b) eqn:Hb; [|discriminate].
    intro H. exists [b], s, c. repeat split; [constructor; exact Hb | exact H].
  - destruct s as [|b s]; [|discriminate].
    intro H. exists [], [], c. repeat split; [constructor | exact H].
  - intro H. apply IH1 in H. destruct H as (w1 & s1 & c1 & -> & Hw1 & H).
    apply IH2 in H. destruct H as (w2 & s2 & c2 & -> & Hw2 & H).
    exists (w1 ++ w2), s2, c2. rewrite <- app_assoc. repeat split; [|exact H].
    econstructor; eassumption.
  - destruct (run r1 s c k) as [y|] eqn:Hy.
    + intro H. injection H as ->. apply IH1 in Hy.
      destruct Hy as (w & s' & c' & -> & Hw & H).
      exists w, s', c'. repeat split; [apply derives_Alt_l; exact Hw | exact H].
    + intro H. apply IH2 in H. destruct H as (w & s' & c' & -> & Hw & H).
      exists w, s', c'. repeat split; [apply derives_Alt_r; exact Hw | exact H].
  - apply repeat_matcher_sound. exact IH.
  - intro H. apply IH in H. destruct H as (w & s' & c' & -> & Hw & H).
    rewrite firstn_app_length in H.
    exists w, s', (set_cap i w c'). repeat split; [constructor; exact Hw | exact H].
Qed.

(** A literal run of characters matches itself only. *)
Lemma run_Lit (l : str) :
  forall s c (k : cont R) x,
    run (Lit l) s c k = Some x -> exists s', s = l ++ s' /\ k s' c = Some x.
Proof.
  induction l as [|a l IH]; intros s c k x; cbn [Lit run].
  - intro H. exists s. split; [reflexivity | exact H].
  - destruct s as [|b s]; [discriminate|]. destruct (Ascii.eqb_spec b a) as [->|_]; [|discriminate].
    intro H. apply IH in H. destruct H as (s' & -> & H). exists s'. split; [reflexivity | exact H].
Qed.

Lemma run_Cls (rs : list (ascii * ascii)) s c (k : cont R) x :
  run (Cls rs) s c k = Some x ->
  exists a s', s = a :: s' /\ in_class rs a = true /\ k s' c = Some x.
Proof.
  cbn [run]. destruct s as [|b s]; [discriminate|].
  destruct (in_class rs b) eqn:Hb; [|discriminate].
  intro H. exists b, s. repeat split; [exact Hb | exact H].
Qed.

(** The text up to the first line terminator, and the rest. *)
Fixpoint line_head (s : str) : str :=
  match s with
  | a :: s' => if is_line_terminator a then [] else a :: line_head s'
  | [] => []
  end.

Fixpoint line_rest (s : str) : str :=
  match s with
  | a :: s' => if is_line_terminator a then s else line_rest s'
  | [] => []
  end.

Lemma line_split (s : str) :
  s = line_head s ++ line_rest s /\ line_text (line_head s) /\ at_line_end (line_rest s).
Proof.
  induction s as [|a s (IH1 & IH2 & IH3)]; cbn [line_head line_rest].
  - repeat split; [constructor | left; reflexivity].
  - destruct (is_line_terminator a) eqn:Ha.
    + repeat split; [constructor | right; exists a, s; split; [reflexivity | exact Ha]].
    + repeat split; [cbn; f_equal; exact IH1 | constructor; assumption | exact IH3].
Qed.

(** The closing wildcard [.*] in front of a continuation that accepts
    anything runs to the end of the line. *)
Lemma wildcard_takes_line (k : cont R) :
  (forall s c, k s c <> None) ->
  forall fuel s c, length s <= fuel ->
    repeat_matcher (run (R := R) Dot) fuel s c k = k (line_rest s) c.
Proof.
  intros Hk fuel. induction fuel as [|fuel IH]; intros s c Hlen; cbn [repeat_matcher].
  - destruct s; [reflexivity | cbn in Hlen; lia].
  - destruct s as [|a s]; cbn [run line_rest]; [reflexivity|].
    destruct (is_line_terminator a); [reflexivity|].
    cbn [length]. replace (length s <? S (length s)) with true
      by (symmetry; apply Nat.ltb_lt; lia).
    cbn [length] in Hlen. rewrite IH by lia.
    destruct (k (line_rest s) c) as [y|] eqn:Hy; [reflexivity|].
    exfalso. exact (Hk _ _ Hy).
Qed.

End Soundness.

(** *** Searching a text *)

Lemma exec_at_sound (r : regex) (s s' : str) (c : captures) :
  exec_at r s = Some (s', c) -> exists w, s = w ++ s' /\ derives r w [] c.
Proof.
  unfold exec_at. intro H. apply run_sound in H.
  destruct H as (w & s1 & c1 & -> & Hw & H). injection H as <- <-.
  exists w. split; [reflexivity | exact Hw].
Qed.

(** A match found by [search] is a match at the head of what follows the
    skipped text. *)
Lemma search_sound (r : regex) (s : str) :
  forall pre f,
    search r pre s = Some f ->
    exists skipped,
      s = skipped ++ matched f ++ after f
      /\ exec_at r (matched f ++ after f) = Some (after f, caps f).
Proof.
  assert (Hhere : forall s0 pre s' c,
             exec_at r s0 = Some (s', c) ->
             let f := Found (rev pre) (firstn (length s0 - length s') s0) c s' in
             s0 = [] ++ matched f ++ after f
             /\ exec_at r (matched f ++ after f) = Some (after f, caps f)).
  { intros s0 pre s' c H. cbn [matched after caps]. destruct (exec_at_sound _ _ H) as (w & -> & _).
    rewrite firstn_app_length. split; [reflexivity | exact H]. }
  induction s as [|a s IH]; intros pre f; cbn [search].
  - destruct (exec_at r []) as [[s' c]|] eqn:He; [|discriminate].
    intro H. injection H as <-. exists []. exact (Hhere [] pre s' c He).
  - destruct (exec_at r (a :: s)) as [[s' c]|] eqn:He.
    + intro H. injection H as <-. exists []. exact (Hhere (a :: s) pre s' c He).
    + intro H. apply IH in H. destruct H as (skipped & -> & H).
      exists (a :: skipped). split; [reflexivity | exact H].
Qed.

Lemma search_all_sound (r : regex) :
  forall fuel pre s f,
    In f (search_all r fuel pre s) ->
    exists skipped,
      s = skipped ++ matched f ++ after f
      /\ exec_at r (matched f ++ after f) = Some (after f, caps f).
Proof.
  induction fuel as [|fuel IH]; intros pre s f; cbn [search_all]; [intros []|].
  destruct (search r pre s) as [f0|] eqn:Hs; [|intros []].
  destruct (search_sound _ _ _ Hs) as (sk0 & Hs0 & He0).
  intros [<-|Hin]; [exists sk0; split; assumption|].
  assert (Hrest : exists sk,
             after f0 = sk ++ matched f ++ after f
             /\ exec_at r (matched f ++ after f) = Some (after f, caps f)).
  { destruct (matched f0) as [|m ms]; destruct (after f0) as [|a s1];
      try (destruct Hin; fail);
      apply IH in Hin; destruct Hin as (sk & Hsk & He).
    - exists (a :: sk). split; [cbn [app]; f_equal; exact Hsk | exact He].
    - exists sk. split; assumption.
    - exists sk. split; assumption. }
  destruct Hrest as (sk & Hsk & He).
  exists (sk0 ++ matched f0 ++ sk). split; [|exact He].
  rewrite Hs0, Hsk, <- !app_assoc. reflexivity.
Qed.

(** *** Enough fuel

    The repeat matcher and the scan of all matches recurse on a fuel that
    bounds the length of the input; any larger fuel gives the same result, so
    neither ever stops for lack of it. *)

Section Fuel.
Variable R : Type.

Lemma repeat_matcher_ext (step : matcher R) :
  (forall s c (k1 k2 : cont R),
      (forall s' c', k1 s' c' = k2 s' c') -> step s c k1 = step s c k2) ->
  forall fuel s c (k1 k2 : cont R),
    (forall s' c', k1 s' c' = k2 s' c') ->
    repeat_matcher step fuel s c k1 = repeat_matcher step fuel s c k2.
Proof.
  intros Hstep fuel. induction fuel as [|fuel IH]; intros s c k1 k2 Hk; cbn [repeat_matcher].
  - apply Hk.
  - rewrite (Hk s c).
    rewrite (Hstep s c _ (fun s' c' =>
                            if length s' <? length s
                            then repeat_matcher step fuel s' c' k2 else None));
      [reflexivity|].
    intros s' c'. destruct (length s' <? length s); [apply IH; exact Hk | reflexivity].
Qed.

Lemma run_ext (r : regex) :
  forall s c (k1 k2 : cont R),
    (forall s' c', k1 s' c' = k2 s' c') -> run r s c k1 = run r s c k2.
Proof.
  induction r as [| a | | rs | | r1 IH1 r2 IH2 | r1 IH1 r2 IH2 | r IH | i r IH];
    intros s c k1 k2 Hk; cbn [run].
  - apply Hk.
  - destruct s as [|b s]; [reflexivity|]. destruct (Ascii.eqb b a); [apply Hk | reflexivity].
  - destruct s as [|b s]; [reflexivity|].
    destruct (is_line_terminator b); [reflexivity | apply Hk].
  - destruct s as [|b s]; [reflexivity|]. destruct (in_class rs b); [apply Hk | reflexivity].
  - destruct s; [apply Hk | reflexivity].
  - apply IH1. intros s' c'. apply IH2. exact Hk.
  - rewrite (IH1 s c k1 k2 Hk), (IH2 s c k1 k2 Hk). reflexivity.
  - apply repeat_matcher_ext; assumption.
  - apply IH. intros s' c'. apply Hk.
Qed.

Lemma repeat_matcher_at_end (r : regex) (fuel : nat) (c : captures) (k : cont R) :
  repeat_matcher (run r) fuel [] c k = k [] c.
Proof.
  destruct fuel as [|fuel]; cbn [repeat_matcher]; [reflexivity|].
  match goal with
  | |- match ?t with _ => _ end = _ => destruct t eqn:Hr; [|reflexivity]
  end.
  apply run_sound in Hr. destruct Hr as (w & s' & c' & _ & _ & Hk). discriminate Hk.
Qed.

Lemma repeat_matcher_fuel (r : regex) :
  forall n m s c (k : cont R),
    length s <= n -> length s <= m ->
    repeat_matcher (run r) n s c k = repeat_matcher (run r) m s c k.
Proof.
  induction n as [|n IH]; intros m s c k Hn Hm.
  - destruct s; [|cbn in Hn; lia]. rewrite !repeat_matcher_at_end. reflexivity.
  - destruct m as [|m].
    + destruct s; [|cbn in Hm; lia]. rewrite !repeat_matcher_at_end. reflexivity.
    + cbn [repeat_matcher].
      rewrite (run_ext r s c _ (fun s' c' =>
                                  if length s' <? length s
                                  then repeat_matcher (run r) m s' c' k else None));
        [reflexivity|].
      intros s' c'. destruct (Nat.ltb_spec (length s') (length s)); [|reflexivity].
      apply IH; lia.
Qed.

End Fuel.

Lemma search_all_fuel (r : regex) :
  forall n m pre s,
    length s < n -> length s < m -> search_all r n pre s = search_all r m pre s.
Proof.
  induction n as [|n IH]; intros m pre s Hn Hm; [lia|].
  destruct m as [|m]; [lia|]. cbn [search_all].
  destruct (search r pre s) as [f|] eqn:Hs; [|reflexivity]. f_equal.
  destruct (search_sound _ _ _ Hs) as (skipped & Hlen & _).
  apply (f_equal (@length ascii)) in Hlen. rewrite !length_app in Hlen.
  destruct (matched f) as [|b w]; destruct (after f) as [|a s']; cbn [length] in Hlen;
    try reflexivity; apply IH; cbn [length]; lia.
Qed.

(** *** Patterns that stay on one line *)

Fixpoint line_free (r : regex) : bool :=
  match r with
  | Eps | Dot | Eos => true
  | Chr a => negb (is_line_terminator a)
  | Cls rs => negb (in_class rs CR) && negb (in_class rs LF)
  | Cat r1 r2 | Alt r1 r2 => line_free r1 && line_free r2
  | Star r1 | Grp _ r1 => line_free r1
  end.

Lemma line_terminator_cases (a : ascii) : is_line_terminator a = true -> a = LF \/ a = CR.
Proof.
  unfold is_line_terminator. intro H. apply orb_true_iff in H.
  destruct H as [H|H]; apply Nat.eqb_eq in H; [left|right];
    rewrite <- (ascii_nat_embedding a), H; reflexivity.
Qed.

Lemma derives_line_free (r : regex) (w : str) (c c' : captures) :
  derives r w c c' -> line_free r = true -> line_text w.
Proof.
  unfold line_text.
  induction 1 as [ | a c | a c Ha | rs a c Ha | | r1 r2 w1 w2 c c1 c2 H1 IH1 H2 IH2
                 | r1 r2 w c c1 H1 IH1 | r1 r2 w c c1 H1 IH1 | r c
                 | r w1 w2 c c1 c2 H1 IH1 H2 IH2 | i r w c c1 H1 IH1];
    cbn [line_free]; intro Hfree; try (constructor; fail).
  - constructor; [|constructor]. apply negb_true_iff. exact Hfree.
  - constructor; [exact Ha | constructor].
  - constructor; [|constructor]. apply andb_true_iff in Hfree. destruct Hfree as [H1 H2].
    apply negb_true_iff in H1, H2.
    destruct (is_line_terminator a) eqn:Hterm; [|reflexivity].
    destruct (line_terminator_cases _ Hterm); subst a; congruence.
  - apply andb_true_iff in Hfree. destruct Hfree. apply Forall_app. split; auto.
  - apply andb_true_iff in Hfree. destruct Hfree. auto.
  - apply andb_true_iff in Hfree. destruct Hfree. auto.
  - apply Forall_app. split; auto.
  - auto.
Qed.

(** A literal run of characters derives itself only. *)
Lemma derives_Lit (l w : str) (c c' : captures) : derives (Lit l) w c c' -> w = l /\ c' = c.
Proof.
  revert w c c'. induction l as [|a l IH]; intros w c c' H; cbn [Lit] in H.
  - inversion H; subst. split; reflexivity.
  - inversion H as [ | | | | | r1 r2 w1 w2 d d1 d2 H1 H2 | | | | | ]; subst.
    inversion H1; subst. apply IH in H2. destruct H2 as [-> ->]. split; reflexivity.
Qed.

Lemma derives_no_groups (r : regex) (w : str) (c c' : captures) :
  derives r w c c' -> ngroups r = 0 -> c' = c.
Proof.
  induction 1; cbn [ngroups]; intro Hn; try reflexivity; try discriminate.
  - rewrite IHderives2, IHderives1 by lia. reflexivity.
  - apply IHderives. lia.
  - apply IHderives. lia.
  - rewrite IHderives2, IHderives1 by (cbn [ngroups]; lia). reflexivity.
Qed.

(** *** The checklist items of a section *)

Definition pull_or_issues : regex := Alt (Lit (lit "pull")) (Lit (lit "issues")).

Lemma run_Cat_sound (R : Type) (r1 r2 : regex) s c (k : cont R) x :
  run (Cat r1 r2) s c k = Some x ->
  exists w s1 c1, s = w ++ s1 /\ derives r1 w c c1 /\ run r2 s1 c1 k = Some x.
Proof.
  cbn [run]. intro H. apply run_sound in H. exact H.
Qed.

Lemma run_wildcard (R : Type) (k : cont R) s c :
  (forall s0 c0, k s0 c0 <> None) ->
  run (Star Dot) s c k = k (line_rest s) c.
Proof.
  intro Hk. cbn [run]. apply wildcard_takes_line; [exact Hk | lia].
Qed.

Lemma line_free_url_core : line_free (url_core pull_or_issues 2) = true.
Proof.
  vm_compute. reflexivity.
Qed.

(** A match of the checklist-item pattern at the head of [s]: the box, a
    URL [u], and whatever [t] follows it on the line; group 1 is [u ++ t],
    and the match stops at the end of the line. *)
Lemma checklist_item_shape (s s' : str) (c : captures) :
  exec_at checklistItemRegex s = Some (s', c) ->
  exists box u t,
    s = lit "- [" ++ [box] ++ lit "] " ++ (u ++ t) ++ s'
    /\ (box = " " \/ box = "x")%char
    /\ matches (url_core pull_or_issues 2) u
    /\ line_text (u ++ t)
    /\ at_line_end s'
    /\ get_cap 1 c = Some (u ++ t).
Proof.
  unfold exec_at.
  change checklistItemRegex
    with (Cat (Lit (lit "- [")) (Cat (Cls [(" ", " "); ("x", "x")]%char)
            (Cat (Lit (lit "] "))
               (Cat (Grp 1 (Cat (url_core pull_or_issues 2) (Star Dot))) Eps)))).
  intro H.
  apply run_Cat_sound in H. destruct H as (w1 & s1 & c1 & -> & H1 & H).
  apply derives_Lit in H1. destruct H1 as [-> ->].
  apply run_Cat_sound in H. destruct H as (w2 & s2 & c2 & -> & H2 & H).
  inversion H2 as [ | | | rs box c0 Hbox | | | | | | | ]; subst.
  apply run_Cat_sound in H. destruct H as (w3 & s3 & c3 & -> & H3 & H).
  apply derives_Lit in H3. destruct H3 as [-> ->].
  change (run (Cat (Grp 1 (Cat (url_core pull_or_issues 2) (Star Dot))) Eps) s3 []
            (fun s' c => Some (s', c)))
    with (run (url_core pull_or_issues 2) s3 []
            (fun s5 c5 =>
               run (Star Dot) s5 c5
                 (fun s6 c6 => Some (s6, set_cap 1 (firstn (length s3 - length s6) s3) c6))))
    in H.
  apply run_sound in H. destruct H as (u & s5 & c5 & -> & Hu & H).
  rewrite run_wildcard in H by (intros; discriminate).
  injection H as <- <-.
  destruct (line_split s5) as (Hs5 & Hhead & Hrest).
  assert (Hcap : firstn (length (u ++ s5) - length (line_rest s5)) (u ++ s5) = u ++ line_head s5).
  { rewrite Hs5 at 1 3. rewrite app_assoc. apply firstn_app_length. }
  exists box, u, (line_head s5). rewrite Hcap. repeat split.
  - rewrite Hs5 at 1. rewrite <- !app_assoc. reflexivity.
  - unfold in_class, in_range in Hbox. cbn [existsb fst snd] in Hbox.
    rewrite orb_false_r in Hbox. apply orb_true_iff in Hbox.
    destruct Hbox as [Hb|Hb]; apply andb_true_iff in Hb; destruct Hb as [Hlo Hhi];
      apply Nat.leb_le in Hlo, Hhi; [left|right];
      rewrite <- (ascii_nat_embedding box);
      [replace (nat_of_ascii box) with (nat_of_ascii " ") by lia
      |replace (nat_of_ascii box) with (nat_of_ascii "x") by lia]; reflexivity.
  - exists [], c5. exact Hu.
  - apply Forall_app. split; [|exact Hhead].
    exact (derives_line_free Hu line_free_url_core).
  - exact Hrest.
Qed.

(** Every entry [checklistItems] returns is group 1 of such a match. *)
Lemma checklistItems_sound (section : str) (entry : option str) :
  In entry (checklistItems section) ->
  exists skipped box u t s',
    section = skipped ++ lit "- [" ++ [box] ++ lit "] " ++ (u ++ t) ++ s'
    /\ entry = Some (u ++ t)
    /\ (box = " " \/ box = "x")%char
    /\ matches (url_core pull_or_issues 2) u
    /\ line_text (u ++ t)
    /\ at_line_end s'.
Proof.
  unfold checklistItems, String_matchAll, all_matches. rewrite map_map.
  intro H. apply in_map_iff in H. destruct H as (f & <- & Hf).
  apply search_all_sound in Hf. destruct Hf as (skipped & Hs & He).
  destruct (checklist_item_shape _ He) as (box & u & t & Hm & Hbox & Hu & Hline & Hend & Hcap).
  exists skipped, box, u, t, (after f). rewrite Hs, Hm.
  repeat split; assumption.
Qed.

(** *** The two sections *)

Definition line_pattern : regex := Cat (Star Dot) (Lit CRLF).

Lemma derives_line_pattern (w : str) (c c' : captures) :
  derives line_pattern w c c' -> exists w', w = w' ++ CRLF.
Proof.
  unfold line_pattern. intro H.
  inversion H as [ | | | | | r1 r2 w1 w2 d d1 d2 H1 H2 | | | | | ]; subst.
  apply (derives_Lit CRLF) in H2. destruct H2 as [-> _]. exists w1. reflexivity.
Qed.

Lemma derives_more_lines (r : regex) (w : str) (c c' : captures) :
  derives r w c c' -> r = Star line_pattern -> w = [] \/ exists w', w = w' ++ CRLF.
Proof.
  induction 1 as [ | | | | | | | | r c
                 | r w1 w2 c c1 c2 H1 IH1 H2 IH2 | ]; intro Hr; try discriminate.
  - left. reflexivity.
  - right. injection Hr as ->. destruct (derives_line_pattern H1) as (w1' & ->).
    destruct (IH2 eq_refl) as [->|(w2' & ->)].
    + exists w1'. rewrite app_nil_r. reflexivity.
    + exists ((w1' ++ CRLF) ++ w2'). rewrite <- !app_assoc. reflexivity.
Qed.

(** The text of [(?:.*\r\n)+] ends with a line end. *)
Lemma derives_lines1 (w : str) (c c' : captures) :
  derives lines1 w c c' -> exists w', w = w' ++ CRLF.
Proof.
  unfold lines1, Plus. fold line_pattern. intro H.
  inversion H as [ | | | | | r1 r2 w1 w2 d d1 d2 H1 H2 | | | | | ]; subst.
  destruct (derives_line_pattern H1) as (w1' & ->).
  destruct (derives_more_lines H2 eq_refl) as [->|(w2' & ->)].
  - exists w1'. rewrite app_nil_r. reflexivity.
  - exists ((w1' ++ CRLF) ++ w2'). rewrite <- !app_assoc. reflexivity.
Qed.

(** A match of a section pattern: the header line, then group 1, which is
    whole lines of the text. *)
Lemma section_shape (header : str) (rest : regex) (s s' : str) (c : captures) :
  ngroups rest = 0 ->
  exec_at (Cat (Lit header) (Cat (Lit CRLF) (Cat (Grp 1 lines1) rest))) s = Some (s', c) ->
  exists section following,
    s = header ++ CRLF ++ section ++ following
    /\ get_cap 1 c = Some section
    /\ exists w', section = w' ++ CRLF.
Proof.
  unfold exec_at. intros Hrest H.
  apply run_Cat_sound in H. destruct H as (w1 & s1 & c1 & -> & H1 & H).
  apply derives_Lit in H1. destruct H1 as [-> ->].
  apply run_Cat_sound in H. destruct H as (w2 & s2 & c2 & -> & H2 & H).
  apply derives_Lit in H2. destruct H2 as [-> ->].
  apply run_Cat_sound in H. destruct H as (w3 & s3 & c3 & -> & H3 & H).
  apply run_sound in H. destruct H as (w4 & s4 & c4 & -> & H4 & H).
  injection H as <- <-.
  apply (derives_no_groups H4) in Hrest. subst c4.
  inversion H3 as [ | | | | | | | | | | i r w d d1 Hlines ]; subst.
  exists w3, (w4 ++ s4). repeat split. exact (derives_lines1 Hlines).
Qed.

Lemma first_group_found (r : regex) (s section : str) :
  first_group r s = Ok section ->
  exists f skipped,
    s = skipped ++ matched f ++ after f
    /\ exec_at r (matched f ++ after f) = Some (after f, caps f)
    /\ nth 1 (match_array r f) None = Some section.
Proof.
  unfold first_group, String_match, exec.
  destruct (search r [] s) as [f|] eqn:Hs; cbn [option_map of_nullable bind]; [|discriminate].
  destruct (nth 1 (match_array r f) None) as [w|] eqn:Hw; cbn [of_nullable]; [|discriminate].
  intro H. apply Ok_inj in H. subst w.
  destruct (search_sound _ _ _ Hs) as (skipped & H1 & H2).
  exists f, skipped. repeat split; assumption.
Qed.

(** Either section the decoder cuts out is a run of whole lines of the
    body. *)
Lemma section_in_body (body section : str) :
  first_group PRListSectionRegex body = Ok section
  \/ first_group deployBlockerSectionRegex body = Ok section ->
  exists preceding following w',
    body = preceding ++ section ++ following /\ section = w' ++ CRLF.
Proof.
  intros [H|H]; apply first_group_found in H; destruct H as (f & skipped & Hs & He & Hg).
  - change (nth 1 (match_array PRListSectionRegex f) None) with (get_cap 1 (caps f)) in Hg.
    change PRListSectionRegex
      with (Cat (Lit (lit "pull requests:**"))
              (Cat (Lit CRLF) (Cat (Grp 1 lines1) (Cat (Lit CRLF) Eps)))) in He.
    apply section_shape in He; [|reflexivity].
    destruct He as (sec & following & Hm & Hcap & w' & Hw). rewrite Hcap in Hg.
    injection Hg as ->.
    exists (skipped ++ lit "pull requests:**" ++ CRLF), following, w'.
    split; [|exact Hw]. rewrite Hs, Hm, <- !app_assoc. reflexivity.
  - change (nth 1 (match_array deployBlockerSectionRegex f) None)
      with (get_cap 1 (caps f)) in Hg.
    change deployBlockerSectionRegex
      with (Cat (Lit (lit "Deploy Blockers:**")) (Cat (Lit CRLF) (Cat (Grp 1 lines1) Eps)))
      in He.
    apply section_shape in He; [|reflexivity].
    destruct He as (sec & following & Hm & Hcap & w' & Hw). rewrite Hcap in Hg.
    injection Hg as ->.
    exists (skipped ++ lit "Deploy Blockers:**" ++ CRLF), following, w'.
    split; [|exact Hw]. rewrite Hs, Hm, <- !app_assoc. reflexivity.
Qed.

Lemma ends_with_LF (p z w' : str) : z <> [] -> p ++ z = w' ++ CRLF -> In LF z.
Proof.
  intros Hz H. destruct (exists_last Hz) as (z' & a & ->).
  change CRLF with ([CR] ++ [LF]) in H. rewrite !app_assoc in H.
  apply app_inj_tail in H. destruct H as [_ ->]. apply in_or_app. right. left. reflexivity.
Qed.

(** An entry of a section of whole lines is followed by a line terminator
    in the body. *)
Lemma section_entry_in_body (body preceding section following w' : str) (entry : option str) :
  body = preceding ++ section ++ following ->
  section = w' ++ CRLF ->
  In entry (checklistItems section) ->
  exists before_ box u t a after_,
    body = before_ ++ lit "- [" ++ [box] ++ lit "] " ++ (u ++ t) ++ a :: after_
    /\ entry = Some (u ++ t)
    /\ (box = " " \/ box = "x")%char
    /\ matches (url_core pull_or_issues 2) u
    /\ line_text (u ++ t)
    /\ is_line_terminator a = true.
Proof.
  intros Hbody Hsec Hin.
  destruct (checklistItems_sound _ _ Hin)
    as (skipped & box & u & t & s' & Hs & He & Hbox & Hu & Hline & Hend).
  destruct Hend as [->|(a & s'' & -> & Ha)].
  - exfalso. rewrite app_nil_r in Hs.
    assert (HLF : In LF (lit "] " ++ (u ++ t))).
    { apply (@ends_with_LF (skipped ++ lit "- [" ++ [box]) _ w'); [discriminate|].
      rewrite <- Hsec, Hs, <- !app_assoc. reflexivity. }
    assert (Hall : line_text (lit "] " ++ (u ++ t))).
    { apply Forall_app. split; [repeat constructor | exact Hline]. }
    unfold line_text in Hall. rewrite Forall_forall in Hall. apply Hall in HLF. discriminate HLF.
  - exists (preceding ++ skipped), box, u, t, a, (s'' ++ following).
    repeat split; try assumption.
    rewrite Hbody, Hs, <- !app_assoc. reflexivity.
Qed.

(** The two lists of a decoded checklist are the checklist items of the two
    sections cut out of the body. *)
Lemma decode_ok_sections (issue : Issue) (d : StagingDeployCashData) :
  getStagingDeployCashData issue = Ok d ->
  exists body PRListSection deployBlockerSection,
    issue_body issue = Some body
    /\ first_group PRListSectionRegex body = Ok PRListSection
    /\ PRList d = checklistItems PRListSection
    /\ first_group deployBlockerSectionRegex body = Ok deployBlockerSection
    /\ deployBlockers d = checklistItems deployBlockerSection.
Proof.
  unfold getStagingDeployCashData.
  destruct (issue_body issue) as [body|]; cbn [of_nullable bind try_catch]; [|discriminate].
  destruct (extract_tag body) as [t|e]; cbn [bind try_catch]; [|discriminate].
  destruct (extract_comparisonURL body) as [u|e]; cbn [bind try_catch]; [|discriminate].
  destruct (extract_PRList body) as [prs|e] eqn:Hp; cbn [bind try_catch]; [|discriminate].
  destruct (extract_deployBlockers body) as [dbs|e] eqn:Hd; cbn [bind try_catch];
    [|discriminate].
  intro H. apply Ok_inj in H. subst d. cbn [PRList deployBlockers].
  unfold extract_PRList in Hp. apply bind_ok in Hp. destruct Hp as (sec1 & Hs1 & Hp).
  unfold extract_deployBlockers in Hd. apply bind_ok in Hd. destruct Hd as (sec2 & Hs2 & Hd).
  apply Ok_inj in Hp, Hd. subst prs dbs.
  exists body, sec1, sec2. repeat split; assumption.
Qed.

(** *** Texts the matcher cannot miss *)

Fixpoint eos_free (r : regex) : bool :=
  match r with
  | Eos => false
  | Cat r1 r2 | Alt r1 r2 => eos_free r1 && eos_free r2
  | Star r1 | Grp _ r1 => eos_free r1
  | _ => true
  end.

Section Completeness.
Variable R : Type.

Lemma repeat_matcher_not_none (step : matcher R) (fuel : nat) s c (k : cont R) :
  k s c <> None -> repeat_matcher step fuel s c k <> None.
Proof.
  intro Hk. destruct fuel as [|fuel]; cbn [repeat_matcher]; [exact Hk|].
  destruct (step s c _); [discriminate | exact Hk].
Qed.

(** When a prefix of the input is in the language of the pattern and the
    continuation accepts what follows it, the run succeeds; for [r*] so does
    the repeat matcher on any fuel that covers the input. *)
Definition cannot_miss (r : regex) (w : str) : Prop :=
  forall s' c (k : cont R),
    (forall c', k s' c' <> None) ->
    run r (w ++ s') c k <> None
    /\ forall r0, r = Star r0 ->
         forall fuel, length (w ++ s') <= fuel ->
           repeat_matcher (run (R := R) r0) fuel (w ++ s') c k <> None.

Lemma derives_cannot_miss (r : regex) (w : str) (c0 c1 : captures) :
  derives r w c0 c1 -> eos_free r = true -> cannot_miss r w.
Proof.
  unfold cannot_miss.
  induction 1 as [ c0 | a c0 | a c0 Ha | rs a c0 Ha | c0
                 | r1 r2 w1 w2 c0 c1 c2 H1 IH1 H2 IH2
                 | r1 r2 w c0 c1 H1 IH1 | r1 r2 w c0 c1 H1 IH1 | r c0
                 | r w1 w2 c0 c1 c2 H1 IH1 H2 IH2 | i r w c0 c1 H1 IH1];
    cbn [eos_free]; intros Hfree s' c k Hk; try discriminate.
  - split; [|intros r0 Hr0; discriminate Hr0]. cbn. apply Hk.
  - split; [|intros r0 Hr0; discriminate Hr0]. cbn. rewrite Ascii.eqb_refl. apply Hk.
  - split; [|intros r0 Hr0; discriminate Hr0]. cbn. rewrite Ha. apply Hk.
  - split; [|intros r0 Hr0; discriminate Hr0]. cbn. rewrite Ha. apply Hk.
  - split; [|intros r0 Hr0; discriminate Hr0].
    apply andb_true_iff in Hfree. destruct Hfree as [F1 F2].
    cbn [run]. rewrite <- app_assoc. apply (IH1 F1). intro c'. apply (IH2 F2). exact Hk.
  - split; [|intros r0 Hr0; discriminate Hr0].
    apply andb_true_iff in Hfree. destruct Hfree as [F1 F2].
    cbn [run]. destruct (run r1 (w ++ s') c k) eqn:Hr; [discriminate|].
    exfalso. exact (proj1 (IH1 F1 s' c k Hk) Hr).
  - split; [|intros r0 Hr0; discriminate Hr0].
    apply andb_true_iff in Hfree. destruct Hfree as [F1 F2].
    cbn [run]. destruct (run r1 (w ++ s') c k); [discriminate|]. apply (IH1 F2). exact Hk.
  - split.
    + cbn [run]. apply repeat_matcher_not_none. apply Hk.
    + intros r0 _ fuel _. apply repeat_matcher_not_none. apply Hk.
  - assert (Hgen : forall fuel, length ((w1 ++ w2) ++ s') <= fuel ->
               repeat_matcher (run (R := R) r) fuel ((w1 ++ w2) ++ s') c k <> None).
    { intros fuel Hfuel. destruct w1 as [|a w1].
      - apply (proj2 (IH2 Hfree s' c k Hk) r eq_refl). exact Hfuel.
      - destruct fuel as [|fuel]; [cbn in Hfuel; lia|]. cbn [repeat_matcher].
        match goal with
        | |- match ?t with _ => _ end <> None => destruct t eqn:Hr; [discriminate|]
        end.
        exfalso. rewrite <- app_assoc in Hr. revert Hr. apply (IH1 Hfree). intro c'.
        assert (Hlt : length (w2 ++ s') < length ((a :: w1) ++ w2 ++ s'))
          by (rewrite !length_app; cbn [length]; lia).
        apply Nat.ltb_lt in Hlt. rewrite Hlt.
        apply (proj2 (IH2 Hfree s' c' k Hk) r eq_refl).
        apply Nat.ltb_lt in Hlt. rewrite <- app_assoc in Hfuel. cbn [length app] in *. lia. }
    split.
    + cbn [run]. apply Hgen. apply Nat.le_refl.
    + intros r0 Hr0 fuel Hfuel. injection Hr0 as <-. apply Hgen. exact Hfuel.
  - split; [|intros r0 Hr0; discriminate Hr0].
    cbn [run]. apply (IH1 Hfree). intro c'. apply Hk.
Qed.

End Completeness.

(** *** Building matches *)

Lemma derives_rebase (r : regex) (w : str) (c c' : captures) :
  derives r w c c' -> forall d, exists d', derives r w d d'.
Proof.
  induction 1 as [ c | a c | a c Ha | rs a c Ha | c
                 | r1 r2 w1 w2 c c1 c2 H1 IH1 H2 IH2
                 | r1 r2 w c c1 H1 IH1 | r1 r2 w c c1 H1 IH1 | r c
                 | r w1 w2 c c1 c2 H1 IH1 H2 IH2 | i r w c c1 H1 IH1]; intro d.
  - exists d. constructor.
  - exists d. constructor.
  - exists d. constructor. exact Ha.
  - exists d. constructor. exact Ha.
  - exists d. constructor.
  - destruct (IH1 d) as (d1 & Hd1). destruct (IH2 d1) as (d2 & Hd2).
    exists d2. econstructor; eassumption.
  - destruct (IH1 d) as (d1 & Hd1). exists d1. apply derives_Alt_l. exact Hd1.
  - destruct (IH1 d) as (d1 & Hd1). exists d1. apply derives_Alt_r. exact Hd1.
  - exists d. constructor.
  - destruct (IH1 d) as (d1 & Hd1). destruct (IH2 d1) as (d2 & Hd2).
    exists d2. econstructor; eassumption.
  - destruct (IH1 d) as (d1 & Hd1). exists (set_cap i w d1). constructor. exact Hd1.
Qed.

Lemma matches_Cat (r1 r2 : regex) (w1 w2 : str) :
  matches r1 w1 -> matches r2 w2 -> matches (Cat r1 r2) (w1 ++ w2).
Proof.
  intros (c & c1 & H1) (d & d1 & H2). destruct (derives_rebase H2 c1) as (c2 & H2').
  exists c, c2. econstructor; eassumption.
Qed.

Lemma matches_Alt_l (r1 r2 : regex) (w : str) : matches r1 w -> matches (Alt r1 r2) w.
Proof.
  intros (c & c1 & H). exists c, c1. apply derives_Alt_l. exact H.
Qed.

Lemma matches_Alt_r (r1 r2 : regex) (w : str) : matches r2 w -> matches (Alt r1 r2) w.
Proof.
  intros (c & c1 & H). exists c, c1. apply derives_Alt_r. exact H.
Qed.

Lemma matches_Grp (i : nat) (r : regex) (w : str) : matches r w -> matches (Grp i r) w.
Proof.
  intros (c & c1 & H). exists c, (set_cap i w c1). constructor. exact H.
Qed.

Lemma matches_Eps : matches Eps [].
Proof.
  exists [], []. constructor.
Qed.

Lemma matches_Chr (a : ascii) : matches (Chr a) [a].
Proof.
  exists [], []. constructor.
Qed.

Lemma matches_Lit (l : str) : matches (Lit l) l.
Proof.
  induction l as [|a l IH]; cbn [Lit].
  - apply matches_Eps.
  - apply (@matches_Cat (Chr a) (Lit l) [a] l); [apply matches_Chr | exact IH].
Qed.

Lemma matches_wildcard (w : str) : line_text w -> matches (Star Dot) w.
Proof.
  induction 1 as [|a w Ha Hw (c & c' & IH)].
  - exists [], []. constructor.
  - destruct (derives_rebase IH []) as (d & Hd).
    exists [], d. apply (@derives_Star_cons Dot [a] w [] [] d); [constructor; exact Ha | exact Hd].
Qed.

Definition digits_text (w : str) : Prop := w <> [] /\ Forall (fun a => is_digit a = true) w.

Lemma matches_digits (w : str) :
  Forall (fun a => is_digit a = true) w -> matches (Star digit) w.
Proof.
  induction 1 as [|a w Ha Hw (c & c' & IH)].
  - exists [], []. constructor.
  - destruct (derives_rebase IH []) as (d & Hd).
    exists [], d. apply (@derives_Star_cons digit [a] w [] [] d); [|exact Hd].
    constructor. unfold in_class, in_range. cbn [existsb fst snd].
    rewrite orb_false_r. exact Ha.
Qed.

Lemma matches_digits1 (w : str) : digits_text w -> matches digits1 w.
Proof.
  intros [Hne Hall]. destruct w as [|a w]; [contradiction|].
  inversion Hall as [|a' w' Ha Hw]; subst.
  apply (@matches_Cat digit (Star digit) [a] w); [|apply matches_digits; exact Hw].
  exists [], []. constructor. unfold in_class, in_range. cbn [existsb fst snd].
  rewrite orb_false_r. exact Ha.
Qed.

Lemma digits_line_text (w : str) : Forall (fun a => is_digit a = true) w -> line_text w.
Proof.
  unfold line_text. apply Forall_impl. intros a Ha.
  unfold is_digit in Ha. unfold is_line_terminator.
  apply andb_true_iff in Ha. destruct Ha as [Hlo Hhi]. apply Nat.leb_le in Hlo, Hhi.
  apply orb_false_iff. split; apply Nat.eqb_neq; lia.
Qed.

(** A match the matcher cannot miss at the head of a text. *)
Lemma exec_at_complete (r : regex) (w s' : str) :
  matches r w -> eos_free r = true -> exists s'' c, exec_at r (w ++ s') = Some (s'', c).
Proof.
  intros (c0 & c1 & H) Hfree. unfold exec_at.
  destruct (run r (w ++ s') [] (fun s1 c => Some (s1, c))) as [[s'' c]|] eqn:Hr.
  - exists s'', c. reflexivity.
  - exfalso. revert Hr. apply (derives_cannot_miss H Hfree). intros c'. discriminate.
Qed.

(** *** Checkbox lines with text after the URL *)

(** A URL of the forge in its usual shape, and a checkbox line as the
    encoder writes one. *)
Definition forge_url (owner repo kind number : str) : str :=
  lit "https://github.com" ++ lit "/" ++ owner ++ lit "/" ++ repo ++ lit "/" ++ kind
    ++ lit "/" ++ number.

Definition url_parts (owner repo kind number : str) : Prop :=
  line_text owner /\ line_text repo
  /\ (kind = lit "pull" \/ kind = lit "issues")
  /\ digits_text number.

Definition checkbox_line (box : ascii) (text : str) : str :=
  lit "- [" ++ [box] ++ lit "] " ++ text ++ CRLF.

(** The start of a line: the start of the text, or just after a line
    terminator. *)
Definition at_line_start (preceding : str) : Prop :=
  preceding = [] \/ exists p a, preceding = p ++ [a] /\ is_line_terminator a = true.

Lemma matches_base_url : matches GITHUB_BASE_URL_REGEX (lit "https://github.com").
Proof.
  destruct (@exec_at_sound GITHUB_BASE_URL_REGEX (lit "https://github.com") [] [])
    as (w & Hw & H); [vm_compute; reflexivity|].
  rewrite app_nil_r in Hw. subst w. exists [], []. exact H.
Qed.

Lemma forge_url_matches (owner repo kind number : str) :
  url_parts owner repo kind number ->
  matches (url_core pull_or_issues 2) (forge_url owner repo kind number).
Proof.
  intros (Ho & Hr & Hk & Hn). unfold forge_url. rewrite <- (app_nil_r number).
  change (url_core pull_or_issues 2)
    with (Cat GITHUB_BASE_URL_REGEX
            (Cat (Chr "/") (Cat (Star Dot) (Cat (Chr "/") (Cat (Star Dot)
               (Cat (Chr "/") (Cat pull_or_issues (Cat (Chr "/")
                  (Cat (Grp 2 digits1) Eps))))))))).
  apply matches_Cat; [apply matches_base_url|].
  apply matches_Cat; [apply matches_Chr|].
  apply matches_Cat; [apply matches_wildcard; exact Ho|].
  apply matches_Cat; [apply matches_Chr|].
  apply matches_Cat; [apply matches_wildcard; exact Hr|].
  apply matches_Cat; [apply matches_Chr|].
  apply matches_Cat;
    [destruct Hk as [->| ->];
     [apply matches_Alt_l | apply matches_Alt_r]; apply matches_Lit|].
  apply matches_Cat; [apply matches_Chr|].
  apply matches_Cat; [apply matches_Grp; apply matches_digits1; exact Hn | apply matches_Eps].
Qed.

Lemma forge_url_line_text (owner repo kind number : str) :
  url_parts owner repo kind number -> line_text (forge_url owner repo kind number).
Proof.
  intros (Ho & Hr & Hk & Hn). unfold forge_url, line_text.
  repeat (apply Forall_app; split); try assumption; try (repeat constructor; fail).
  - destruct Hk as [->| ->]; repeat constructor.
  - apply digits_line_text. exact (proj2 Hn).
Qed.

(** A text splits in one way into a line and what starts at the line's
    end. *)
Lemma line_split_unique (a b x y : str) :
  line_text a -> line_text b -> at_line_end x -> at_line_end y ->
  a ++ x = b ++ y -> a = b /\ x = y.
Proof.
  intros Ha. revert b. induction Ha as [|h a Hh Ha IH]; intros b Hb Hx Hy H.
  - destruct Hb as [|h' b Hh' Hb]; [split; [reflexivity | exact H]|].
    exfalso. cbn [app] in H. destruct Hx as [->|(z & x' & -> & Hz)]; [discriminate H|].
    injection H as -> _. congruence.
  - destruct Hb as [|h' b Hh' Hb].
    + exfalso. cbn [app] in H. destruct Hy as [->|(z & y' & -> & Hz)]; [discriminate H|].
      injection H as -> _. congruence.
    + cbn [app] in H. injection H as -> H. destruct (IH b Hb Hx Hy H) as [-> ->].
      split; reflexivity.
Qed.

(** At the head of a checkbox line, the pattern matches the line up to its
    end and group 1 is the URL with the text after it. *)
Lemma item_match_here (box : ascii) (owner repo kind number trailing rest : str) :
  (box = " " \/ box = "x")%char ->
  url_parts owner repo kind number ->
  line_text trailing ->
  at_line_end rest ->
  exists c,
    exec_at checklistItemRegex
      (lit "- [" ++ [box] ++ lit "] " ++ (forge_url owner repo kind number ++ trailing) ++ rest)
    = Some (rest, c)
    /\ get_cap 1 c = Some (forge_url owner repo kind number ++ trailing).
Proof.
  intros Hbox Hparts Htrail Hrest.
  pose proof (forge_url_matches Hparts) as HUm.
  pose proof (forge_url_line_text Hparts) as HUl.
  generalize dependent (forge_url owner repo kind number). intros URL HUm HUl.
  assert (Hm : matches checklistItemRegex
                 (lit "- [" ++ [box] ++ lit "] " ++ ((URL ++ trailing) ++ []))).
  { change checklistItemRegex
      with (Cat (Lit (lit "- [")) (Cat (Cls [(" ", " "); ("x", "x")]%char)
              (Cat (Lit (lit "] "))
                 (Cat (Grp 1 (Cat (url_core pull_or_issues 2) (Star Dot))) Eps)))).
    apply matches_Cat; [apply matches_Lit|].
    apply matches_Cat; [exists [], []; constructor; destruct Hbox as [->| ->]; reflexivity|].
    apply matches_Cat; [apply matches_Lit|].
    apply matches_Cat; [|apply matches_Eps].
    apply matches_Grp. apply matches_Cat; [exact HUm | apply matches_wildcard; exact Htrail]. }
  destruct (@exec_at_complete _ _ rest Hm eq_refl) as (s'' & c & He).
  rewrite app_nil_r, <- !app_assoc in He.
  destruct (checklist_item_shape _ He) as (box' & u & t & Hs & _ & _ & Hline & Hend & Hcap).
  apply app_inv_head in Hs. injection Hs as _ Hs.
  rewrite app_assoc in Hs.
  apply line_split_unique in Hs; try assumption.
  - destruct Hs as [Hut <-]. exists c. rewrite <- app_assoc. split; [exact He|].
    rewrite Hcap, <- Hut. reflexivity.
  - apply Forall_app. split; assumption.
Qed.

(** *** Scanning a section line by line *)

Lemma search_here (r : regex) (pre s s' : str) (c : captures) :
  exec_at r s = Some (s', c) ->
  search r pre s = Some (Found (rev pre) (firstn (length s - length s') s) c s').
Proof.
  intro H. destruct s; cbn [search]; rewrite H; reflexivity.
Qed.

(** The match [search] returns starts no later than any place where the
    pattern matches. *)
Lemma search_leftmost (r : regex) (s1 : str) :
  exec_at r s1 <> None ->
  forall pre p0,
    exists f skipped rest_pre,
      search r p0 (pre ++ s1) = Some f
      /\ pre = skipped ++ rest_pre
      /\ matched f ++ after f = rest_pre ++ s1
      /\ exec_at r (matched f ++ after f) = Some (after f, caps f).
Proof.
  intro Hs1.
  assert (Hhere : forall s p0,
             exec_at r s <> None ->
             exists f, search r p0 s = Some f
                       /\ matched f ++ after f = s
                       /\ exec_at r (matched f ++ after f) = Some (after f, caps f)).
  { intros s p0 Hs. destruct (exec_at r s) as [[s' c]|] eqn:He; [|contradiction].
    eexists. split; [apply search_here; exact He|]. cbn [matched after caps].
    destruct (exec_at_sound _ _ He) as (w & -> & _). rewrite firstn_app_length.
    split; [reflexivity | exact He]. }
  induction pre as [|a pre IH]; intro p0.
  - destruct (Hhere s1 p0 Hs1) as (f & Hf & Hm & He).
    exists f, [], []. repeat split; assumption.
  - destruct (exec_at r ((a :: pre) ++ s1)) as [[s' c]|] eqn:Ha.
    + destruct (Hhere ((a :: pre) ++ s1) p0) as (f & Hf & Hm & He); [congruence|].
      exists f, [], (a :: pre). repeat split; assumption.
    + destruct (IH (a :: p0)) as (f & skipped & rest_pre & Hf & Hp & Hm & He).
      exists f, (a :: skipped), rest_pre. cbn [app search]. cbn [app] in Ha. rewrite Ha.
      repeat split; try assumption. rewrite Hp. reflexivity.
Qed.

Lemma prefix_before_terminator (m x p y : str) (a : ascii) :
  line_text m -> is_line_terminator a = true -> m ++ x = p ++ a :: y ->
  exists p', p = m ++ p' /\ x = p' ++ a :: y.
Proof.
  intros Hm Ha. revert p. induction Hm as [|h m Hh Hm IH]; intros p H.
  - exists p. split; [reflexivity | exact H].
  - destruct p as [|h' p]; cbn [app] in H.
    + injection H as -> _. congruence.
    + injection H as -> H. destruct (IH p H) as (p' & -> & ->).
      exists p'. split; reflexivity.
Qed.

Lemma nonempty_suffix_ends (skipped rest_pre p : str) (a : ascii) :
  skipped ++ rest_pre = p ++ [a] -> rest_pre <> [] -> exists q, rest_pre = q ++ [a].
Proof.
  intros H Hne. destruct (exists_last Hne) as (q & b & ->).
  rewrite app_assoc in H. apply app_inj_tail in H. destruct H as [_ ->].
  exists q. reflexivity.
Qed.

(** A checkbox line at the start of a line of the scanned text is among the
    matches, with the URL and the text after it as group 1. *)
Lemma scan_finds_line (box : ascii) (owner repo kind number trailing rest : str) :
  (box = " " \/ box = "x")%char ->
  url_parts owner repo kind number ->
  line_text trailing ->
  at_line_end rest ->
  forall fuel preceding p0,
    at_line_start preceding ->
    length (preceding ++ lit "- [" ++ [box] ++ lit "] "
              ++ (forge_url owner repo kind number ++ trailing) ++ rest) < fuel ->
    exists f,
      In f (search_all checklistItemRegex fuel p0
              (preceding ++ lit "- [" ++ [box] ++ lit "] "
                 ++ (forge_url owner repo kind number ++ trailing) ++ rest))
      /\ get_cap 1 (caps f) = Some (forge_url owner repo kind number ++ trailing).
Proof.
  intros Hbox Hparts Htrail Hrest.
  destruct (item_match_here Hbox Hparts Htrail Hrest) as (c & Hexec & Hcap).
  remember (lit "- [" ++ [box] ++ lit "] "
              ++ (forge_url owner repo kind number ++ trailing) ++ rest) as s1 eqn:Hs1.
  clear Hs1.
  induction fuel as [|fuel IH]; intros preceding p0 Hstart Hlen; [inversion Hlen|].
  assert (Hsome : exec_at checklistItemRegex s1 <> None) by congruence.
  destruct (@search_leftmost _ _ Hsome preceding p0)
    as (f & skipped & rest_pre & Hf & Hp & Hm & He).
  cbn [search_all]. rewrite Hf.
  destruct rest_pre as [|b rp].
  - exists f. split; [left; reflexivity|].
    cbn [app] in Hm. rewrite Hm, Hexec in He. injection He as _ <-. exact Hcap.
  - destruct Hstart as [->|(p & a & Hpa & Ha)];
      [destruct skipped; discriminate Hp|].
    rewrite Hpa in Hp.
    destruct (@nonempty_suffix_ends skipped (b :: rp) p a (eq_sym Hp)) as (q & Hq);
      [discriminate|].
    rewrite Hq, <- app_assoc in Hm. cbn [app] in Hm.
    destruct (checklist_item_shape _ He)
      as (box' & u & t & Hshape0 & Hbox' & _ & Hline & _ & _).
    assert (Hshape : matched f = lit "- [" ++ [box'] ++ lit "] " ++ (u ++ t)).
    { apply (app_inv_tail (after f)). rewrite Hshape0, <- !app_assoc. reflexivity. }
    assert (Hmline : line_text (matched f)).
    { rewrite Hshape. unfold line_text.
      apply Forall_app. split; [repeat constructor|].
      apply Forall_app. split;
        [constructor; [destruct Hbox' as [->| ->]; reflexivity | constructor]|].
      apply Forall_app. split; [repeat constructor | exact Hline]. }
    destruct (@prefix_before_terminator _ _ _ _ _ Hmline Ha Hm) as (q' & Hq' & Hafter).
    assert (Hne : matched f <> []) by (rewrite Hshape; discriminate).
    destruct (IH (q' ++ [a]) []) as (f' & Hin & Hcap').
    + right. exists q', a. split; [reflexivity | exact Ha].
    + assert (Hpre : preceding = skipped ++ matched f ++ q' ++ [a])
        by (rewrite Hpa, Hp, Hq, Hq', <- !app_assoc; reflexivity).
      rewrite Hpre in Hlen. rewrite !length_app in Hlen. rewrite !length_app.
      cbn [length] in *. destruct (matched f); [contradiction|]. cbn [length] in Hlen. lia.
    + exists f'. split; [|exact Hcap'].
      right. destruct (matched f) as [|m ms]; [contradiction|].
      rewrite Hafter. rewrite <- app_assoc in Hin. cbn [app] in Hin. exact Hin.
Qed.

Lemma checklistItems_complete
  (box : ascii) (owner repo kind number trailing preceding following : str) :
  (box = " " \/ box = "x")%char ->
  url_parts owner repo kind number ->
  line_text trailing ->
  at_line_start preceding ->
  In (Some (forge_url owner repo kind number ++ trailing))
    (checklistItems
       (preceding ++ checkbox_line box (forge_url owner repo kind number ++ trailing)
          ++ following)).
Proof.
  intros Hbox Hparts Htrail Hstart.
  assert (Hrest : at_line_end (CRLF ++ following)).
  { right. exists CR, (LF :: following). split; reflexivity. }
  assert (Htext : preceding ++ checkbox_line box (forge_url owner repo kind number ++ trailing)
                    ++ following
                  = preceding ++ lit "- [" ++ [box] ++ lit "] "
                      ++ (forge_url owner repo kind number ++ trailing) ++ CRLF ++ following).
  { unfold checkbox_line. rewrite <- !app_assoc. reflexivity. }
  rewrite Htext.
  destruct (@scan_finds_line box owner repo kind number trailing (CRLF ++ following)
              Hbox Hparts Htrail Hrest
              (S (length (preceding ++ lit "- [" ++ [box] ++ lit "] "
                            ++ (forge_url owner repo kind number ++ trailing)
                            ++ CRLF ++ following)))
              preceding [] Hstart (Nat.lt_succ_diag_r _)) as (f & Hin & Hcap).
  unfold checklistItems, String_matchAll, all_matches. rewrite map_map.
  apply in_map_iff. exists f. split; [|exact Hin].
  change (nth 1 (match_array checklistItemRegex f) None) with (get_cap 1 (caps f)).
  exact Hcap.
Qed.

(** C10: every entry of a decoded pull-request or deploy-blocker list is the
    text of the body from the start of a URL, right after a checkbox, up to
    the line terminator that ends the line: the URL [u] and all the text [t]
    that follows it on its line.  And a checkbox line of either section that
    starts on a line of its own and holds a URL of the forge followed by any
    text is decoded to the entry made of that URL and that text. *)
Theorem decoded_entry_is_rest_of_line :
  (forall (issue : Issue) (d : StagingDeployCashData) (entry : option str),
      getStagingDeployCashData issue = Ok d ->
      In entry (PRList d) \/ In entry (deployBlockers d) ->
      exists body before_ box u t a after_,
        issue_body issue = Some body
        /\ body = before_ ++ lit "- [" ++ [box] ++ lit "] " ++ (u ++ t) ++ a :: after_
        /\ entry = Some (u ++ t)
        /\ (box = " " \/ box = "x")%char
        /\ matches (url_core pull_or_issues 2) u
        /\ line_text (u ++ t)
        /\ is_line_terminator a = true)
  /\ (forall (issue : Issue) (d : StagingDeployCashData)
        (body section preceding following : str)
        (box : ascii) (owner repo kind number trailing : str),
        getStagingDeployCashData issue = Ok d ->
        issue_body issue = Some body ->
        section = preceding ++ checkbox_line box (forge_url owner repo kind number ++ trailing)
                    ++ following ->
        at_line_start preceding ->
        (box = " " \/ box = "x")%char ->
        url_parts owner repo kind number ->
        line_text trailing ->
        (first_group PRListSectionRegex body = Ok section ->
         In (Some (forge_url owner repo kind number ++ trailing)) (PRList d))
        /\ (first_group deployBlockerSectionRegex body = Ok section ->
            In (Some (forge_url owner repo kind number ++ trailing)) (deployBlockers d))).
Proof.
  split.
  - intros issue d entry Hd Hentry.
    destruct (decode_ok_sections _ Hd) as (body & sec1 & sec2 & Hbody & Hs1 & Hp & Hs2 & Hb).
    assert (Hsec : exists section,
               (first_group PRListSectionRegex body = Ok section
                \/ first_group deployBlockerSectionRegex body = Ok section)
               /\ In entry (checklistItems section)).
    { destruct Hentry as [H|H]; [exists sec1 | exists sec2]; split; auto; congruence. }
    destruct Hsec as (section & Hsection & Hin).
    destruct (section_in_body _ Hsection) as (preceding & following & w' & Hcut & Hlines).
    destruct (@section_entry_in_body _ _ _ _ _ _ Hcut Hlines Hin)
      as (before_ & box & u & t & a & after_ & H1 & H2 & H3 & H4 & H5 & H6).
    exists body, before_, box, u, t, a, after_. repeat split; assumption.
  - intros issue d body section preceding following box owner repo kind number trailing
      Hd Hbody Hsection Hstart Hbox Hparts Htrail.
    destruct (decode_ok_sections _ Hd) as (body' & sec1 & sec2 & Hbody' & Hs1 & Hp & Hs2 & Hb).
    rewrite Hbody in Hbody'. injection Hbody' as <-.
    pose proof (@checklistItems_complete _ _ _ _ _ _ _ following Hbox Hparts Htrail Hstart) as Hin.
    rewrite <- Hsection in Hin.
    split; intro Hfirst.
    + rewrite Hfirst in Hs1. apply Ok_inj in Hs1. subst sec1. rewrite Hp. exact Hin.
    + rewrite Hfirst in Hs2. apply Ok_inj in Hs2. subst sec2. rewrite Hb. exact Hin.
Qed.

(** A checklist body whose first pull-request line carries a remark after
    the URL. *)
Definition body_with_remark : str :=
  lit "**Release Version:** 1.0.1-472" ++ CRLF
  ++ lit "**Compare Changes:** https://github.com/Expensify/Expensify.cash/compare/1.0.1-400...1.0.1-472"
  ++ CRLF
  ++ lit "**This release contains changes from the following pull requests:**" ++ CRLF
  ++ lit "- [ ] https://github.com/Expensify/Expensify.cash/pull/21 (needs QA)" ++ CRLF
  ++ lit "- [x] https://github.com/Expensify/Expensify.cash/pull/22" ++ CRLF
  ++ CRLF
  ++ lit "**Deploy Blockers:**" ++ CRLF
  ++ lit "- [ ] https://github.com/Expensify/Expensify.cash/issues/1" ++ CRLF.

Definition decoded_body_with_remark : StagingDeployCashData :=
  {| title := lit "Deploy Checklist"; url := lit "https://api.github.com/issues/1";
     labels := [STAGING_DEPLOY_CASH_LABEL];
     tag := lit "1.0.1-472";
     comparisonURL :=
       lit "https://github.com/Expensify/Expensify.cash/compare/1.0.1-400...1.0.1-472";
     PRList := [Some (lit "https://github.com/Expensify/Expensify.cash/pull/21 (needs QA)");
                Some (lit "https://github.com/Expensify/Expensify.cash/pull/22")];
     deployBlockers := [Some (lit "https://github.com/Expensify/Expensify.cash/issues/1")] |}.

(** The decoder keeps the remark in the entry. *)
Lemma decode_body_with_remark :
  getStagingDeployCashData (issue_with_body body_with_remark) = Ok decoded_body_with_remark.
Proof.
  vm_compute. reflexivity.
Qed.

Lemma decoded_entry_is_rest_of_line_witness :
  (exists body before_ box u t a after_,
      issue_body (issue_with_body body_with_remark) = Some body
      /\ body = before_ ++ lit "- [" ++ [box] ++ lit "] " ++ (u ++ t) ++ a :: after_
      /\ Some (lit "https://github.com/Expensify/Expensify.cash/pull/21 (needs QA)")
         = Some (u ++ t)
      /\ (box = " " \/ box = "x")%char
      /\ matches (url_core pull_or_issues 2) u
      /\ line_text (u ++ t)
      /\ is_line_terminator a = true)
  /\ In (Some (forge_url (lit "Expensify") (lit "Expensify.cash") (lit "pull") (lit "21")
                 ++ lit " (needs QA)"))
       (PRList decoded_body_with_remark).
Proof.
  split.
  - apply (proj1 decoded_entry_is_rest_of_line
             (issue_with_body body_with_remark) decoded_body_with_remark).
    + vm_compute. reflexivity.
    + left. left. reflexivity.
  - apply (proj2 decoded_entry_is_rest_of_line
             (issue_with_body body_with_remark) decoded_body_with_remark body_with_remark
             (checkbox_line " " (forge_url (lit "Expensify") (lit "Expensify.cash") (lit "pull")
                                   (lit "21") ++ lit " (needs QA)")
                ++ lit "- [x] https://github.com/Expensify/Expensify.cash/pull/22" ++ CRLF)
             [] (lit "- [x] https://github.com/Expensify/Expensify.cash/pull/22" ++ CRLF)
             " "%char (lit "Expensify") (lit "Expensify.cash") (lit "pull") (lit "21")
             (lit " (needs QA)")).
    + vm_compute. reflexivity.
    + reflexivity.
    + reflexivity.
    + left. reflexivity.
    + left. reflexivity.
    + repeat split; try (repeat constructor; fail); try discriminate.
    + repeat constructor.
    + vm_compute. reflexivity.
Defined.

(** ** The match arrays of the URL parsers

    Group 1 of a URL pattern takes part in every match and holds decimal
    digits only, which is what [number_from_match] relies on. *)

Lemma derives_Cat_inv (r1 r2 : regex) (w : str) (c c' : captures) :
  derives (Cat r1 r2) w c c' ->
  exists w1 w2 c1, w = w1 ++ w2 /\ derives r1 w1 c c1 /\ derives r2 w2 c1 c'.
Proof.
  intro H. inversion H as [ | | | | | q1 q2 w1 w2 d d1 d2 H1 H2 | | | | | ]; subst.
  exists w1, w2, d1. repeat split; assumption.
Qed.

Lemma derives_digits (r : regex) (w : str) (c c' : captures) :
  derives r w c c' -> r = Star digit -> Forall (fun a => is_digit a = true) w.
Proof.
  induction 1 as [ | | | | | | | | r c
                 | r w1 w2 c c1 c2 H1 IH1 H2 IH2 | ]; intro Hr; try discriminate.
  - constructor.
  - injection Hr as ->. apply Forall_app. split; [|apply IH2; reflexivity].
    inversion H1 as [ | | | rs a c0 Ha | | | | | | | ]; subst.
    unfold in_class, in_range in Ha. cbn [existsb fst snd] in Ha.
    rewrite orb_false_r in Ha. constructor; [exact Ha | constructor].
Qed.

Lemma derives_digits1 (w : str) (c c' : captures) : derives digits1 w c c' -> digits_text w.
Proof.
  intro H. apply derives_Cat_inv in H. destruct H as (w1 & w2 & c1 & -> & H1 & H2).
  inversion H1 as [ | | | rs a c0 Ha | | | | | | | ]; subst.
  unfold in_class, in_range in Ha. cbn [existsb fst snd] in Ha. rewrite orb_false_r in Ha.
  split; [discriminate|]. constructor; [exact Ha|]. exact (derives_digits H2 eq_refl).
Qed.

Lemma url_pattern_group (kind : regex) (g : nat) (w : str) (c c' : captures) :
  derives (url_pattern kind g) w c c' ->
  exists n, get_cap g c' = Some n /\ digits_text n.
Proof.
  unfold url_pattern. intro H.
  apply derives_Cat_inv in H. destruct H as (w1 & w2 & c1 & -> & H & Htail).
  rewrite (derives_no_groups Htail eq_refl).
  change (url_core kind g)
    with (Cat GITHUB_BASE_URL_REGEX
            (Cat (Chr "/") (Cat (Star Dot) (Cat (Chr "/") (Cat (Star Dot)
               (Cat (Chr "/") (Cat kind (Cat (Chr "/") (Cat (Grp g digits1) Eps)))))))))
    in H.
  do 8 (apply derives_Cat_inv in H; destruct H as (? & ? & ? & -> & _ & H)).
  apply derives_Cat_inv in H. destruct H as (n & ? & c2 & -> & Hn & Heps).
  inversion Heps; subst.
  inversion Hn as [ | | | | | | | | | | i r w0 d d1 Hd ]; subst.
  exists n. split; [cbn [get_cap set_cap]; rewrite Nat.eqb_refl; reflexivity|].
  exact (derives_digits1 Hd).
Qed.

(** What [URL.match] returns for a parser's pattern: [null], or the matched
    text and a run of digits. *)
Lemma parser_match_array (kind : regex) (URL : str) (matches_ : list (option str)) :
  ngroups kind = 0 ->
  String_match (url_pattern kind 1) URL = Some matches_ ->
  exists w n, matches_ = [Some w; Some n] /\ digits_text n.
Proof.
  intros Hkind. unfold String_match, exec.
  destruct (search (url_pattern kind 1) [] URL) as [f|] eqn:Hs; [|discriminate].
  cbn [option_map]. intro H. injection H as <-.
  destruct (search_sound _ _ _ Hs) as (skipped & _ & He).
  destruct (exec_at_sound _ _ He) as (w & _ & Hw).
  destruct (url_pattern_group Hw) as (n & Hn & Hdigits).
  exists (matched f), n. split; [|exact Hdigits].
  unfold match_array.
  replace (ngroups (url_pattern kind 1)) with 1
    by (cbn [ngroups url_pattern url_core Seq fold_right]; rewrite Hkind; reflexivity).
  cbn [seq map]. rewrite Hn. reflexivity.
Qed.

(** ** The parsers on every URL of the usual shape

    For a URL [https://github.com/owner/repo/kind/number] whose owner and
    repository hold no slash, the only way to match a URL pattern is the
    expected one, and the greedy digits take the whole number. *)

Definition slash_free (w : str) : Prop := ~ In "/"%char w.

Definition count_slash (w : str) : nat := count_occ ascii_dec w "/"%char.

Lemma count_slash_app (a b : str) : count_slash (a ++ b) = count_slash a + count_slash b.
Proof.
  apply count_occ_app.
Qed.

Lemma count_slash_free (w : str) : slash_free w <-> count_slash w = 0.
Proof.
  apply count_occ_not_In.
Qed.

Lemma split_at_slash_unique (a a' r r' : str) :
  slash_free a -> slash_free a' -> a ++ "/"%char :: r = a' ++ "/"%char :: r' -> a = a' /\ r = r'.
Proof.
  revert a'. induction a as [|b a IH]; intros a' Ha Ha' H.
  - destruct a' as [|b' a']; cbn [app] in H.
    + injection H as ->. split; reflexivity.
    + injection H as <- _. exfalso. apply Ha'. left. reflexivity.
  - destruct a' as [|b' a']; cbn [app] in H.
    + injection H as -> _. exfalso. apply Ha. left. reflexivity.
    + injection H as -> H. destruct (IH a') as [-> ->]; [| |exact H|split; reflexivity].
      * intro Hin. apply Ha. right. exact Hin.
      * intro Hin. apply Ha'. right. exact Hin.
Qed.

Lemma derives_Alt_inv (r1 r2 : regex) (w : str) (c c' : captures) :
  derives (Alt r1 r2) w c c' -> derives r1 w c c' \/ derives r2 w c c'.
Proof.
  intro H. inversion H; subst; [left | right]; assumption.
Qed.

(** The four texts of the base pattern. *)
Lemma derives_base_url (w : str) (c c' : captures) :
  derives GITHUB_BASE_URL_REGEX w c c' ->
  c' = c
  /\ (w = lit "https://github.com" \/ w = lit "http://github.com"
      \/ w = lit "https://api.github.com" \/ w = lit "http://api.github.com").
Proof.
  intro H. split; [exact (derives_no_groups H eq_refl)|].
  change GITHUB_BASE_URL_REGEX
    with (Cat (Lit (lit "http")) (Cat (Alt (Chr "s") Eps) (Cat (Lit (lit "://"))
            (Cat (Alt (Lit (lit "github.com")) (Lit (lit "api.github.com"))) Eps)))) in H.
  apply derives_Cat_inv in H. destruct H as (w1 & w2 & c1 & -> & H1 & H).
  apply derives_Lit in H1. destruct H1 as [-> _].
  apply derives_Cat_inv in H. destruct H as (w3 & w4 & c2 & -> & H3 & H).
  apply derives_Cat_inv in H. destruct H as (w5 & w6 & c3 & -> & H5 & H).
  apply derives_Lit in H5. destruct H5 as [-> _].
  apply derives_Cat_inv in H. destruct H as (w7 & w8 & c4 & -> & H7 & H8).
  inversion H8; subst.
  apply derives_Alt_inv in H3. apply derives_Alt_inv in H7.
  destruct H3 as [H3|H3]; inversion H3; subst;
    destruct H7 as [H7|H7]; apply derives_Lit in H7; destruct H7 as [-> _]; cbn; tauto.
Qed.

(** The pieces of a match of a URL pattern up to the digits, laid over a
    URL of the usual shape, are the pieces of that URL. *)
Lemma forge_url_pieces (B x y K rest owner repo kind number : str) :
  (B = lit "https://github.com" \/ B = lit "http://github.com"
   \/ B = lit "https://api.github.com" \/ B = lit "http://api.github.com") ->
  slash_free owner -> slash_free repo -> slash_free kind -> slash_free number ->
  B ++ lit "/" ++ x ++ lit "/" ++ y ++ lit "/" ++ K ++ lit "/" ++ rest
  = forge_url owner repo kind number ->
  B = lit "https://github.com" /\ x = owner /\ y = repo /\ K = kind /\ rest = number.
Proof.
  intros HB Ho Hr Hk Hn H. unfold forge_url in H.
  destruct HB as [->|[->|[->| ->]]]; try (cbn in H; discriminate H).
  apply app_inv_head in H. apply app_inv_head in H.
  assert (Hcount : count_slash x + count_slash y + count_slash K + count_slash rest = 0).
  { apply (f_equal count_slash) in H. rewrite !count_slash_app in H.
    apply count_slash_free in Ho, Hr, Hk, Hn. rewrite Ho, Hr, Hk, Hn in H.
    change (count_slash (lit "/")) with 1 in H. lia. }
  assert (Hx : slash_free x) by (apply count_slash_free; lia).
  assert (Hy : slash_free y) by (apply count_slash_free; lia).
  assert (HK : slash_free K) by (apply count_slash_free; lia).
  apply split_at_slash_unique in H; try assumption. destruct H as [-> H].
  apply split_at_slash_unique in H; try assumption. destruct H as [-> H].
  apply split_at_slash_unique in H; try assumption. destruct H as [-> H].
  repeat split; assumption || reflexivity.
Qed.

(** Greedy digits in front of a continuation that accepts the end of the
    text take all of a run of digits. *)
Lemma digits_take_all (R : Type) (k : cont R) :
  forall fuel ds c,
    length ds <= fuel ->
    Forall (fun a => is_digit a = true) ds ->
    k [] c <> None ->
    repeat_matcher (run (R := R) digit) fuel ds c k = k [] c.
Proof.
  induction fuel as [|fuel IH]; intros ds c Hlen Hds Hk.
  - destruct ds; [reflexivity | cbn in Hlen; lia].
  - destruct ds as [|d ds]; [apply repeat_matcher_at_end|].
    inversion Hds as [|d' ds' Hd Hds']; subst. cbn [repeat_matcher].
    unfold digit at 1. cbn [run]. unfold in_class, in_range. cbn [existsb fst snd].
    unfold is_digit in Hd. cbn [nat_of_ascii] in *. rewrite orb_false_r.
    change (nat_of_ascii "0") with 48. change (nat_of_ascii "9") with 57.
    rewrite Hd. cbn [length].
    replace (length ds <? S (length ds)) with true by (symmetry; apply Nat.ltb_lt; lia).
    cbn [length] in Hlen. rewrite IH by (assumption || lia).
    destruct (k [] c) as [v|] eqn:Hv; [reflexivity | contradiction].
Qed.

Lemma run_Cat_eq (R : Type) (r1 r2 : regex) s c (k : cont R) :
  run (Cat r1 r2) s c k = run r1 s c (fun s' c' => run r2 s' c' k).
Proof.
  reflexivity.
Qed.

Lemma run_group_digits (R : Type) (g : nat) (ds : str) (c : captures) (k : cont R) :
  digits_text ds ->
  k [] (set_cap g ds c) <> None ->
  run (Grp g digits1) ds c k = k [] (set_cap g ds c).
Proof.
  intros [Hne Hds] Hk. destruct ds as [|d ds]; [contradiction|].
  inversion Hds as [|d' ds' Hd Hds']; subst.
  cbn [run digits1 Plus]. unfold digit at 1. cbn [run].
  unfold in_class, in_range. cbn [existsb fst snd]. rewrite orb_false_r.
  unfold is_digit in Hd. change (nat_of_ascii "0") with 48. change (nat_of_ascii "9") with 57.
  rewrite Hd.
  assert (Hfirst : firstn (length (d :: ds) - length (@nil ascii)) (d :: ds) = d :: ds).
  { cbn [length]. rewrite Nat.sub_0_r. apply (firstn_all (d :: ds)). }
  rewrite digits_take_all; try assumption; try apply Nat.le_refl; cbv beta;
    rewrite Hfirst; [reflexivity | exact Hk].
Qed.

Lemma digits_slash_free (w : str) : Forall (fun a => is_digit a = true) w -> slash_free w.
Proof.
  unfold slash_free. intros H Hin. rewrite Forall_forall in H. apply H in Hin.
  discriminate Hin.
Qed.

(** A match of a URL pattern at the head of a URL of the usual shape: it
    takes the whole URL, its kind is the URL's, and group 1 is the
    number. *)
Lemma url_pattern_on_forge_url
  (kind_re : regex) (owner repo kind number s' : str) (c : captures) :
  ngroups kind_re = 0 ->
  slash_free owner -> slash_free repo -> slash_free kind -> digits_text number ->
  exec_at (url_pattern kind_re 1) (forge_url owner repo kind number) = Some (s', c) ->
  s' = [] /\ c = set_cap 1 number [] /\ matches kind_re kind.
Proof.
  intros Hkind Ho Hr Hk Hn. unfold exec_at, url_pattern.
  change (url_core kind_re 1)
    with (Cat GITHUB_BASE_URL_REGEX
            (Cat (Chr "/") (Cat (Star Dot) (Cat (Chr "/") (Cat (Star Dot)
               (Cat (Chr "/") (Cat kind_re (Cat (Chr "/") (Cat (Grp 1 digits1) Eps))))))))).
  rewrite run_Cat_eq. intro H.
  apply run_Cat_sound in H. destruct H as (B & s1 & c1 & E1 & HB & H).
  apply derives_base_url in HB. destruct HB as [-> HB].
  apply run_Cat_sound in H. destruct H as (w2 & s2 & c2 & -> & H2 & H).
  inversion H2; subst.
  apply run_Cat_sound in H. destruct H as (x & s3 & c3 & -> & Hx & H).
  pose proof (derives_no_groups Hx eq_refl) as Hc3. subst c3.
  apply run_Cat_sound in H. destruct H as (w4 & s4 & c4 & -> & H4 & H).
  inversion H4; subst.
  apply run_Cat_sound in H. destruct H as (y & s5 & c5 & -> & Hy & H).
  pose proof (derives_no_groups Hy eq_refl) as Hc5. subst c5.
  apply run_Cat_sound in H. destruct H as (w6 & s6 & c6 & -> & H6 & H).
  inversion H6; subst.
  apply run_Cat_sound in H. destruct H as (K & s7 & c7 & -> & HK & H).
  pose proof (derives_no_groups HK Hkind) as Hc7. subst c7.
  apply run_Cat_sound in H. destruct H as (w8 & s8 & c8 & -> & H8 & H).
  inversion H8; subst.
  symmetry in E1.
  apply (@forge_url_pieces B x y K s8 owner repo kind number HB Ho Hr Hk
           (digits_slash_free (proj2 Hn))) in E1.
  destruct E1 as (_ & _ & _ & -> & ->).
  rewrite run_Cat_eq in H. rewrite run_group_digits in H; [|exact Hn|].
  - cbn in H. injection H as <- <-. repeat split. exists [], []. exact HK.
  - cbn. discriminate.
Qed.

Lemma search_none (r : regex) (s : str) :
  (forall p suffix, s = p ++ suffix -> exec_at r suffix = None) ->
  forall pre, search r pre s = None.
Proof.
  induction s as [|a s IH]; intros Hall pre; cbn [search].
  - rewrite (Hall [] [] eq_refl). reflexivity.
  - rewrite (Hall [] (a :: s) eq_refl). apply IH.
    intros p suffix ->. apply (Hall (a :: p)). reflexivity.
Qed.

Lemma forge_url_matches_core (kind_re : regex) (g : nat) (owner repo kind number : str) :
  line_text owner -> line_text repo -> matches kind_re kind -> digits_text number ->
  matches (url_core kind_re g) (forge_url owner repo kind number).
Proof.
  intros Ho Hr Hk Hn. unfold forge_url. rewrite <- (app_nil_r number).
  change (url_core kind_re g)
    with (Cat GITHUB_BASE_URL_REGEX
            (Cat (Chr "/") (Cat (Star Dot) (Cat (Chr "/") (Cat (Star Dot)
               (Cat (Chr "/") (Cat kind_re (Cat (Chr "/") (Cat (Grp g digits1) Eps))))))))).
  apply matches_Cat; [apply matches_base_url|].
  apply matches_Cat; [apply matches_Chr|].
  apply matches_Cat; [apply matches_wildcard; exact Ho|].
  apply matches_Cat; [apply matches_Chr|].
  apply matches_Cat; [apply matches_wildcard; exact Hr|].
  apply matches_Cat; [apply matches_Chr|].
  apply matches_Cat; [exact Hk|].
  apply matches_Cat; [apply matches_Chr|].
  apply matches_Cat; [apply matches_Grp; apply matches_digits1; exact Hn | apply matches_Eps].
Qed.

Lemma forge_url_matches_pattern (kind_re : regex) (g : nat) (owner repo kind number : str) :
  line_text owner -> line_text repo -> matches kind_re kind -> digits_text number ->
  matches (url_pattern kind_re g) (forge_url owner repo kind number).
Proof.
  intros Ho Hr Hk Hn. rewrite <- (app_nil_r (forge_url owner repo kind number)).
  unfold url_pattern. apply matches_Cat.
  - apply forge_url_matches_core; assumption.
  - apply matches_wildcard. constructor.
Qed.

(** The owner or the repository of a URL: one line, no slash. *)
Definition name_text (w : str) : Prop := line_text w /\ slash_free w.

(** [URL.match] on a URL of the usual shape, for a pattern of its kind: the
    URL and its number. *)
Lemma match_on_forge_url (kind_re : regex) (owner repo kind number : str) :
  ngroups kind_re = 0 -> eos_free kind_re = true ->
  matches kind_re kind -> slash_free kind ->
  name_text owner -> name_text repo -> digits_text number ->
  String_match (url_pattern kind_re 1) (forge_url owner repo kind number)
  = Some [Some (forge_url owner repo kind number); Some number].
Proof.
  intros Hgroups Heos Hkind Hslash [Ho Ho'] [Hr Hr'] Hn.
  pose proof (@forge_url_matches_pattern kind_re 1 owner repo kind number Ho Hr Hkind Hn) as Hm.
  assert (Hfree : eos_free (url_pattern kind_re 1) = true).
  { cbn [eos_free url_pattern url_core Seq fold_right]. rewrite Heos. reflexivity. }
  destruct (@exec_at_complete _ _ [] Hm Hfree) as (s'' & c & He).
  rewrite app_nil_r in He.
  destruct (@url_pattern_on_forge_url _ _ _ _ _ _ _ Hgroups Ho' Hr' Hslash Hn He) as (-> & -> & _).
  unfold String_match, exec. rewrite (@search_here _ [] _ _ _ He). cbn [option_map].
  unfold match_array. cbn [matched caps length]. rewrite Nat.sub_0_r, firstn_all.
  replace (ngroups (url_pattern kind_re 1)) with 1
    by (cbn [ngroups url_pattern url_core Seq fold_right]; rewrite Hgroups; reflexivity).
  reflexivity.
Qed.

(** What a match of a URL pattern spells: a base URL, then text with four
    slashes at least. *)
Lemma url_pattern_text (kind_re : regex) (g : nat) (w : str) (c c' : captures) :
  derives (url_pattern kind_re g) w c c' ->
  exists B rest,
    w = B ++ rest
    /\ (B = lit "https://github.com" \/ B = lit "http://github.com"
        \/ B = lit "https://api.github.com" \/ B = lit "http://api.github.com")
    /\ 4 <= count_slash rest.
Proof.
  unfold url_pattern. intro H.
  apply derives_Cat_inv in H. destruct H as (core & tail & c1 & -> & H & _).
  change (url_core kind_re g)
    with (Cat GITHUB_BASE_URL_REGEX
            (Cat (Chr "/") (Cat (Star Dot) (Cat (Chr "/") (Cat (Star Dot)
               (Cat (Chr "/") (Cat kind_re (Cat (Chr "/") (Cat (Grp g digits1) Eps)))))))))
    in H.
  apply derives_Cat_inv in H. destruct H as (B & r1 & d1 & -> & HB & H).
  apply derives_base_url in HB. destruct HB as [_ HB].
  apply derives_Cat_inv in H. destruct H as (w2 & r2 & d2 & -> & H2 & H).
  inversion H2; subst.
  apply derives_Cat_inv in H. destruct H as (x & r3 & d3 & -> & _ & H).
  apply derives_Cat_inv in H. destruct H as (w4 & r4 & d4 & -> & H4 & H).
  inversion H4; subst.
  apply derives_Cat_inv in H. destruct H as (y & r5 & d5 & -> & _ & H).
  apply derives_Cat_inv in H. destruct H as (w6 & r6 & d6 & -> & H6 & H).
  inversion H6; subst.
  apply derives_Cat_inv in H. destruct H as (K & r7 & d7 & -> & _ & H).
  apply derives_Cat_inv in H. destruct H as (w8 & r8 & d8 & -> & H8 & H).
  inversion H8; subst.
  exists B, ((["/"%char] ++ x ++ ["/"%char] ++ y ++ ["/"%char] ++ K ++ ["/"%char] ++ r8) ++ tail).
  split; [rewrite <- app_assoc; reflexivity|]. split; [exact HB|].
  rewrite !count_slash_app.
  change (count_slash ["/"%char]) with 1. lia.
Qed.

Lemma count_slash_forge_url (owner repo kind number : str) :
  slash_free owner -> slash_free repo -> slash_free kind -> slash_free number ->
  count_slash (forge_url owner repo kind number) = 6.
Proof.
  intros Ho Hr Hk Hn. unfold forge_url. rewrite !count_slash_app.
  apply count_slash_free in Ho, Hr, Hk, Hn. rewrite Ho, Hr, Hk, Hn. reflexivity.
Qed.

(** No match of a URL pattern starts inside a URL of the usual shape: too
    few slashes are left. *)
Lemma no_match_inside_forge_url
  (kind_re : regex) (g : nat) (owner repo kind number p suffix s' : str) (c : captures) :
  slash_free owner -> slash_free repo -> slash_free kind -> slash_free number ->
  p <> [] ->
  forge_url owner repo kind number = p ++ suffix ->
  exec_at (url_pattern kind_re g) suffix <> Some (s', c).
Proof.
  intros Ho Hr Hk Hn Hp E He.
  apply exec_at_sound in He. destruct He as (w & -> & Hw).
  apply url_pattern_text in Hw. destruct Hw as (B & rest & -> & HB & Hrest).
  pose proof (count_slash_forge_url Ho Hr Hk Hn) as Hcount.
  rewrite E in Hcount. rewrite !count_slash_app in Hcount.
  assert (HcB : count_slash B = 2) by (destruct HB as [->|[->|[->| ->]]]; reflexivity).
  assert (Hfree : slash_free p) by (apply count_slash_free; lia).
  assert (Hhead : exists B', B = lit "http" ++ B').
  { destruct HB as [->|[->|[->| ->]]]; eexists; reflexivity. }
  destruct Hhead as (B' & ->). unfold forge_url in E.
  destruct p as [|a1 [|a2 [|a3 [|a4 [|a5 [|a6 [|a7 p]]]]]]];
    try (cbn in E; discriminate E); [congruence|].
  cbn in E. injection E as _ _ _ _ _ _ E7 _.
  apply Hfree. rewrite <- E7. cbn. tauto.
Qed.

(** [URL.match] on a URL of the usual shape whose kind the pattern does not
    take: [null]. *)
Lemma no_match_on_other_kind (kind_re : regex) (owner repo kind number : str) :
  ngroups kind_re = 0 -> ~ matches kind_re kind -> slash_free kind ->
  name_text owner -> name_text repo -> digits_text number ->
  String_match (url_pattern kind_re 1) (forge_url owner repo kind number) = None.
Proof.
  intros Hgroups Hkind Hslash [_ Ho] [_ Hr] Hn.
  unfold String_match, exec. rewrite search_none; [reflexivity|].
  intros p suffix E.
  destruct (exec_at (url_pattern kind_re 1) suffix) as [[s' c]|] eqn:He; [exfalso | reflexivity].
  destruct p as [|a p].
  - cbn in E. subst suffix.
    destruct (@url_pattern_on_forge_url _ _ _ _ _ _ _ Hgroups Ho Hr Hslash Hn He) as (_ & _ & Hm).
    exact (Hkind Hm).
  - refine (@no_match_inside_forge_url kind_re 1 owner repo kind number (a :: p) suffix s' c
              Ho Hr Hslash (digits_slash_free (proj2 Hn)) _ E He).
    discriminate.
Qed.

Lemma slash_free_pull : slash_free (lit "pull").
Proof.
  intro H. cbn in H. repeat (destruct H as [H|H]; [discriminate H|]). exact H.
Qed.

Lemma slash_free_issues : slash_free (lit "issues").
Proof.
  intro H. cbn in H. repeat (destruct H as [H|H]; [discriminate H|]). exact H.
Qed.

(** The pull-request parser reads the number of every pull-request URL. *)
Lemma pull_request_number_of_url (owner repo number : str) :
  name_text owner -> name_text repo -> digits_text number ->
  getPullRequestNumberFromURL (forge_url owner repo (lit "pull") number)
  = Ok (parseInt number).
Proof.
  intros Ho Hr Hn. unfold getPullRequestNumberFromURL, PULL_REQUEST_REGEX.
  rewrite (@match_on_forge_url (Lit (lit "pull")) owner repo (lit "pull") number
             eq_refl eq_refl (matches_Lit _) slash_free_pull Ho Hr Hn).
  reflexivity.
Qed.

(** The issue parser reads the number of every issue URL. *)
Lemma issue_number_of_url (owner repo number : str) :
  name_text owner -> name_text repo -> digits_text number ->
  getIssueNumberFromURL (forge_url owner repo (lit "issues") number)
  = Ok (parseInt number).
Proof.
  intros Ho Hr Hn. unfold getIssueNumberFromURL, ISSUE_REGEX.
  rewrite (@match_on_forge_url (Lit (lit "issues")) owner repo (lit "issues") number
             eq_refl eq_refl (matches_Lit _) slash_free_issues Ho Hr Hn).
  reflexivity.
Qed.

(** The issue-or-pull-request parser reads the number of both. *)
Lemma issue_or_pull_request_number_of_url (owner repo kind number : str) :
  kind = lit "pull" \/ kind = lit "issues" ->
  name_text owner -> name_text repo -> digits_text number ->
  getIssueOrPullRequestNumberFromURL (forge_url owner repo kind number)
  = Ok (parseInt number).
Proof.
  intros Hk Ho Hr Hn.
  unfold getIssueOrPullRequestNumberFromURL, ISSUE_OR_PULL_REQUEST_REGEX.
  assert (Hm : matches (Alt (Lit (lit "pull")) (Lit (lit "issues"))) kind).
  { destruct Hk as [->| ->]; [apply matches_Alt_l | apply matches_Alt_r]; apply matches_Lit. }
  assert (Hs : slash_free kind).
  { destruct Hk as [->| ->]; [exact slash_free_pull | exact slash_free_issues]. }
  rewrite (@match_on_forge_url (Alt (Lit (lit "pull")) (Lit (lit "issues"))) owner repo kind
             number eq_refl eq_refl Hm Hs Ho Hr Hn).
  reflexivity.
Qed.

(** The issue parser throws on every pull-request URL, and the pull-request
    parser on every issue URL. *)
Lemma issue_parser_rejects_pull_request_url (owner repo number : str) :
  name_text owner -> name_text repo -> digits_text number ->
  getIssueNumberFromURL (forge_url owner repo (lit "pull") number)
  = Throw (Error (lit "Provided URL " ++ forge_url owner repo (lit "pull") number
                    ++ lit " is not a Github Issue!")).
Proof.
  intros Ho Hr Hn. unfold getIssueNumberFromURL, ISSUE_REGEX.
  rewrite (@no_match_on_other_kind (Lit (lit "issues")) owner repo (lit "pull") number
             eq_refl); try assumption; [reflexivity | | exact slash_free_pull].
  intros (c & c' & H). apply derives_Lit in H. destruct H as [H _]. discriminate H.
Qed.

Lemma pull_request_parser_rejects_issue_url (owner repo number : str) :
  name_text owner -> name_text repo -> digits_text number ->
  getPullRequestNumberFromURL (forge_url owner repo (lit "issues") number)
  = Throw (Error (lit "Provided URL " ++ forge_url owner repo (lit "issues") number
                    ++ lit " is not a Github Pull Request!")).
Proof.
  intros Ho Hr Hn. unfold getPullRequestNumberFromURL, PULL_REQUEST_REGEX.
  rewrite (@no_match_on_other_kind (Lit (lit "pull")) owner repo (lit "issues") number
             eq_refl); try assumption; [reflexivity | | exact slash_free_issues].
  intros (c & c' & H). apply derives_Lit in H. destruct H as [H _]. discriminate H.
Qed.

(** ** Bodies rendered without deploy blockers

    The pull-request pattern of the decoder needs a blank line after the
    list, and the encoder writes one only in front of the deploy-blocker
    header: a body rendered without deploy blockers has no blank line, and
    the decoder rejects it. *)

(** Lines, each closed by a line end. *)
Definition closed_lines (ls : list str) : str := concat (map (fun l => l ++ CRLF) ls).

Definition proper_line (l : str) : Prop := line_text l /\ l <> [].

Lemma line_text_split (x : str) :
  line_text x \/ exists x1 a x2, x = x1 ++ a :: x2 /\ line_text x1 /\ is_line_terminator a = true.
Proof.
  induction x as [|b x IH].
  - left. constructor.
  - destruct (is_line_terminator b) eqn:Hb.
    + right. exists [], b, x. repeat split; [constructor | exact Hb].
    + destruct IH as [IH|(x1 & a & x2 & -> & H1 & Ha)].
      * left. constructor; assumption.
      * right. exists (b :: x1), a, x2. repeat split; [constructor; assumption | exact Ha].
Qed.

Lemma closed_lines_no_blank_line (ls : list str) :
  Forall proper_line ls ->
  forall x y, closed_lines ls <> x ++ CRLF ++ CRLF ++ y.
Proof.
  unfold closed_lines.
  induction 1 as [|l ls [Hl Hne] Hls IH]; intros x y H; cbn [map concat] in H.
  - destruct x; discriminate H.
  - assert (Hend : forall z, at_line_end (CRLF ++ z)).
    { intro z. right. exists CR, (LF :: z). split; reflexivity. }
    rewrite <- app_assoc in H.
    destruct (line_text_split x) as [Hx|(x1 & a & x2 & -> & Hx1 & Ha)].
    + apply line_split_unique in H; try assumption; try apply Hend.
      destruct H as [_ H]. apply app_inv_head in H.
      destruct Hls as [|l2 ls2 [Hl2 Hne2] _]; cbn [map concat] in H; [discriminate H|].
      destruct l2 as [|b l2]; [contradiction|]. cbn [app] in H. injection H as -> _.
      inversion Hl2 as [|b' l' Hb _]; subst. discriminate Hb.
    + rewrite <- app_assoc in H. cbn [app] in H.
      apply line_split_unique in H; try assumption; try apply Hend.
      * destruct H as [_ H]. injection H as <- H.
        destruct x2 as [|b x2]; [discriminate H|]. cbn [app] in H. injection H as <- H.
        exact (IH x2 y H).
      * right. eexists. eexists. split; [reflexivity | exact Ha].
Qed.

(** A match of the pull-request section pattern shows a blank line. *)
Lemma PRListSection_needs_blank_line (body section : str) :
  first_group PRListSectionRegex body = Ok section ->
  exists x y, body = x ++ CRLF ++ CRLF ++ y.
Proof.
  intro H. apply first_group_found in H. destruct H as (f & skipped & Hs & He & _).
  apply exec_at_sound in He. destruct He as (w & Hw & Hd).
  change PRListSectionRegex
    with (Cat (Lit (lit "pull requests:**"))
            (Cat (Lit CRLF) (Cat (Grp 1 lines1) (Cat (Lit CRLF) Eps)))) in Hd.
  apply derives_Cat_inv in Hd. destruct Hd as (w1 & w2 & c1 & -> & _ & Hd).
  apply derives_Cat_inv in Hd. destruct Hd as (w3 & w4 & c2 & -> & _ & Hd).
  apply derives_Cat_inv in Hd. destruct Hd as (w5 & w6 & c3 & -> & H5 & Hd).
  apply derives_Cat_inv in Hd. destruct Hd as (w7 & w8 & c4 & -> & H7 & _).
  apply (derives_Lit CRLF) in H7. destruct H7 as [-> _].
  inversion H5 as [ | | | | | | | | | | i r w0 d d1 Hlines ]; subst.
  destruct (derives_lines1 Hlines) as (w' & ->).
  exists (skipped ++ w1 ++ w3 ++ w'), (w8 ++ after f).
  rewrite Hw, <- !app_assoc. reflexivity.
Qed.

Lemma checklist_lines_closed (checked URLs : list str) :
  checklist_lines checked URLs
  = closed_lines
      (map (fun URL =>
              (if Underscore.contains checked URL then lit "- [x]" else lit "- [ ]")
                ++ lit " " ++ URL) URLs).
Proof.
  unfold checklist_lines, closed_lines, checklist_line. rewrite map_map.
  f_equal. apply map_ext. intro URL. rewrite <- !app_assoc. reflexivity.
Qed.

(** The decoder rejects every body the encoder's callback renders without
    deploy blockers from one-line texts. *)
Lemma decoder_rejects_body_without_blockers
  (tag comparisonURL : str) (PRList verifiedPRList resolvedDeployBlockers : list str)
  (body : str) (issue : Issue) :
  line_text tag -> line_text comparisonURL -> Forall line_text PRList ->
  render_body tag comparisonURL PRList verifiedPRList [] resolvedDeployBlockers = Ok body ->
  issue_body issue = Some body ->
  getStagingDeployCashData issue = Throw MalformedChecklist.
Proof.
  intros Htag Hurl Hprs Hrender Hbody.
  apply decode_failure. right. exists body. split; [exact Hbody|].
  right. right. left.
  unfold extract_PRList.
  destruct (first_group PRListSectionRegex body) as [section|e] eqn:Hfirst;
    [|exists e; reflexivity].
  exfalso. apply PRListSection_needs_blank_line in Hfirst. destruct Hfirst as (x & y & Hxy).
  destruct (@render_body_spec _ _ _ _ _ _ _ Hrender) as (l1 & l2 & H1 & _ & Htext).
  destruct (@sortBy_spec _ _ _ _ H1) as [P1 _].
  destruct (unique_spec PRList) as [_ I1].
  assert (Hl1 : Forall line_text l1).
  { rewrite Forall_forall in *. intros u Hu. apply Hprs. apply I1.
    exact (Permutation_in _ P1 Hu). }
  set (first_line := lit "**Release Version:** " ++ tag).
  set (second_line := lit "**Compare Changes:** " ++ comparisonURL).
  set (header := lit "**This release contains changes from the following pull requests:**").
  set (box := fun URL =>
                (if Underscore.contains verifiedPRList URL then lit "- [x]" else lit "- [ ]")
                  ++ lit " " ++ URL).
  assert (Hlines : body
                   = closed_lines
                       (first_line :: second_line
                          :: (if Underscore.isEmpty PRList then []
                              else header :: map box l1))).
  { rewrite Htext. unfold PR_section, deploy_blocker_section. cbn [Underscore.isEmpty].
    rewrite app_nil_r. unfold closed_lines.
    destruct (Underscore.isEmpty PRList); cbn [map concat].
    - unfold first_line, second_line. rewrite <- !app_assoc, !app_nil_r. reflexivity.
    - rewrite checklist_lines_closed. unfold closed_lines, first_line, second_line, header.
      rewrite <- !app_assoc. reflexivity. }
  rewrite Hlines in Hxy. revert Hxy. apply closed_lines_no_blank_line.
  assert (Hbox : Forall proper_line (map box l1)).
  { apply Forall_map. rewrite Forall_forall in *. intros u Hu. unfold box. split.
    - apply Forall_app. split;
        [destruct (Underscore.contains verifiedPRList u); repeat constructor|].
      apply Forall_app. split; [repeat constructor | apply Hl1; exact Hu].
    - destruct (Underscore.contains verifiedPRList u); discriminate. }
  constructor; [split; [apply Forall_app; split; [repeat constructor | exact Htag]
                      | discriminate]|].
  constructor; [split; [apply Forall_app; split; [repeat constructor | exact Hurl]
                      | discriminate]|].
  destruct (Underscore.isEmpty PRList); [constructor|].
  constructor; [split; [repeat constructor | discriminate] | exact Hbox].
Qed.

(** ** Encoding, then decoding *)

(** The body the encoder renders for tag 1.0.1-1 and one pull request, the
    other three lists left at their default, an empty array. *)
Definition body_of_one_pull_request : str :=
  lit "**Release Version:** 1.0.1-1" ++ CRLF
  ++ lit "**Compare Changes:** https://github.com/Expensify/Expensify.cash/compare/1.0.1-0...1.0.1-1"
  ++ CRLF
  ++ lit "**This release contains changes from the following pull requests:**" ++ CRLF
  ++ lit "- [ ] https://github.com/Expensify/Expensify.cash/pull/1" ++ CRLF.

(** C4, on the code: the encoder renders [body_of_one_pull_request] for
    tag 1.0.1-1, the pull request 1 and no deploy blocker, and the decoder
    throws the malformed-checklist error on that body instead of returning
    the encoded fields; so it does on every body that the encoder's callback
    renders without deploy blockers from one-line texts. *)
Theorem decode_rejects_encoded_body :
  generateStagingDeployCashBody (octokit_listing [lit "1.0.1-1"; lit "1.0.1-0"]) (lit "1.0.1-1")
    [lit "https://github.com/Expensify/Expensify.cash/pull/1"] [] [] []
  = (Resolved (VString body_of_one_pull_request), [])
  /\ getStagingDeployCashData (issue_with_body body_of_one_pull_request)
     = Throw MalformedChecklist
  /\ (forall (tag comparisonURL : str)
         (PRList verifiedPRList resolvedDeployBlockers : list str)
         (body : str) (issue : Issue),
         line_text tag -> line_text comparisonURL -> Forall line_text PRList ->
         render_body tag comparisonURL PRList verifiedPRList [] resolvedDeployBlockers
         = Ok body ->
         issue_body issue = Some body ->
         getStagingDeployCashData issue = Throw MalformedChecklist).
Proof.
  split; [vm_compute; reflexivity|].
  split; [vm_compute; reflexivity|].
  intros tag comparisonURL PRList verifiedPRList resolvedDeployBlockers body issue.
  apply decoder_rejects_body_without_blockers.
Qed.

(** With both lists non-empty the same round trip gives the encoded fields
    back, the lists without repeats and in the order of their numbers. *)
Lemma round_trip_example :
  exists body,
    generateStagingDeployCashBody (octokit_listing [lit "1.0.1-1"; lit "1.0.1-0"]) (lit "1.0.1-1")
      [lit "https://github.com/Expensify/Expensify.cash/pull/22";
       lit "https://github.com/Expensify/Expensify.cash/pull/3";
       lit "https://github.com/Expensify/Expensify.cash/pull/22"]
      [lit "https://github.com/Expensify/Expensify.cash/pull/3"]
      [lit "https://github.com/Expensify/Expensify.cash/issues/7"] []
    = (Resolved (VString body), [])
    /\ getStagingDeployCashData (issue_with_body body)
       = Ok {| title := lit "Deploy Checklist"; url := lit "https://api.github.com/issues/1";
               labels := [STAGING_DEPLOY_CASH_LABEL];
               tag := lit "1.0.1-1";
               comparisonURL :=
                 lit "https://github.com/Expensify/Expensify.cash/compare/1.0.1-0...1.0.1-1";
               PRList := [Some (lit "https://github.com/Expensify/Expensify.cash/pull/3");
                          Some (lit "https://github.com/Expensify/Expensify.cash/pull/22")];
               deployBlockers :=
                 [Some (lit "https://github.com/Expensify/Expensify.cash/issues/7")] |}.
Proof.
  eexists. split; vm_compute; reflexivity.
Qed.

(** ** Finding the checklist issue *)

(** The one query the module sends: the open issues of Expensify/Expensify
    that carry the checklist label. *)
Definition checklist_query : ListForRepoParams :=
  {| list_owner := lit "Expensify"; list_repo := lit "Expensify";
     list_labels := lit "StagingDeployCash"; list_state := lit "open" |}.

Lemma decoder_throws_one_error (issue : Issue) (e : exn) :
  getStagingDeployCashData issue = Throw e -> e = MalformedChecklist.
Proof.
  unfold getStagingDeployCashData.
  match goal with |- try_catch ?x _ = _ -> _ => destruct x end; cbn [try_catch]; intro H.
  - discriminate H.
  - injection H as <-. reflexivity.
Qed.

Lemma getStagingDeployCash_cases (Response : Type) (issues : OctokitIssues Response) :
  getStagingDeployCash issues
  = match listForRepo issues checklist_query with
    | Pending => Pending
    | Rejected e => Rejected e
    | Resolved [] => Rejected (Error (lit "Unable to find StagingDeployCash issue."))
    | Resolved [issue] =>
        match getStagingDeployCashData issue with
        | Ok d => Resolved d
        | Throw e => Rejected e
        end
    | Resolved (_ :: _ :: _) =>
        Rejected (Error (lit "Found more than one StagingDeployCash issue."))
    end.
Proof.
  unfold getStagingDeployCash, then_.
  change {| list_owner := GITHUB_OWNER; list_repo := EXPENSIFY_ISSUE_REPO;
            list_labels := STAGING_DEPLOY_CASH_LABEL; list_state := lit "open" |}
    with checklist_query.
  destruct (listForRepo issues checklist_query) as [|[|issue [|second data]]|e]; reflexivity.
Qed.

(** X1: [getStagingDeployCash] resolves exactly when the forge lists one
    open checklist issue and the decoder accepts it, and then with the
    decoded record. *)
Theorem getStagingDeployCash_resolves_iff
  (Response : Type) (issues : OctokitIssues Response) (d : StagingDeployCashData) :
  getStagingDeployCash issues = Resolved d
  <-> exists issue,
        listForRepo issues checklist_query = Resolved [issue]
        /\ getStagingDeployCashData issue = Ok d.
Proof.
  rewrite getStagingDeployCash_cases.
  destruct (listForRepo issues checklist_query) as [|[|issue [|second data]]|e]; split;
    try discriminate; try (intros (i & H & _); discriminate H).
  - destruct (getStagingDeployCashData issue) as [d'|e'] eqn:Hd; [|discriminate].
    intro H. injection H as <-. exists issue. split; [reflexivity | exact Hd].
  - intros (i & H & Hd). injection H as <-. rewrite Hd. reflexivity.
Qed.

(** X2: the rejections of [getStagingDeployCash]: the error of the
    listing, the not-found error for an empty listing, the more-than-one
    error for two issues or more, and the malformed-checklist error when the
    one issue does not decode. *)
Theorem getStagingDeployCash_rejects_iff
  (Response : Type) (issues : OctokitIssues Response) (e : exn) :
  getStagingDeployCash issues = Rejected e
  <-> listForRepo issues checklist_query = Rejected e
      \/ (listForRepo issues checklist_query = Resolved []
          /\ e = Error (lit "Unable to find StagingDeployCash issue."))
      \/ (exists data,
            listForRepo issues checklist_query = Resolved data /\ 1 < length data
            /\ e = Error (lit "Found more than one StagingDeployCash issue."))
      \/ (exists issue,
            listForRepo issues checklist_query = Resolved [issue]
            /\ throws (getStagingDeployCashData issue)
            /\ e = Error (lit "Unable to find StagingDeployCash issue with correct data.")).
Proof.
  rewrite getStagingDeployCash_cases.
  destruct (listForRepo issues checklist_query) as [|[|issue [|second data]]|e0]; split.
  - discriminate.
  - intros [H|[[H _]|[(data & H & _)|(i & H & _)]]]; discriminate H.
  - intro H. injection H as <-. right. left. split; reflexivity.
  - intros [H|[[_ ->]|[(data & H & Hlen & _)|(i & H & _)]]]; try discriminate H.
    + reflexivity.
    + injection H as <-. cbn in Hlen. lia.
  - destruct (getStagingDeployCashData issue) as [d'|e'] eqn:Hd; [discriminate|].
    intro H. injection H as <-. right. right. right. exists issue.
    split; [reflexivity|]. split; [exists e'; exact Hd|].
    apply (decoder_throws_one_error _ Hd).
  - intros [H|[[H _]|[(data & H & Hlen & _)|(i & H & [e' He'] & ->)]]]; try discriminate H.
    + injection H as <-. cbn in Hlen. lia.
    + injection H as <-. rewrite He'.
      rewrite (decoder_throws_one_error _ He'). reflexivity.
  - intro H. injection H as <-. right. right. left.
    exists (issue :: second :: data). split; [reflexivity|]. split; [cbn; lia | reflexivity].
  - intros [H|[[H _]|[(d0 & H & _ & ->)|(i & H & _)]]]; try discriminate H. reflexivity.
  - intro H. injection H as <-. left. reflexivity.
  - intros [H|[[H _]|[(data & H & _)|(i & H & _)]]]; try discriminate H.
    injection H as <-. reflexivity.
Qed.

(** ** The levels of the comparator *)

Section Levels.
Import Semver.

Lemma tag_matches_major (tagSemver : option SemVer) (repoTag : str) :
  tag_matches (lit "MAJOR") tagSemver repoTag = major_condition tagSemver repoTag.
Proof.
  unfold tag_matches, at_level.
  change (str_eqb (lit "MAJOR") (lit "MAJOR")) with true.
  change (str_eqb (lit "MAJOR") (lit "MINOR")) with false.
  change (str_eqb (lit "MAJOR") (lit "PATCH")) with false.
  change (str_eqb (lit "MAJOR") (lit "BUILD")) with false.
  cbn [bind].
  destruct (major_condition tagSemver repoTag) as [[|]|e]; reflexivity.
Qed.


Lemma tag_matches_build (tagSemver : option SemVer) (repoTag : str) :
  tag_matches (lit "BUILD") tagSemver repoTag = build_condition tagSemver repoTag.
Proof.
  unfold tag_matches, at_level.
  change (str_eqb (lit "BUILD") (lit "MAJOR")) with false.
  change (str_eqb (lit "BUILD") (lit "MINOR")) with false.
  change (str_eqb (lit "BUILD") (lit "PATCH")) with false.
  change (str_eqb (lit "BUILD") (lit "BUILD")) with true.
  cbn [bind].
  destruct (build_condition tagSemver repoTag) as [[|]|e]; reflexivity.
Qed.

Lemma str_eqb_neq (a b : str) : a <> b -> str_eqb a b = false.
Proof.
  intro H. destruct (str_eqb a b) eqn:E; [|reflexivity].
  apply str_eqb_eq in E. contradiction.
Qed.

(** The callback at a level that is none of the four names. *)
Lemma tag_matches_other_level (semverLevel : str) (tagSemver : option SemVer) (repoTag : str) :
  semverLevel <> lit "MAJOR" -> semverLevel <> lit "MINOR" ->
  semverLevel <> lit "PATCH" -> semverLevel <> lit "BUILD" ->
  tag_matches semverLevel tagSemver repoTag = Ok false.
Proof.
  intros H1 H2 H3 H4. unfold tag_matches, at_level.
  rewrite (str_eqb_neq H1), (str_eqb_neq H2), (str_eqb_neq H3), (str_eqb_neq H4).
  reflexivity.
Qed.

(** When the callback throws: the anchor did not parse, and the level
    reads one of its fields. *)
Lemma tag_matches_throws (semverLevel : str) (tagSemver : option SemVer) (repoTag : str)
  (e : exn) :
  tag_matches semverLevel tagSemver repoTag = Throw e
  <-> tagSemver = None /\ e = TypeError
      /\ (semverLevel = lit "MAJOR" \/ semverLevel = lit "MINOR" \/ semverLevel = lit "BUILD").
Proof.
  split.
  - unfold tag_matches, at_level.
    destruct (str_eqb semverLevel (lit "MAJOR")) eqn:E1.
    { apply str_eqb_eq in E1. subst semverLevel.
      destruct tagSemver as [t|]; cbn [major_condition of_nullable bind].
      - destruct (satisfies repoTag (range_lt_major_x_x (major t))); discriminate.
      - intro H. injection H as <-. repeat split. left. reflexivity. }
    cbn [bind].
    destruct (str_eqb semverLevel (lit "MINOR")) eqn:E2.
    { apply str_eqb_eq in E2. subst semverLevel.
      destruct tagSemver as [t|]; cbn [minor_condition of_nullable bind].
      - destruct (satisfies repoTag (range_lt_major_minor_x (major t) (minor t))); discriminate.
      - intro H. injection H as <-. repeat split. right. left. reflexivity. }
    cbn [bind].
    destruct (str_eqb semverLevel (lit "PATCH")) eqn:E3.
    { apply str_eqb_eq in E3. subst semverLevel.
      destruct tagSemver as [t|]; cbn [patch_condition bind].
      - destruct (satisfies repoTag (range_lt_version t)); discriminate.
      - discriminate. }
    cbn [bind].
    destruct (str_eqb semverLevel (lit "BUILD")) eqn:E4.
    { apply str_eqb_eq in E4. subst semverLevel.
      destruct tagSemver as [t|]; cbn [build_condition of_nullable bind].
      - destruct (str_eqb repoTag (version t)); [discriminate|].
        destruct (satisfies repoTag
                    (range_lte_major_minor_patch (major t) (minor t) (patch t)));
          discriminate.
      - intro H. injection H as <-. repeat split. right. right. reflexivity. }
    discriminate.
  - intros (-> & -> & [->|[->| ->]]).
    + rewrite tag_matches_major. reflexivity.
    + rewrite tag_matches_minor. reflexivity.
    + rewrite tag_matches_build. reflexivity.
Qed.

Lemma scan_tags_rejects (semverLevel : str) (tagSemver : option SemVer) (data : list str)
  (e : exn) :
  scan_tags semverLevel tagSemver data = Rejected e
  <-> data <> [] /\ tagSemver = None /\ e = TypeError
      /\ (semverLevel = lit "MAJOR" \/ semverLevel = lit "MINOR" \/ semverLevel = lit "BUILD").
Proof.
  split.
  - induction data as [|repoTag data IH]; cbn [scan_tags]; [discriminate|].
    destruct (tag_matches semverLevel tagSemver repoTag) as [[|]|e'] eqn:Ht.
    + discriminate.
    + intro H. destruct (IH H) as (_ & H1 & H2 & H3).
      split; [discriminate|]. repeat split; assumption.
    + intro H. injection H as <-. apply tag_matches_throws in Ht.
      split; [discriminate | exact Ht].
  - intros (Hdata & -> & -> & Hlevel).
    destruct data as [|repoTag data]; [contradiction|]. cbn [scan_tags].
    assert (Ht : tag_matches semverLevel None repoTag = Throw TypeError).
    { apply tag_matches_throws. repeat split. exact Hlevel. }
    rewrite Ht. reflexivity.
Qed.

(** X3: the comparator rejects in two cases only: with the error of the
    tag listing when that fails, and with a [TypeError] when the anchor tag
    is no version, the level is MAJOR, MINOR or BUILD and the listing holds
    a tag.  An anchor that is no version is not reported at level PATCH. *)
Theorem comparator_rejects_iff
  (octokit : Octokit) (repoSlug tag semverLevel : str) (e : exn) :
  generateVersionComparisonURL octokit repoSlug tag semverLevel = Rejected e
  <-> listTags octokit (index (split_on "/" repoSlug) 0) (index (split_on "/" repoSlug) 1)
      = Rejected e
      \/ (exists data,
            listTags octokit (index (split_on "/" repoSlug) 0) (index (split_on "/" repoSlug) 1)
            = Resolved data
            /\ data <> [] /\ parse tag = None /\ e = TypeError
            /\ (semverLevel = lit "MAJOR" \/ semverLevel = lit "MINOR"
                \/ semverLevel = lit "BUILD")).
Proof.
  unfold generateVersionComparisonURL.
  destruct (listTags octokit (index (split_on "/" repoSlug) 0)
              (index (split_on "/" repoSlug) 1)) as [|data|e0]; split.
  - discriminate.
  - intros [H|(data & H & _)]; discriminate H.
  - intro H. right. exists data. split; [reflexivity|]. apply scan_tags_rejects. exact H.
  - intros [H|(data' & H & H')]; [discriminate H|]. injection H as <-.
    apply scan_tags_rejects. exact H'.
  - intro H. injection H as <-. left. reflexivity.
  - intros [H|(data & H & _)]; [injection H as <-; reflexivity | discriminate H].
Qed.

(** X4: with a level that is none of MAJOR, MINOR, PATCH and BUILD (the
    comparison is exact, so [patch] in lower case is one), the promise of the
    comparator stays pending whatever the listing holds. *)
Theorem unknown_level_never_settles
  (octokit : Octokit) (repoSlug tag semverLevel : str) (data : list str) :
  semverLevel <> lit "MAJOR" -> semverLevel <> lit "MINOR" ->
  semverLevel <> lit "PATCH" -> semverLevel <> lit "BUILD" ->
  listTags octokit (index (split_on "/" repoSlug) 0) (index (split_on "/" repoSlug) 1)
  = Resolved data ->
  generateVersionComparisonURL octokit repoSlug tag semverLevel = Pending.
Proof.
  intros H1 H2 H3 H4 Hlist. unfold generateVersionComparisonURL. rewrite Hlist.
  apply scan_tags_no_match. intros repoTag _.
  apply tag_matches_other_level; assumption.
Qed.

Lemma unknown_level_never_settles_witness :
  generateVersionComparisonURL (octokit_listing [lit "1.0.0"; lit "0.9.0"])
    (lit "Expensify/Expensify.cash") (lit "1.0.1") (lit "patch") = Pending.
Proof.
  apply (@unknown_level_never_settles (octokit_listing [lit "1.0.0"; lit "0.9.0"])
           (lit "Expensify/Expensify.cash") (lit "1.0.1") (lit "patch")
           [lit "1.0.0"; lit "0.9.0"]); try discriminate.
  reflexivity.
Defined.

(** X5: the first tag of the listing that the callback accepts settles the
    promise, whatever follows it; the URL compares that tag, as listed, with
    the version text of the parsed anchor. *)
Theorem comparator_takes_first_match
  (octokit : Octokit) (repoSlug tag semverLevel : str)
  (skipped : list str) (repoTag : str) (later : list str) :
  listTags octokit (index (split_on "/" repoSlug) 0) (index (split_on "/" repoSlug) 1)
  = Resolved (skipped ++ repoTag :: later) ->
  (forall t, In t skipped -> tag_matches semverLevel (parse tag) t = Ok false) ->
  tag_matches semverLevel (parse tag) repoTag = Ok true ->
  exists anchor,
    parse tag = Some anchor
    /\ generateVersionComparisonURL octokit repoSlug tag semverLevel
       = Resolved (lit "https://github.com/Expensify/Expensify.cash/compare/"
                     ++ repoTag ++ lit "..." ++ version anchor).
Proof.
  intros Hlist Hskip Hmatch.
  destruct (parse tag) as [anchor|] eqn:Hparse.
  - exists anchor. split; [reflexivity|].
    unfold generateVersionComparisonURL. rewrite Hlist, Hparse.
    rewrite (@scan_tags_first_match _ _ _ _ later Hskip Hmatch). reflexivity.
  - exfalso. revert Hmatch.
    unfold tag_matches, at_level, major_condition, minor_condition, patch_condition,
      build_condition.
    cbn [of_nullable bind].
    destruct (str_eqb semverLevel (lit "MAJOR")); cbn [bind]; [discriminate|].
    destruct (str_eqb semverLevel (lit "MINOR")); cbn [bind]; [discriminate|].
    destruct (str_eqb semverLevel (lit "PATCH")); cbn [bind].
    + destruct (str_eqb semverLevel (lit "BUILD")); cbn [bind]; discriminate.
    + destruct (str_eqb semverLevel (lit "BUILD")); cbn [bind]; discriminate.
Qed.

Lemma comparator_takes_first_match_witness :
  exists anchor,
    parse (lit "v1.0.1-5") = Some anchor
    /\ generateVersionComparisonURL (octokit_listing [lit "1.0.1-5"; lit "1.0.1-3"; lit "1.0.1-4"])
         (lit "Expensify/Expensify.cash") (lit "v1.0.1-5") (lit "BUILD")
       = Resolved (lit "https://github.com/Expensify/Expensify.cash/compare/"
                     ++ lit "1.0.1-3" ++ lit "..." ++ version anchor).
Proof.
  apply (@comparator_takes_first_match
           (octokit_listing [lit "1.0.1-5"; lit "1.0.1-3"; lit "1.0.1-4"])
           (lit "Expensify/Expensify.cash") (lit "v1.0.1-5") (lit "BUILD")
           [lit "1.0.1-5"] (lit "1.0.1-3") [lit "1.0.1-4"]).
  - reflexivity.
  - intros t [<-|[]]. vm_compute. reflexivity.
  - vm_compute. reflexivity.
Defined.

(** Below [M.0.0-0] means a lower major. *)
Lemma below_major_floor (c : SemVer) (M : N) :
  compare c (plain M 0 0 [INum 0]) = Lt <-> (major c < M)%N.
Proof.
  split.
  - intro H. apply below_minor_floor in H. destruct H as [H|[_ H]]; [exact H | lia].
  - intro H. apply above_minor_floor. left. exact H.
Qed.

(** X6: at level MAJOR the callback accepts exactly the tags that parse
    as a version of a lower major than the anchor's. *)
Theorem major_level_accepts_lower_majors (anchor : SemVer) (repoTag : str) :
  tag_matches (lit "MAJOR") (Some anchor) repoTag = Ok true
  <-> exists candidate,
        SemVer_new repoTag = Some candidate /\ (major candidate < major anchor)%N.
Proof.
  rewrite tag_matches_major. unfold major_condition. cbn [of_nullable bind].
  unfold satisfies. cbn [operator_of semver range_lt_major_x_x]. unfold cmp.
  destruct (SemVer_new repoTag) as [candidate|]; split.
  - destruct (compare candidate (plain (major anchor) 0 0 [INum 0])) eqn:Hcmp;
      try discriminate.
    intros _. exists candidate. split; [reflexivity|]. apply below_major_floor. exact Hcmp.
  - intros (c & H & Hlt). injection H as <-. apply below_major_floor in Hlt.
    rewrite Hlt. reflexivity.
  - discriminate.
  - intros (c & H & _). discriminate H.
Qed.




(** X8: at level BUILD the build number is not compared: every tag other
    than the anchor's version text that parses as a prerelease of the
    anchor's major.minor.patch is accepted, a later build as well as an
    earlier one. *)
Theorem build_level_ignores_build_number (anchor candidate : SemVer) (repoTag : str) :
  SemVer_new repoTag = Some candidate ->
  major candidate = major anchor -> minor candidate = minor anchor ->
  patch candidate = patch anchor ->
  prerelease candidate <> [] ->
  repoTag <> version anchor ->
  tag_matches (lit "BUILD") (Some anchor) repoTag = Ok true.
Proof.
  intros Hnew HM Hm Hp Hpre Htext. rewrite tag_matches_build. unfold build_condition.
  cbn [of_nullable bind]. rewrite (str_eqb_neq Htext).
  unfold satisfies. rewrite Hnew. cbn [operator_of semver range_lte_major_minor_patch].
  unfold cmp, compare, compareMain, comparePre. cbn [major minor patch prerelease plain].
  rewrite HM, Hm, Hp, !N.compare_refl. cbn [or_else].
  destruct (prerelease candidate); [contradiction | reflexivity].
Qed.

Lemma build_level_ignores_build_number_witness :
  exists anchor,
    parse (lit "1.0.1-5") = Some anchor
    /\ tag_matches (lit "BUILD") (Some anchor) (lit "1.0.1-9") = Ok true
    /\ generateVersionComparisonURL (octokit_listing [lit "1.0.1-9"; lit "1.0.1-4"])
         (lit "Expensify/Expensify.cash") (lit "1.0.1-5") (lit "BUILD")
       = Resolved (lit "https://github.com/Expensify/Expensify.cash/compare/1.0.1-9...1.0.1-5").
Proof.
  destruct (parse (lit "1.0.1-5")) as [anchor|] eqn:Ha; [|vm_compute in Ha; discriminate Ha].
  destruct (SemVer_new (lit "1.0.1-9")) as [candidate|] eqn:Hc;
    [|vm_compute in Hc; discriminate Hc].
  exists anchor. split; [reflexivity|]. split.
  - apply (@build_level_ignores_build_number anchor candidate (lit "1.0.1-9") Hc);
      vm_compute in Ha; vm_compute in Hc; injection Ha as <-; injection Hc as <-;
      vm_compute; congruence.
  - unfold generateVersionComparisonURL, octokit_listing. cbn [listTags].
    vm_compute in Ha. injection Ha as <-. vm_compute. reflexivity.
Defined.

End Levels.

(** ** The repository slug *)

Lemma split_on_slash_free (w : str) : slash_free w -> split_on "/" w = [w].
Proof.
  induction w as [|a w IH]; intro H; cbn [split_on]; [reflexivity|].
  destruct (Ascii.eqb_spec a "/") as [->|_].
  - exfalso. apply H. left. reflexivity.
  - rewrite IH; [reflexivity|]. intro Hin. apply H. right. exact Hin.
Qed.

Lemma split_on_first_slash (a r : str) :
  slash_free a -> split_on "/" (a ++ "/"%char :: r) = a :: split_on "/" r.
Proof.
  induction a as [|x a IH]; intro H; cbn [app split_on].
  - reflexivity.
  - destruct (Ascii.eqb_spec x "/") as [->|_].
    + exfalso. apply H. left. reflexivity.
    + rewrite IH; [reflexivity|]. intro Hin. apply H. right. exact Hin.
Qed.

(** X9: the comparator lists the tags of the owner and the repository on
    the two sides of the slash of the slug; for a slug without a slash the
    repository it asks for is [undefined]. *)
Theorem comparator_splits_slug (octokit : Octokit) (tag semverLevel : str) :
  (forall owner repo : str,
      slash_free owner -> slash_free repo ->
      generateVersionComparisonURL octokit (owner ++ lit "/" ++ repo) tag semverLevel
      = match listTags octokit (Some owner) (Some repo) with
        | Pending => Pending
        | Rejected githubError => Rejected githubError
        | Resolved data => scan_tags semverLevel (Semver.parse tag) data
        end)
  /\ (forall repoSlug : str,
        slash_free repoSlug ->
        generateVersionComparisonURL octokit repoSlug tag semverLevel
        = match listTags octokit (Some repoSlug) None with
          | Pending => Pending
          | Rejected githubError => Rejected githubError
          | Resolved data => scan_tags semverLevel (Semver.parse tag) data
          end).
Proof.
  split.
  - intros owner repo Ho Hr. unfold generateVersionComparisonURL.
    change (owner ++ lit "/" ++ repo) with (owner ++ "/"%char :: repo).
    rewrite (split_on_first_slash _ Ho), (split_on_slash_free Hr). reflexivity.
  - intros repoSlug Hs. unfold generateVersionComparisonURL.
    rewrite (split_on_slash_free Hs). reflexivity.
Qed.

(** ** When the encoder gives a body *)

Section EncoderOutcome.
Import Underscore.

Lemma wrap_ok (A : Type) (iteratee : A -> result number) (l : list A) :
  (forall v, In v l -> exists z, iteratee v = Ok z) ->
  forall i, exists ws, wrap iteratee i l = Ok ws.
Proof.
  induction l as [|v l IH]; intros H i; cbn [wrap].
  - exists []. reflexivity.
  - destruct (H v (or_introl eq_refl)) as [z Hz]. rewrite Hz. cbn [bind].
    destruct (IH (fun v' Hv' => H v' (or_intror Hv')) (S i)) as [ws Hws].
    rewrite Hws. cbn [bind]. eexists. reflexivity.
Qed.

Lemma wrap_throw (A : Type) (iteratee : A -> result number) (l : list A) :
  forall i e, wrap iteratee i l = Throw e -> exists v, In v l /\ iteratee v = Throw e.
Proof.
  induction l as [|v l IH]; intros i e; cbn [wrap]; [discriminate|].
  destruct (iteratee v) as [z|e'] eqn:Hv; cbn [bind].
  - destruct (wrap iteratee (S i) l) as [ws|e''] eqn:Hw; cbn [bind]; [discriminate|].
    intro H. injection H as <-. destruct (IH _ _ Hw) as (v' & Hin & Hv').
    exists v'. split; [right; exact Hin | exact Hv'].
  - intro H. injection H as <-. exists v. split; [left; reflexivity | exact Hv].
Qed.

Lemma sortBy_unique_ok (iteratee : str -> result number) (l : list str) :
  (exists r, sortBy (unique l) iteratee = Ok r)
  <-> forall v, In v l -> exists z, iteratee v = Ok z.
Proof.
  unfold sortBy. split.
  - intros [r Hr] v Hv. apply unique_spec in Hv.
    destruct (wrap iteratee 0 (unique l)) as [ws|e] eqn:Hw; [|discriminate Hr].
    destruct (wrap_spec _ _ _ Hw) as [Hvalues Hwell]. rewrite <- Hvalues in Hv.
    apply in_map_iff in Hv. destruct Hv as (w & <- & Hin).
    rewrite Forall_forall in Hwell. exists (criteria w). apply Hwell. exact Hin.
  - intro H.
    destruct (@wrap_ok _ iteratee (unique l)
                (fun v Hv => H v (proj1 (proj2 (unique_spec l) v) Hv)) 0) as [ws Hws].
    rewrite Hws. cbn [bind]. eexists. reflexivity.
Qed.

Lemma sortBy_unique_throw (iteratee : str -> result number) (l : list str) (e : exn) :
  sortBy (unique l) iteratee = Throw e -> exists v, In v l /\ iteratee v = Throw e.
Proof.
  unfold sortBy. destruct (wrap iteratee 0 (unique l)) as [ws|e'] eqn:Hw; [discriminate|].
  cbn [bind]. intro H. injection H as <-.
  destruct (wrap_throw _ _ _ Hw) as (v & Hin & Hv). exists v.
  split; [apply unique_spec; exact Hin | exact Hv].
Qed.

Lemma render_body_ok_iff (tag comparisonURL : str)
  (PRList verifiedPRList deployBlockers resolvedDeployBlockers : list str) :
  (exists issueBody,
      render_body tag comparisonURL PRList verifiedPRList deployBlockers
        resolvedDeployBlockers = Ok issueBody)
  <-> (forall URL, In URL PRList -> exists n, getPullRequestNumberFromURL URL = Ok n)
      /\ (forall URL, In URL deployBlockers ->
            exists n, getIssueOrPullRequestNumberFromURL URL = Ok n).
Proof.
  unfold render_body. split.
  - intros [issueBody H].
    destruct (sortBy (unique PRList) getPullRequestNumberFromURL) as [s1|e1] eqn:H1;
      [|discriminate H]. cbn [bind] in H.
    destruct (sortBy (unique deployBlockers) getIssueOrPullRequestNumberFromURL)
      as [s2|e2] eqn:H2; [|discriminate H].
    split.
    + apply (proj1 (@sortBy_unique_ok getPullRequestNumberFromURL PRList)).
      exists s1. exact H1.
    + apply (proj1 (@sortBy_unique_ok getIssueOrPullRequestNumberFromURL deployBlockers)).
      exists s2. exact H2.
  - intros [H1 H2].
    apply (proj2 (@sortBy_unique_ok getPullRequestNumberFromURL PRList)) in H1.
    destruct H1 as [s1 H1].
    apply (proj2 (@sortBy_unique_ok getIssueOrPullRequestNumberFromURL deployBlockers)) in H2.
    destruct H2 as [s2 H2].
    rewrite H1. cbn [bind]. rewrite H2. cbn [bind]. eexists. reflexivity.
Qed.

(** X10: the encoder resolves with a body exactly when the comparator
    resolves, every entry of [PRList] is accepted by the pull-request parser
    and every entry of [deployBlockers] by the issue-or-pull-request parser;
    the verified and resolved lists play no part in it. *)
Theorem encoder_gives_body_iff
  (octokit : Octokit) (tag : str)
  (PRList verifiedPRList deployBlockers resolvedDeployBlockers : list str) :
  (exists issueBody,
      fst (generateStagingDeployCashBody octokit tag PRList verifiedPRList deployBlockers
             resolvedDeployBlockers) = Resolved (VString issueBody))
  <-> (exists comparisonURL,
         generateVersionComparisonURL octokit (lit "Expensify/Expensify.cash") tag (lit "BUILD")
         = Resolved comparisonURL)
      /\ (forall URL, In URL PRList -> exists n, getPullRequestNumberFromURL URL = Ok n)
      /\ (forall URL, In URL deployBlockers ->
            exists n, getIssueOrPullRequestNumberFromURL URL = Ok n).
Proof.
  unfold generateStagingDeployCashBody.
  change (GITHUB_OWNER ++ lit "/" ++ EXPENSIFY_CASH_REPO) with (lit "Expensify/Expensify.cash").
  destruct (generateVersionComparisonURL octokit (lit "Expensify/Expensify.cash") tag
              (lit "BUILD")) as [|comparisonURL|err]; cbn [fst]; split.
  - intros [b H]. discriminate H.
  - intros [[u H] _]. discriminate H.
  - intros [b H].
    destruct (render_body tag comparisonURL PRList verifiedPRList deployBlockers
                resolvedDeployBlockers) as [issueBody|e] eqn:Hr; [|discriminate H].
    split; [exists comparisonURL; reflexivity|].
    apply (render_body_ok_iff tag comparisonURL PRList verifiedPRList deployBlockers
             resolvedDeployBlockers).
    exists issueBody. exact Hr.
  - intros [_ H].
    apply (render_body_ok_iff tag comparisonURL PRList verifiedPRList deployBlockers
             resolvedDeployBlockers) in H.
    destruct H as [issueBody Hr]. rewrite Hr. exists issueBody. reflexivity.
  - intros [b H]. discriminate H.
  - intros [[u H] _]. discriminate H.
Qed.

Lemma pull_request_parser_error (URL : str) (e : exn) :
  getPullRequestNumberFromURL URL = Throw e ->
  e = Error (lit "Provided URL " ++ URL ++ lit " is not a Github Pull Request!").
Proof.
  unfold getPullRequestNumberFromURL, number_from_match.
  destruct (String_match PULL_REQUEST_REGEX URL) as [[|m0 [|[n|] [|m2 ms]]]|];
    intro H; try discriminate H; injection H as <-; reflexivity.
Qed.

(** X11: when the comparator has resolved and some entry of [PRList] is
    no pull-request URL, the encoder gives no body: it resolves with
    [undefined] and warns of an error in generating the comparison URL,
    passing the error of the parser on an entry of [PRList]. *)
Theorem invalid_pull_request_url_drops_body
  (octokit : Octokit) (tag : str)
  (PRList verifiedPRList deployBlockers resolvedDeployBlockers : list str)
  (comparisonURL URL : str) (e : exn) :
  generateVersionComparisonURL octokit (lit "Expensify/Expensify.cash") tag (lit "BUILD")
  = Resolved comparisonURL ->
  In URL PRList ->
  getPullRequestNumberFromURL URL = Throw e ->
  exists rejected,
    In rejected PRList
    /\ generateStagingDeployCashBody octokit tag PRList verifiedPRList deployBlockers
         resolvedDeployBlockers
       = (Resolved VUndefined,
          [Warn (lit "Error generating comparison URL, continuing...")
             (Error (lit "Provided URL " ++ rejected
                       ++ lit " is not a Github Pull Request!"))]).
Proof.
  intros Hcmp Hin Hthrow. unfold generateStagingDeployCashBody.
  change (GITHUB_OWNER ++ lit "/" ++ EXPENSIFY_CASH_REPO) with (lit "Expensify/Expensify.cash").
  rewrite Hcmp. unfold render_body.
  destruct (sortBy (unique PRList) getPullRequestNumberFromURL) as [s1|e1] eqn:H1.
  - exfalso.
    assert (Hok : exists r, sortBy (unique PRList) getPullRequestNumberFromURL = Ok r)
      by (exists s1; exact H1).
    destruct (proj1 (@sortBy_unique_ok getPullRequestNumberFromURL PRList) Hok URL Hin)
      as [n Hn].
    rewrite Hthrow in Hn. discriminate Hn.
  - cbn [bind]. destruct (sortBy_unique_throw _ _ H1) as (rejected & Hr & He).
    exists rejected. split; [exact Hr|].
    rewrite (pull_request_parser_error _ He). reflexivity.
Qed.

Lemma invalid_pull_request_url_drops_body_witness :
  exists rejected,
    In rejected [lit "https://github.com/Expensify/Expensify.cash/pull/3";
                 lit "https://github.com/Expensify/Expensify.cash/issues/4"]
    /\ generateStagingDeployCashBody (octokit_listing [lit "1.0.1-1"; lit "1.0.1-0"])
         (lit "1.0.1-1")
         [lit "https://github.com/Expensify/Expensify.cash/pull/3";
          lit "https://github.com/Expensify/Expensify.cash/issues/4"] [] [] []
       = (Resolved VUndefined,
          [Warn (lit "Error generating comparison URL, continuing...")
             (Error (lit "Provided URL " ++ rejected
                       ++ lit " is not a Github Pull Request!"))]).
Proof.
  apply (@invalid_pull_request_url_drops_body
           (octokit_listing [lit "1.0.1-1"; lit "1.0.1-0"]) (lit "1.0.1-1")
           [lit "https://github.com/Expensify/Expensify.cash/pull/3";
            lit "https://github.com/Expensify/Expensify.cash/issues/4"] [] [] []
           (lit "https://github.com/Expensify/Expensify.cash/compare/1.0.1-0...1.0.1-1")
           (lit "https://github.com/Expensify/Expensify.cash/issues/4")
           (Error (lit "Provided URL https://github.com/Expensify/Expensify.cash/issues/4 is not a Github Pull Request!"))).
  - vm_compute. reflexivity.
  - right. left. reflexivity.
  - vm_compute. reflexivity.
Defined.

End EncoderOutcome.

(** ** Creating the checklist issue *)

Section NewChecklist.
Variable Response : Type.
Variable issues : OctokitIssues Response.

(** The parameters of the one [issues.create] call, but for the title
    and the body. *)
Definition new_checklist (title : str) (body : value) : CreateParams :=
  {| create_owner := lit "Expensify"; create_repo := lit "Expensify";
     create_labels := lit "StagingDeployCash"; create_assignee := lit "applausebot";
     create_title := title; create_body := body |}.

Lemma createNewStagingDeployCash_cases (octokit : Octokit) (title tag : str)
  (PRList : list str) :
  createNewStagingDeployCash octokit issues title tag PRList
  = match generateStagingDeployCashBody octokit tag PRList [] [] [] with
    | (Pending, output) => (Pending, output)
    | (Rejected err, output) => (Rejected err, output)
    | (Resolved issueBody, output) => (create issues (new_checklist title issueBody), output)
    end.
Proof.
  unfold createNewStagingDeployCash.
  destruct (generateStagingDeployCashBody octokit tag PRList [] [] []) as [[|b|e] output];
    reflexivity.
Qed.

(** X12: when the comparator fails, the checklist issue is created all the
    same, with [undefined] for a body, after the warning; and while the
    comparator is pending (no earlier tag to compare with), no issue is
    created and the promise stays pending. *)
Theorem new_checklist_without_comparison
  (octokit : Octokit) (title tag : str) (PRList : list str) :
  (forall err,
      generateVersionComparisonURL octokit (lit "Expensify/Expensify.cash") tag (lit "BUILD")
      = Rejected err ->
      createNewStagingDeployCash octokit issues title tag PRList
      = (create issues (new_checklist title VUndefined),
         [Warn (lit "Error generating comparison URL, continuing...") err]))
  /\ (generateVersionComparisonURL octokit (lit "Expensify/Expensify.cash") tag (lit "BUILD")
      = Pending ->
      createNewStagingDeployCash octokit issues title tag PRList = (Pending, [])).
Proof.
  rewrite createNewStagingDeployCash_cases. unfold generateStagingDeployCashBody.
  change (GITHUB_OWNER ++ lit "/" ++ EXPENSIFY_CASH_REPO) with (lit "Expensify/Expensify.cash").
  split.
  - intros err H. rewrite H. reflexivity.
  - intro H. rewrite H. reflexivity.
Qed.

(** X13: a checklist issue created with a body has the release and
    comparison lines, then, unless [PRList] is empty, the pull-request
    header and one unchecked box for each URL of
    [_.sortBy(_.unique(PRList), getPullRequestNumberFromURL)], in the order
    of that list; it never has a deploy-blocker section. *)
Theorem new_checklist_is_unchecked
  (octokit : Octokit) (title tag : str) (PRList : list str)
  (comparisonURL : str) (sortedPRList : list str) :
  generateVersionComparisonURL octokit (lit "Expensify/Expensify.cash") tag (lit "BUILD")
  = Resolved comparisonURL ->
  Underscore.sortBy (Underscore.unique PRList) getPullRequestNumberFromURL = Ok sortedPRList ->
  createNewStagingDeployCash octokit issues title tag PRList
  = (create issues
       (new_checklist title
          (VString
             (lit "**Release Version:** " ++ tag ++ CRLF
              ++ lit "**Compare Changes:** " ++ comparisonURL ++ CRLF
              ++ match PRList with
                 | [] => []
                 | _ :: _ =>
                     lit "**This release contains changes from the following pull requests:**"
                       ++ CRLF
                       ++ concat (map (fun URL => lit "- [ ] " ++ URL ++ CRLF) sortedPRList)
                 end))), []).
Proof.
  intros Hcmp Hsort. rewrite createNewStagingDeployCash_cases.
  unfold generateStagingDeployCashBody.
  change (GITHUB_OWNER ++ lit "/" ++ EXPENSIFY_CASH_REPO) with (lit "Expensify/Expensify.cash").
  rewrite Hcmp.
  destruct (render_body tag comparisonURL PRList [] [] []) as [issueBody|e] eqn:Hr.
  - destruct (render_body_spec _ _ _ _ _ _ Hr) as (s1 & s2 & H1 & _ & ->).
    rewrite Hsort in H1. injection H1 as <-.
    unfold PR_section, deploy_blocker_section. cbn [Underscore.isEmpty]. rewrite app_nil_r.
    destruct PRList as [|u l]; reflexivity.
  - exfalso. unfold render_body in Hr. rewrite Hsort in Hr. discriminate Hr.
Qed.

End NewChecklist.

(** A forge client that answers every [issues.create] with the parameters
    it was called with, and lists no issue. *)
Definition echoing_forge : OctokitIssues CreateParams :=
  {| listForRepo := fun _ => Resolved []; create := fun params => Resolved params |}.

Lemma new_checklist_is_unchecked_witness :
  createNewStagingDeployCash (octokit_listing [lit "1.0.1-1"; lit "1.0.1-0"]) echoing_forge
    (lit "Deploy Checklist") (lit "1.0.1-1")
    [lit "https://github.com/Expensify/Expensify.cash/pull/22";
     lit "https://github.com/Expensify/Expensify.cash/pull/3";
     lit "https://github.com/Expensify/Expensify.cash/pull/22"]
  = (create echoing_forge
       (new_checklist (lit "Deploy Checklist")
          (VString
             (lit "**Release Version:** " ++ lit "1.0.1-1" ++ CRLF
              ++ lit "**Compare Changes:** "
              ++ lit "https://github.com/Expensify/Expensify.cash/compare/1.0.1-0...1.0.1-1"
              ++ CRLF
              ++ lit "**This release contains changes from the following pull requests:**"
              ++ CRLF
              ++ concat (map (fun URL => lit "- [ ] " ++ URL ++ CRLF)
                           [lit "https://github.com/Expensify/Expensify.cash/pull/3";
                            lit "https://github.com/Expensify/Expensify.cash/pull/22"])))),
     []).
Proof.
  apply (@new_checklist_is_unchecked CreateParams echoing_forge
           (octokit_listing [lit "1.0.1-1"; lit "1.0.1-0"])
           (lit "Deploy Checklist") (lit "1.0.1-1")
           [lit "https://github.com/Expensify/Expensify.cash/pull/22";
            lit "https://github.com/Expensify/Expensify.cash/pull/3";
            lit "https://github.com/Expensify/Expensify.cash/pull/22"]
           (lit "https://github.com/Expensify/Expensify.cash/compare/1.0.1-0...1.0.1-1")
           [lit "https://github.com/Expensify/Expensify.cash/pull/3";
            lit "https://github.com/Expensify/Expensify.cash/pull/22"]).
  - vm_compute. reflexivity.
  - vm_compute. reflexivity.
Defined.

(** ** The parsers on the two kinds of URL *)

Lemma digits_text_482 : digits_text (lit "482").
Proof.
  split; [discriminate | repeat constructor].
Qed.

Lemma name_text_Org : name_text (lit "Org").
Proof.
  split.
  - repeat constructor.
  - intro H. cbn in H. repeat (destruct H as [H|H]; [discriminate H|]). exact H.
Qed.

Lemma name_text_Repo : name_text (lit "Repo").
Proof.
  split.
  - repeat constructor.
  - intro H. cbn in H. repeat (destruct H as [H|H]; [discriminate H|]). exact H.
Qed.

(** X14: on every URL [https://github.com/owner/repo/pull/number] and
    [.../issues/number] whose owner and repository are one-line texts
    without a slash and whose number is a run of decimal digits, the
    pull-request parser returns, for the first, what [Number.parseInt]
    makes of the digits, a double, which is the number itself when that is
    below 2^53; on the second it throws its error, which quotes the URL. *)
Theorem pull_request_parser_tells_kinds (owner repo number : str) :
  name_text owner -> name_text repo -> digits_text number ->
  getPullRequestNumberFromURL (forge_url owner repo (lit "pull") number)
  = Ok (parseInt number)
  /\ ((digits_value number < 2 ^ 53)%N ->
      getPullRequestNumberFromURL (forge_url owner repo (lit "pull") number)
      = Ok (Finite (Z.of_N (digits_value number))))
  /\ getPullRequestNumberFromURL (forge_url owner repo (lit "issues") number)
     = Throw (Error (lit "Provided URL " ++ forge_url owner repo (lit "issues") number
                       ++ lit " is not a Github Pull Request!")).
Proof.
  intros Ho Hr Hn.
  assert (H : getPullRequestNumberFromURL (forge_url owner repo (lit "pull") number)
              = Ok (parseInt number)) by (apply pull_request_number_of_url; assumption).
  split; [exact H|]. split.
  - intro Hlow. rewrite H, (parseInt_exact _ Hlow). reflexivity.
  - apply pull_request_parser_rejects_issue_url; assumption.
Qed.

Lemma pull_request_parser_tells_kinds_witness :
  getPullRequestNumberFromURL (forge_url (lit "Org") (lit "Repo") (lit "pull") (lit "482"))
  = Ok (parseInt (lit "482"))
  /\ ((digits_value (lit "482") < 2 ^ 53)%N ->
      getPullRequestNumberFromURL (forge_url (lit "Org") (lit "Repo") (lit "pull") (lit "482"))
      = Ok (Finite (Z.of_N (digits_value (lit "482")))))
  /\ getPullRequestNumberFromURL (forge_url (lit "Org") (lit "Repo") (lit "issues") (lit "482"))
     = Throw (Error (lit "Provided URL "
                       ++ forge_url (lit "Org") (lit "Repo") (lit "issues") (lit "482")
                       ++ lit " is not a Github Pull Request!")).
Proof.
  exact (@pull_request_parser_tells_kinds (lit "Org") (lit "Repo") (lit "482")
           name_text_Org name_text_Repo digits_text_482).
Defined.

(** X15: on the same URLs the issue parser returns, for the issue URL,
    what [Number.parseInt] makes of the digits, which is the number itself
    when that is below 2^53; on the pull-request URL it throws its error,
    which quotes the URL. *)
Theorem issue_parser_tells_kinds (owner repo number : str) :
  name_text owner -> name_text repo -> digits_text number ->
  getIssueNumberFromURL (forge_url owner repo (lit "issues") number)
  = Ok (parseInt number)
  /\ ((digits_value number < 2 ^ 53)%N ->
      getIssueNumberFromURL (forge_url owner repo (lit "issues") number)
      = Ok (Finite (Z.of_N (digits_value number))))
  /\ getIssueNumberFromURL (forge_url owner repo (lit "pull") number)
     = Throw (Error (lit "Provided URL " ++ forge_url owner repo (lit "pull") number
                       ++ lit " is not a Github Issue!")).
Proof.
  intros Ho Hr Hn.
  assert (H : getIssueNumberFromURL (forge_url owner repo (lit "issues") number)
              = Ok (parseInt number)) by (apply issue_number_of_url; assumption).
  split; [exact H|]. split.
  - intro Hlow. rewrite H, (parseInt_exact _ Hlow). reflexivity.
  - apply issue_parser_rejects_pull_request_url; assumption.
Qed.

Lemma issue_parser_tells_kinds_witness :
  getIssueNumberFromURL (forge_url (lit "Org") (lit "Repo") (lit "issues") (lit "482"))
  = Ok (parseInt (lit "482"))
  /\ ((digits_value (lit "482") < 2 ^ 53)%N ->
      getIssueNumberFromURL (forge_url (lit "Org") (lit "Repo") (lit "issues") (lit "482"))
      = Ok (Finite (Z.of_N (digits_value (lit "482")))))
  /\ getIssueNumberFromURL (forge_url (lit "Org") (lit "Repo") (lit "pull") (lit "482"))
     = Throw (Error (lit "Provided URL "
                       ++ forge_url (lit "Org") (lit "Repo") (lit "pull") (lit "482")
                       ++ lit " is not a Github Issue!")).
Proof.
  exact (@issue_parser_tells_kinds (lit "Org") (lit "Repo") (lit "482")
           name_text_Org name_text_Repo digits_text_482).
Defined.

(** X16: on the same URLs the issue-or-pull-request parser returns, for
    both kinds, what [Number.parseInt] makes of the digits, which is the
    number itself when that is below 2^53. *)
Theorem issue_or_pull_request_parser_takes_both (owner repo number : str) :
  name_text owner -> name_text repo -> digits_text number ->
  getIssueOrPullRequestNumberFromURL (forge_url owner repo (lit "pull") number)
  = Ok (parseInt number)
  /\ getIssueOrPullRequestNumberFromURL (forge_url owner repo (lit "issues") number)
     = Ok (parseInt number)
  /\ ((digits_value number < 2 ^ 53)%N ->
      getIssueOrPullRequestNumberFromURL (forge_url owner repo (lit "pull") number)
      = Ok (Finite (Z.of_N (digits_value number)))
      /\ getIssueOrPullRequestNumberFromURL (forge_url owner repo (lit "issues") number)
         = Ok (Finite (Z.of_N (digits_value number)))).
Proof.
  intros Ho Hr Hn.
  assert (H1 : getIssueOrPullRequestNumberFromURL (forge_url owner repo (lit "pull") number)
               = Ok (parseInt number))
    by (apply issue_or_pull_request_number_of_url; [left; reflexivity | assumption..]).
  assert (H2 : getIssueOrPullRequestNumberFromURL (forge_url owner repo (lit "issues") number)
               = Ok (parseInt number))
    by (apply issue_or_pull_request_number_of_url; [right; reflexivity | assumption..]).
  split; [exact H1|]. split; [exact H2|].
  intro Hlow. rewrite H1, H2, (parseInt_exact _ Hlow). split; reflexivity.
Qed.

Lemma issue_or_pull_request_parser_takes_both_witness :
  getIssueOrPullRequestNumberFromURL
    (forge_url (lit "Org") (lit "Repo") (lit "pull") (lit "482"))
  = Ok (parseInt (lit "482"))
  /\ getIssueOrPullRequestNumberFromURL
       (forge_url (lit "Org") (lit "Repo") (lit "issues") (lit "482"))
     = Ok (parseInt (lit "482"))
  /\ ((digits_value (lit "482") < 2 ^ 53)%N ->
      getIssueOrPullRequestNumberFromURL
        (forge_url (lit "Org") (lit "Repo") (lit "pull") (lit "482"))
      = Ok (Finite (Z.of_N (digits_value (lit "482"))))
      /\ getIssueOrPullRequestNumberFromURL
           (forge_url (lit "Org") (lit "Repo") (lit "issues") (lit "482"))
         = Ok (Finite (Z.of_N (digits_value (lit "482"))))).
Proof.
  exact (@issue_or_pull_request_parser_takes_both (lit "Org") (lit "Repo") (lit "482")
           name_text_Org name_text_Repo digits_text_482).
Defined.

(** ** Greedy runs

    A starred one-character pattern takes every character it can when the
    continuation accepts what is left there. *)

(** The text [rest] does not open with a character of [P]. *)
Definition stops_at (P : ascii -> bool) (rest : str) : Prop :=
  match rest with
  | [] => True
  | a :: _ => P a = false
  end.

Definition one_char (r : regex) (P : ascii -> bool) : Prop :=
  forall (R : Type) (s : str) (c : captures) (k : cont R),
    run r s c k = match s with
                  | a :: s' => if P a then k s' c else None
                  | [] => None
                  end.

Lemma one_char_digit : one_char digit is_digit.
Proof.
  intros R s c k. destruct s as [|a s]; [reflexivity|].
  unfold digit. cbn [run]. unfold in_class, in_range, is_digit. cbn [existsb fst snd].
  rewrite orb_false_r. reflexivity.
Qed.

Definition in_line (a : ascii) : bool := negb (is_line_terminator a).

Lemma one_char_Dot : one_char Dot in_line.
Proof.
  intros R s c k. destruct s as [|a s]; [reflexivity|].
  cbn [run]. unfold in_line. destruct (is_line_terminator a); reflexivity.
Qed.

Lemma greedy_star (r : regex) (P : ascii -> bool) :
  one_char r P ->
  forall (R : Type) (k : cont R) (w rest : str) (fuel : nat) (c : captures),
    length (w ++ rest) <= fuel ->
    Forall (fun a => P a = true) w ->
    stops_at P rest ->
    k rest c <> None ->
    repeat_matcher (run r) fuel (w ++ rest) c k = k rest c.
Proof.
  intros Hr R k w rest. induction w as [|a w IH]; intros fuel c Hlen Hw Hstop Hk.
  - cbn [app]. destruct fuel as [|fuel]; [reflexivity|]. cbn [repeat_matcher].
    rewrite Hr. destruct rest as [|x rest]; [reflexivity|].
    cbn in Hstop. rewrite Hstop. reflexivity.
  - destruct fuel as [|fuel]; [cbn in Hlen; lia|].
    inversion Hw as [|a' w' Ha Hw']; subst.
    cbn [app repeat_matcher]. rewrite Hr. rewrite Ha. cbn [length].
    replace (length (w ++ rest) <? S (length (w ++ rest))) with true
      by (symmetry; apply Nat.ltb_lt; lia).
    cbn [app length] in Hlen. rewrite (IH fuel c) by (assumption || lia).
    destruct (k rest c) as [x|] eqn:Hx; [reflexivity | contradiction].
Qed.

(** A group of digits in front of a text that opens with no digit. *)
Lemma run_group_digits_then (R : Type) (g : nat) (ds rest : str) (c : captures) (k : cont R) :
  digits_text ds ->
  stops_at is_digit rest ->
  k rest (set_cap g ds c) <> None ->
  run (Grp g digits1) (ds ++ rest) c k = k rest (set_cap g ds c).
Proof.
  intros [Hne Hds] Hstop Hk. destruct ds as [|d ds]; [contradiction|].
  inversion Hds as [|d' ds' Hd Hds']; subst.
  cbn [run digits1 Plus app]. rewrite one_char_digit. rewrite Hd.
  rewrite (greedy_star one_char_digit); try assumption; try apply Nat.le_refl;
    cbv beta; change (d :: ds ++ rest) with ((d :: ds) ++ rest);
    rewrite firstn_app_length; [reflexivity | exact Hk].
Qed.

(** A line of text and its terminator. *)
Lemma run_line_pattern (R : Type) (l rest : str) (c : captures) (k : cont R) :
  line_text l ->
  k rest c <> None ->
  run line_pattern (l ++ CRLF ++ rest) c k = k rest c.
Proof.
  intros Hl Hk. unfold line_pattern. cbn [run].
  rewrite (greedy_star one_char_Dot).
  - cbn. reflexivity.
  - apply Nat.le_refl.
  - unfold line_text in Hl. rewrite Forall_forall in *. intros a Ha.
    unfold in_line. rewrite (Hl a Ha). reflexivity.
  - reflexivity.
  - cbn. exact Hk.
Qed.

Lemma closed_lines_cons (l : str) (ls : list str) :
  closed_lines (l :: ls) = l ++ CRLF ++ closed_lines ls.
Proof.
  unfold closed_lines. cbn [map concat]. rewrite <- app_assoc. reflexivity.
Qed.

Lemma closed_lines_app (l1 l2 : list str) :
  closed_lines (l1 ++ l2) = closed_lines l1 ++ closed_lines l2.
Proof.
  unfold closed_lines. rewrite map_app, concat_app. reflexivity.
Qed.

(** Starred lines take all the lines of a text that ends with them. *)
Lemma lines_take_all (R : Type) (k : cont R) (ls : list str) :
  forall (fuel : nat) (c : captures),
    length (closed_lines ls) <= fuel ->
    Forall line_text ls ->
    k [] c <> None ->
    repeat_matcher (run line_pattern) fuel (closed_lines ls) c k = k [] c.
Proof.
  induction ls as [|l ls IH]; intros fuel c Hlen Hls Hk.
  - apply repeat_matcher_at_end.
  - inversion Hls as [|l' ls' Hl Hls']; subst.
    rewrite closed_lines_cons in *.
    destruct fuel as [|fuel].
    { rewrite !length_app in Hlen. cbn [length CRLF] in Hlen. lia. }
    cbn [repeat_matcher].
    assert (Hlt : (length (closed_lines ls) <? length (l ++ CRLF ++ closed_lines ls)) = true).
    { apply Nat.ltb_lt. rewrite !length_app. cbn [length CRLF]. lia. }
    assert (Hfuel : length (closed_lines ls) <= fuel).
    { rewrite !length_app in Hlen. cbn [length CRLF] in Hlen. lia. }
    rewrite run_line_pattern; [| exact Hl | rewrite Hlt, (IH fuel c Hfuel Hls' Hk); exact Hk].
    rewrite Hlt, (IH fuel c Hfuel Hls' Hk).
    destruct (k [] c) as [x|] eqn:Hx; [reflexivity | contradiction].
Qed.

Lemma run_lines1_all (R : Type) (k : cont R) (ls : list str) (c : captures) :
  ls <> [] ->
  Forall line_text ls ->
  k [] c <> None ->
  run lines1 (closed_lines ls) c k = k [] c.
Proof.
  intros Hne Hls Hk. destruct ls as [|l ls]; [contradiction|].
  inversion Hls as [|l' ls' Hl Hls']; subst.
  unfold lines1, Plus. fold line_pattern. rewrite run_Cat_eq, closed_lines_cons.
  assert (Hstar : run (Star line_pattern) (closed_lines ls) c k = k [] c).
  { cbn [run]. apply lines_take_all; [apply Nat.le_refl | exact Hls' | exact Hk]. }
  rewrite run_line_pattern; [exact Hstar | exact Hl | rewrite Hstar; exact Hk].
Qed.

Lemma run_Lit_eq (R : Type) (l s : str) (c : captures) (k : cont R) :
  run (Lit l) (l ++ s) c k = k s c.
Proof.
  induction l as [|a l IH]; cbn [Lit run app]; [reflexivity|].
  rewrite Ascii.eqb_refl. exact IH.
Qed.

(** ** Version texts

    The texts [major.minor.patch] and [major.minor.patch-build], each part
    a run of decimal digits: what the version pattern of the decoder
    matches. *)

Definition version_text (M m p : str) (b : option str) : str :=
  M ++ lit "." ++ m ++ lit "." ++ p
    ++ match b with
       | Some x => lit "-" ++ x
       | None => []
       end.

Definition version_parts (M m p : str) (b : option str) : Prop :=
  digits_text M /\ digits_text m /\ digits_text p
  /\ match b with
     | Some x => digits_text x
     | None => True
     end.

(** The captures of the version pattern whose groups are numbered from
    [g + 1]. *)
Definition version_caps (g : nat) (M m p : str) (b : option str) (c : captures) : captures :=
  let c3 := set_cap (g + 3) p (set_cap (g + 2) m (set_cap (g + 1) M c)) in
  match b with
  | Some x => set_cap (g + 4) x c3
  | None => c3
  end.

(** What may follow a version for the match to stop there: no digit and
    no hyphen. *)
Definition ends_version (rest : str) : Prop :=
  match rest with
  | [] => True
  | a :: _ => is_digit a = false /\ a <> "-"%char
  end.

Lemma ends_version_stops (rest : str) : ends_version rest -> stops_at is_digit rest.
Proof.
  destruct rest as [|a rest]; [trivial | intros [H _]; exact H].
Qed.

Lemma run_Alt_eq (R : Type) (r1 r2 : regex) s c (k : cont R) :
  run (Alt r1 r2) s c k
  = match run r1 s c k with
    | Some x => Some x
    | None => run r2 s c k
    end.
Proof.
  reflexivity.
Qed.

Lemma run_Chr_match (R : Type) (a : ascii) (s : str) (c : captures) (k : cont R) :
  run (Chr a) (a :: s) c k = k s c.
Proof.
  cbn [run]. rewrite Ascii.eqb_refl. reflexivity.
Qed.

Lemma run_Chr_mismatch (R : Type) (a x : ascii) (s : str) (c : captures) (k : cont R) :
  x <> a -> run (Chr a) (x :: s) c k = None.
Proof.
  intro H. cbn [run]. destruct (Ascii.eqb_spec x a); [contradiction | reflexivity].
Qed.

Lemma run_build_suffix (R : Type) (g : nat) (b : option str) (rest : str) (c : captures)
  (k : cont R) :
  match b with Some x => digits_text x | None => True end ->
  ends_version rest ->
  k rest (match b with Some x => set_cap g x c | None => c end) <> None ->
  run (Cat (Opt (Cat (Chr "-") (Grp g digits1))) Eps)
    (match b with Some x => lit "-" ++ x | None => [] end ++ rest) c k
  = k rest (match b with Some x => set_cap g x c | None => c end).
Proof.
  intros Hb Hrest Hk. unfold Opt. rewrite run_Cat_eq, run_Alt_eq, run_Cat_eq.
  destruct b as [x|].
  - change ((lit "-" ++ x) ++ rest) with ("-"%char :: x ++ rest).
    rewrite run_Chr_match.
    rewrite run_group_digits_then;
      [| exact Hb | apply ends_version_stops; exact Hrest | exact Hk].
    change (run Eps rest (set_cap g x c) k) with (k rest (set_cap g x c)).
    destruct (k rest (set_cap g x c)) as [y|] eqn:Hy; [reflexivity | contradiction].
  - cbn [app]. destruct rest as [|a rest]; [reflexivity|].
    destruct Hrest as [_ Ha]. rewrite run_Chr_mismatch by exact Ha. reflexivity.
Qed.

(** The version pattern on a version text takes all of it. *)
Lemma run_version (R : Type) (g : nat) (M m p : str) (b : option str) (rest : str)
  (c : captures) (k : cont R) :
  version_parts M m p b ->
  ends_version rest ->
  k rest (version_caps g M m p b c) <> None ->
  run (versionRegex_source g) (version_text M m p b ++ rest) c k
  = k rest (version_caps g M m p b c).
Proof.
  intros (HM & Hm & Hp & Hb) Hrest Hk.
  unfold versionRegex_source, version_text, version_caps in *. cbn [Seq fold_right].
  cbv zeta in *.
  set (tail := match b with Some x => lit "-" ++ x | None => [] end).
  assert (E4 : forall c4,
             k rest (match b with Some x => set_cap (g + 4) x c4 | None => c4 end) <> None ->
             run (Cat (Opt (Cat (Chr "-") (Grp (g + 4) digits1))) Eps) (tail ++ rest) c4 k
             = k rest (match b with Some x => set_cap (g + 4) x c4 | None => c4 end)).
  { intros c4 Hk4. apply run_build_suffix; assumption. }
  assert (Htail : stops_at is_digit (tail ++ rest)).
  { unfold tail. destruct b as [x|]; [reflexivity | apply ends_version_stops; exact Hrest]. }
  assert (E3 : forall c3,
             k rest (match b with
                     | Some x => set_cap (g + 4) x (set_cap (g + 3) p c3)
                     | None => set_cap (g + 3) p c3
                     end) <> None ->
             run (Cat (Grp (g + 3) digits1)
                    (Cat (Opt (Cat (Chr "-") (Grp (g + 4) digits1))) Eps))
               (p ++ tail ++ rest) c3 k
             = k rest (match b with
                       | Some x => set_cap (g + 4) x (set_cap (g + 3) p c3)
                       | None => set_cap (g + 3) p c3
                       end)).
  { intros c3 Hk3. rewrite run_Cat_eq.
    rewrite run_group_digits_then; [| exact Hp | exact Htail | rewrite E4; exact Hk3].
    apply E4. exact Hk3. }
  assert (E2 : forall c2,
             k rest (match b with
                     | Some x => set_cap (g + 4) x (set_cap (g + 3) p (set_cap (g + 2) m c2))
                     | None => set_cap (g + 3) p (set_cap (g + 2) m c2)
                     end) <> None ->
             run (Cat (Grp (g + 2) digits1)
                    (Cat (Chr ".")
                       (Cat (Grp (g + 3) digits1)
                          (Cat (Opt (Cat (Chr "-") (Grp (g + 4) digits1))) Eps))))
               (m ++ "."%char :: p ++ tail ++ rest) c2 k
             = k rest (match b with
                       | Some x =>
                           set_cap (g + 4) x (set_cap (g + 3) p (set_cap (g + 2) m c2))
                       | None => set_cap (g + 3) p (set_cap (g + 2) m c2)
                       end)).
  { intros c2 Hk2. rewrite run_Cat_eq.
    rewrite run_group_digits_then; [| exact Hm | reflexivity |];
      rewrite run_Cat_eq, run_Chr_match; rewrite E3; exact Hk2 || reflexivity. }
  rewrite <- !app_assoc.
  change (M ++ lit "." ++ m ++ lit "." ++ p ++ tail ++ rest)
    with (M ++ "."%char :: m ++ "."%char :: p ++ tail ++ rest).
  rewrite run_Cat_eq.
  rewrite run_group_digits_then; [| exact HM | reflexivity |];
    rewrite run_Cat_eq, run_Chr_match; rewrite E2; exact Hk || reflexivity.
Qed.

(** ** Searching past a prefix *)

Lemma search_step (r : regex) (p0 : str) (a : ascii) (s : str) :
  exec_at r (a :: s) = None -> search r p0 (a :: s) = search r (a :: p0) s.
Proof.
  intro H. cbn [search]. rewrite H. reflexivity.
Qed.

Lemma search_skip (r : regex) (pre : str) :
  (forall a s, In a pre -> exec_at r (a :: s) = None) ->
  forall p0 rest, search r p0 (pre ++ rest) = search r (rev pre ++ p0) rest.
Proof.
  induction pre as [|a pre IH]; intros H p0 rest; [reflexivity|].
  cbn [app]. rewrite search_step by (apply H; left; reflexivity).
  rewrite IH by (intros x s Hx; apply H; right; exact Hx).
  cbn [rev]. rewrite <- app_assoc. reflexivity.
Qed.

Lemma search_at (r : regex) (p0 w rest : str) (c : captures) :
  exec_at r (w ++ rest) = Some (rest, c) ->
  search r p0 (w ++ rest) = Some (Found (rev p0) w c rest).
Proof.
  intro H. rewrite (@search_here r p0 _ _ _ H). rewrite firstn_app_length. reflexivity.
Qed.

Lemma String_match_g_first (r : regex) (s : str) (f : found) :
  search r [] s = Some f ->
  exists more, String_match_g r s = Some (matched f :: more).
Proof.
  intro H. unfold String_match_g, all_matches. cbn [search_all]. rewrite H.
  eexists. reflexivity.
Qed.

(** Nothing to replace in a text without a backtick. *)
Lemma replace_without_backtick (s : str) :
  ~ In "`"%char s -> String_replace_g backtickRegex s [] = s.
Proof.
  intro H. unfold String_replace_g, all_matches. cbn [search_all].
  rewrite search_none; [reflexivity|].
  intros p suffix ->. unfold exec_at, backtickRegex.
  destruct suffix as [|x suffix]; [reflexivity|].
  apply run_Chr_mismatch. intros ->. apply H. apply in_or_app. right. left. reflexivity.
Qed.

(** ** The tag and the comparison URL of a body *)

Lemma run_Grp_eq (R : Type) (i : nat) (r : regex) s c (k : cont R) :
  run (Grp i r) s c k
  = run r s c (fun s' c' => k s' (set_cap i (firstn (length s - length s') s) c')).
Proof.
  reflexivity.
Qed.

Lemma version_needs_digit (g : nat) (a : ascii) (s : str) :
  is_digit a = false -> exec_at (versionRegex_source g) (a :: s) = None.
Proof.
  intro H. unfold exec_at, versionRegex_source. cbn [Seq fold_right].
  rewrite run_Cat_eq, run_Grp_eq. unfold digits1, Plus.
  rewrite run_Cat_eq, one_char_digit, H. reflexivity.
Qed.

Lemma exec_at_version (M m p : str) (b : option str) (rest : str) :
  version_parts M m p b -> ends_version rest ->
  exec_at versionRegex (version_text M m p b ++ rest)
  = Some (rest, version_caps 0 M m p b []).
Proof.
  intros Hv Hrest. unfold exec_at, versionRegex.
  rewrite run_version; [reflexivity | exact Hv | exact Hrest | discriminate].
Qed.

(** The characters of a version text: digits, dots and a hyphen. *)
Definition version_char (a : ascii) : bool :=
  is_digit a || Ascii.eqb a "." || Ascii.eqb a "-".

Lemma digits_version_chars (w : str) :
  Forall (fun a => is_digit a = true) w -> Forall (fun a => version_char a = true) w.
Proof.
  intro H. eapply Forall_impl; [|exact H]. intros a Ha. unfold version_char.
  rewrite Ha. reflexivity.
Qed.

Lemma version_text_chars (M m p : str) (b : option str) :
  version_parts M m p b -> Forall (fun a => version_char a = true) (version_text M m p b).
Proof.
  intros ([_ HM] & [_ Hm] & [_ Hp] & Hb). unfold version_text.
  repeat (apply Forall_app; split); try (apply digits_version_chars; assumption);
    try (repeat constructor; fail).
  destruct b as [x|]; [|constructor].
  apply Forall_app. split; [repeat constructor | apply digits_version_chars; apply Hb].
Qed.

Lemma version_text_without (a : ascii) (M m p : str) (b : option str) :
  version_parts M m p b -> version_char a = false -> ~ In a (version_text M m p b).
Proof.
  intros Hv Ha Hin. pose proof (version_text_chars Hv) as Hall.
  rewrite Forall_forall in Hall. rewrite (Hall a Hin) in Ha. discriminate Ha.
Qed.

Lemma extract_tag_of_release_line (M m p : str) (b : option str) (rest : str) :
  version_parts M m p b -> ends_version rest ->
  extract_tag (lit "**Release Version:** " ++ version_text M m p b ++ rest)
  = Ok (version_text M m p b).
Proof.
  intros Hv Hrest. unfold extract_tag.
  assert (Hsearch : search versionRegex []
                      (lit "**Release Version:** " ++ version_text M m p b ++ rest)
                    = Some (Found (rev (rev (lit "**Release Version:** ") ++ []))
                              (version_text M m p b) (version_caps 0 M m p b []) rest)).
  { rewrite search_skip.
    - apply search_at. apply exec_at_version; assumption.
    - intros a s Ha. apply version_needs_digit.
      cbn in Ha. repeat (destruct Ha as [<-|Ha]; [reflexivity|]). contradiction. }
  destruct (String_match_g_first _ _ Hsearch) as [more ->].
  cbn [of_nullable bind index nth_error matched].
  rewrite replace_without_backtick; [reflexivity|].
  apply version_text_without; [exact Hv | reflexivity].
Qed.

Lemma run_pattern_of_text (R : Type) (l s : str) (c : captures) (k : cont R) :
  run (pattern_of_text l) (l ++ s) c k = k s c.
Proof.
  unfold pattern_of_text. induction l as [|a l IH]; cbn [map Seq fold_right app].
  - reflexivity.
  - rewrite run_Cat_eq. destruct (Ascii.eqb_spec a ".") as [->|Ha].
    + cbn [run]. exact IH.
    + rewrite run_Chr_match. exact IH.
Qed.

Lemma compareURLRegex_head : exists t0 t1, compareURLRegex = Cat (Cat (Chr "h") t0) t1.
Proof.
  do 2 eexists. reflexivity.
Qed.

Lemma compare_needs_h (a : ascii) (s : str) :
  a <> "h"%char -> exec_at compareURLRegex (a :: s) = None.
Proof.
  intro H. destruct compareURLRegex_head as (t0 & t1 & E). rewrite E.
  unfold exec_at. rewrite !run_Cat_eq. apply run_Chr_mismatch. exact H.
Qed.

Definition comparison_caps (pM pm pp : str) (pb : option str) (cM cm cp : str)
  (cb : option str) : captures :=
  version_caps 4 cM cm cp cb (version_caps 0 pM pm pp pb []).

Lemma exec_at_comparison_URL (pM pm pp : str) (pb : option str) (cM cm cp : str)
  (cb : option str) (rest : str) :
  version_parts pM pm pp pb -> version_parts cM cm cp cb -> ends_version rest ->
  exec_at compareURLRegex
    (getComparisonURL (version_text pM pm pp pb) (version_text cM cm cp cb) ++ rest)
  = Some (rest, comparison_caps pM pm pp pb cM cm cp cb).
Proof.
  intros Hp Hc Hrest. unfold exec_at, compareURLRegex, getComparisonURL.
  cbn [Seq fold_right]. rewrite <- !app_assoc.
  rewrite run_Cat_eq, run_pattern_of_text.
  rewrite run_Cat_eq, run_Lit_eq.
  assert (E : forall c,
             run (Cat (Lit (lit "...")) (Cat (versionRegex_source 4) Eps))
               (lit "..." ++ version_text cM cm cp cb ++ rest) c
               (fun s' c' => Some (s', c'))
             = Some (rest, version_caps 4 cM cm cp cb c)).
  { intro c. rewrite run_Cat_eq, run_Lit_eq, run_Cat_eq.
    rewrite run_version; [reflexivity | exact Hc | exact Hrest | discriminate]. }
  rewrite run_Cat_eq.
  rewrite run_version; [apply E | exact Hp | split; [reflexivity | discriminate] |].
  rewrite E. discriminate.
Qed.

Lemma extract_comparisonURL_of_body (M m p : str) (b : option str)
  (pM pm pp : str) (pb : option str) (cM cm cp : str) (cb : option str) (rest : str) :
  version_parts M m p b -> version_parts pM pm pp pb -> version_parts cM cm cp cb ->
  ends_version rest ->
  extract_comparisonURL
    (lit "**Release Version:** " ++ version_text M m p b ++ CRLF
     ++ lit "**Compare Changes:** "
     ++ getComparisonURL (version_text pM pm pp pb) (version_text cM cm cp cb) ++ rest)
  = Ok (getComparisonURL (version_text pM pm pp pb) (version_text cM cm cp cb)).
Proof.
  intros Hv Hp Hc Hrest. unfold extract_comparisonURL.
  set (URL := getComparisonURL (version_text pM pm pp pb) (version_text cM cm cp cb)).
  assert (Hsearch : exists pre,
             search compareURLRegex []
               (lit "**Release Version:** " ++ version_text M m p b ++ CRLF
                ++ lit "**Compare Changes:** " ++ URL ++ rest)
             = Some (Found pre URL (comparison_caps pM pm pp pb cM cm cp cb) rest)).
  { change (lit "**Compare Changes:** " ++ URL ++ rest)
      with (lit "**Compare C" ++ "h"%char :: lit "anges:** " ++ URL ++ rest).
    rewrite search_skip.
    2:{ intros a s Ha. apply compare_needs_h.
        cbn in Ha. repeat (destruct Ha as [<-|Ha]; [discriminate|]). contradiction. }
    rewrite search_skip.
    2:{ intros a s Ha. apply compare_needs_h. intros ->.
        revert Ha. apply version_text_without; [exact Hv | reflexivity]. }
    rewrite search_skip.
    2:{ intros a s Ha. apply compare_needs_h.
        cbn in Ha. repeat (destruct Ha as [<-|Ha]; [discriminate|]). contradiction. }
    rewrite search_skip.
    2:{ intros a s Ha. apply compare_needs_h.
        cbn in Ha. repeat (destruct Ha as [<-|Ha]; [discriminate|]). contradiction. }
    rewrite search_step by reflexivity.
    rewrite search_skip.
    2:{ intros a s Ha. apply compare_needs_h.
        cbn in Ha. repeat (destruct Ha as [<-|Ha]; [discriminate|]). contradiction. }
    eexists. apply search_at. apply exec_at_comparison_URL; assumption. }
  destruct Hsearch as [pre Hsearch].
  destruct (String_match_g_first _ _ Hsearch) as [more ->]. reflexivity.
Qed.

(** ** The lines of a text *)

Lemma at_line_end_CRLF (z : str) : at_line_end (CRLF ++ z).
Proof.
  right. exists CR, (LF :: z). split; reflexivity.
Qed.

Lemma derives_one_line (w : str) (c c' : captures) :
  derives line_pattern w c c' -> exists l, line_text l /\ w = l ++ CRLF.
Proof.
  unfold line_pattern. intro H.
  apply derives_Cat_inv in H. destruct H as (w1 & w2 & c1 & -> & H1 & H2).
  apply (derives_Lit CRLF) in H2. destruct H2 as [-> _].
  exists w1. split; [|reflexivity]. exact (derives_line_free H1 eq_refl).
Qed.

Lemma derives_lines (r : regex) (w : str) (c c' : captures) :
  derives r w c c' -> r = Star line_pattern ->
  exists ls, Forall line_text ls /\ w = closed_lines ls.
Proof.
  induction 1 as [ | | | | | | | | r c
                 | r w1 w2 c c1 c2 H1 IH1 H2 IH2 | ]; intro Hr; try discriminate.
  - exists []. split; [constructor | reflexivity].
  - injection Hr as ->. destruct (derives_one_line H1) as (l & Hl & ->).
    destruct (IH2 eq_refl) as (ls & Hls & ->).
    exists (l :: ls). split; [constructor; assumption|].
    rewrite closed_lines_cons, <- app_assoc. reflexivity.
Qed.

Lemma derives_lines1_lines (w : str) (c c' : captures) :
  derives lines1 w c c' ->
  exists ls, ls <> [] /\ Forall line_text ls /\ w = closed_lines ls.
Proof.
  unfold lines1, Plus. fold line_pattern. intro H.
  apply derives_Cat_inv in H. destruct H as (w1 & w2 & c1 & -> & H1 & H2).
  destruct (derives_one_line H1) as (l & Hl & ->).
  destruct (derives_lines H2 eq_refl) as (ls & Hls & ->).
  exists (l :: ls). split; [discriminate|]. split; [constructor; assumption|].
  rewrite closed_lines_cons, <- app_assoc. reflexivity.
Qed.

Lemma matches_Star_cons (r : regex) (w1 w2 : str) :
  matches r w1 -> matches (Star r) w2 -> matches (Star r) (w1 ++ w2).
Proof.
  intros (c & c1 & H1) (d & d1 & H2). destruct (derives_rebase H2 c1) as (c2 & H2').
  exists c, c2. econstructor; eassumption.
Qed.

Lemma matches_line (l : str) : line_text l -> matches line_pattern (l ++ CRLF).
Proof.
  intro Hl. unfold line_pattern. apply matches_Cat.
  - apply matches_wildcard. exact Hl.
  - apply matches_Lit.
Qed.

Lemma matches_lines (ls : list str) :
  Forall line_text ls -> matches (Star line_pattern) (closed_lines ls).
Proof.
  induction 1 as [|l ls Hl Hls IH].
  - exists [], []. constructor.
  - rewrite closed_lines_cons, app_assoc. apply matches_Star_cons; [|exact IH].
    apply matches_line. exact Hl.
Qed.

Lemma matches_lines1 (ls : list str) :
  ls <> [] -> Forall line_text ls -> matches lines1 (closed_lines ls).
Proof.
  intros Hne Hls. destruct ls as [|l ls]; [contradiction|].
  inversion Hls as [|l' ls' Hl Hls']; subst.
  unfold lines1, Plus. fold line_pattern. rewrite closed_lines_cons, app_assoc.
  apply matches_Cat; [apply matches_line; exact Hl | apply matches_lines; exact Hls'].
Qed.

(** Two ways to cut whole lines off the head of a text: one is a prefix of
    the other. *)
Lemma closed_lines_prefix (l1 : list str) :
  forall (l2 : list str) (s1 s2 : str),
    Forall line_text l1 -> Forall line_text l2 ->
    closed_lines l1 ++ s1 = closed_lines l2 ++ s2 ->
    (exists l3, l2 = l1 ++ l3 /\ s1 = closed_lines l3 ++ s2)
    \/ (exists l3, l1 = l2 ++ l3 /\ s2 = closed_lines l3 ++ s1).
Proof.
  induction l1 as [|a l1 IH]; intros l2 s1 s2 H1 H2 E.
  - left. exists l2. split; [reflexivity | exact E].
  - destruct l2 as [|b l2].
    + right. exists (a :: l1). split; [reflexivity | symmetry; exact E].
    + inversion H1 as [|a' l1' Ha H1']; subst. inversion H2 as [|b' l2' Hb H2']; subst.
      rewrite !closed_lines_cons, <- !app_assoc in E.
      apply line_split_unique in E; try assumption; try apply at_line_end_CRLF.
      destruct E as [-> E]. apply app_inv_head in E.
      destruct (IH l2 s1 s2 H1' H2' E) as [(l3 & -> & Hs)|(l3 & -> & Hs)].
      * left. exists l3. split; [reflexivity | exact Hs].
      * right. exists l3. split; [reflexivity | exact Hs].
Qed.

(** Where a text [X] can stand right before a line end: at the end of one
    of the lines. *)
Lemma line_end_in_lines (ls : list str) :
  Forall line_text ls ->
  forall (p X y : str),
    line_text X -> X <> [] ->
    closed_lines ls = p ++ X ++ CR :: y ->
    exists l1 pl l2,
      ls = l1 ++ (pl ++ X) :: l2 /\ p = closed_lines l1 ++ pl /\ y = LF :: closed_lines l2.
Proof.
  induction 1 as [|l ls Hl Hls IH]; intros p X y HX Hne E.
  - exfalso. destruct p; [destruct X; [contradiction | discriminate E] | discriminate E].
  - rewrite closed_lines_cons in E.
    assert (Hend : at_line_end (CR :: y)).
    { right. exists CR, y. split; reflexivity. }
    destruct (line_text_split p) as [Hp|(p1 & a & p2 & -> & Hp1 & Ha)].
    + rewrite (app_assoc p X) in E.
      apply line_split_unique in E;
        [| exact Hl | apply Forall_app; split; assumption | apply at_line_end_CRLF | exact Hend].
      destruct E as [-> E]. injection E as <-.
      exists [], p, ls. repeat split.
    + rewrite <- app_assoc in E. cbn [app] in E.
      apply line_split_unique in E;
        [| exact Hl | exact Hp1 | apply at_line_end_CRLF
         | right; eexists; eexists; split; [reflexivity | exact Ha]].
      destruct E as [-> E]. injection E as <- E.
      destruct p2 as [|b p2].
      * exfalso. destruct X as [|x X]; [contradiction|]. cbn [app] in E. injection E as <- _.
        inversion HX as [|x' X' Hx _]; subst. discriminate Hx.
      * cbn [app] in E. injection E as <- E.
        destruct (IH p2 X y HX Hne E) as (l1 & pl & l2 & -> & -> & ->).
        exists (p1 :: l1), pl, l2. repeat split.
        rewrite closed_lines_cons, <- !app_assoc. reflexivity.
Qed.

(** The one element with a property that no other element of a list
    has. *)
Lemma split_unique (A : Type) (Q : A -> Prop) (a : list A) :
  forall (a' : list A) (x x' : A) (b b' : list A),
    a ++ x :: b = a' ++ x' :: b' ->
    Forall (fun y => ~ Q y) a -> Forall (fun y => ~ Q y) b -> Q x' ->
    a' = a /\ x' = x /\ b' = b.
Proof.
  induction a as [|h a IH]; intros a' x x' b b' E Ha Hb Hx'.
  - destruct a' as [|z a'].
    + injection E as -> ->. repeat split.
    + exfalso. cbn [app] in E. injection E as _ E. subst b.
      rewrite Forall_forall in Hb. apply (Hb x'); [|exact Hx'].
      apply in_or_app. right. left. reflexivity.
  - inversion Ha as [|h' a0 Hh Ha']; subst. destruct a' as [|z a'].
    + exfalso. cbn [app] in E. injection E as -> _. contradiction.
    + cbn [app] in E. injection E as <- E.
      destruct (IH a' x x' b b' E Ha' Hb Hx') as (-> & -> & ->). repeat split.
Qed.

Lemma closed_lines_nil (ls : list str) : closed_lines ls = [] -> ls = [].
Proof.
  destruct ls as [|l ls]; [reflexivity|]. rewrite closed_lines_cons.
  intro H. destruct l; discriminate H.
Qed.

(** Lines that end with a digit. *)
Definition digit_ended (l : str) : Prop := is_digit (last l " "%char) = true.

Lemma last_app (a w : str) (d : ascii) : w <> [] -> last (a ++ w) d = last w d.
Proof.
  intro H. induction a as [|x a IH]; [reflexivity|].
  cbn [app]. destruct (a ++ w) as [|y l] eqn:E.
  - destruct a; [contradiction | discriminate E].
  - exact IH.
Qed.

Lemma digit_ended_app (a w : str) : digit_ended w -> digit_ended (a ++ w).
Proof.
  unfold digit_ended. intro H. rewrite last_app; [exact H|].
  intros ->. discriminate H.
Qed.

Lemma digits_digit_ended (w : str) : digits_text w -> digit_ended w.
Proof.
  intros [Hne Hw]. unfold digit_ended. rewrite Forall_forall in Hw. apply Hw.
  destruct w as [|x w]; [contradiction|].
  clear Hne Hw. revert x. induction w as [|y w IH]; intro x; [left; reflexivity|].
  right. cbn [last] in *. apply IH.
Qed.

Lemma version_text_digit_ended (M m p : str) (b : option str) :
  version_parts M m p b -> digit_ended (version_text M m p b).
Proof.
  intros (_ & _ & Hp & Hb). unfold version_text. rewrite !app_assoc.
  destruct b as [x|].
  - rewrite app_assoc. apply digit_ended_app. apply digits_digit_ended. exact Hb.
  - rewrite app_nil_r. apply digit_ended_app. apply digits_digit_ended. exact Hp.
Qed.

Lemma digit_ended_not_starred (l pl X : str) :
  digit_ended l -> l <> pl ++ X ++ ["*"%char].
Proof.
  unfold digit_ended. intros H ->. rewrite app_assoc, last_last in H. discriminate H.
Qed.

(** ** The items of rendered checklist lines *)

(** The URLs the encoder is meant for: a pull request, or an issue or a
    pull request, of some owner and repository. *)
Definition pull_request_url (URL : str) : Prop :=
  exists owner repo number,
    name_text owner /\ name_text repo /\ digits_text number
    /\ URL = forge_url owner repo (lit "pull") number.

Definition issue_or_pull_request_url (URL : str) : Prop :=
  exists owner repo kind number,
    name_text owner /\ name_text repo /\ (kind = lit "pull" \/ kind = lit "issues")
    /\ digits_text number
    /\ URL = forge_url owner repo kind number.

Lemma pull_request_url_either (URL : str) :
  pull_request_url URL -> issue_or_pull_request_url URL.
Proof.
  intros (owner & repo & number & Ho & Hr & Hn & ->).
  exists owner, repo, (lit "pull"), number. repeat split; try assumption; try apply Ho;
    try apply Hr; try apply Hn. left. reflexivity.
Qed.

(** A rendered line without its line end. *)
Definition box_line (checked : list str) (URL : str) : str :=
  (if Underscore.contains checked URL then lit "- [x]" else lit "- [ ]") ++ lit " " ++ URL.

Lemma checklist_lines_cons (checked : list str) (URL : str) (URLs : list str) :
  checklist_lines checked (URL :: URLs)
  = box_line checked URL ++ CRLF ++ checklist_lines checked URLs.
Proof.
  unfold checklist_lines, checklist_line, box_line. cbn [map concat].
  rewrite <- !app_assoc. reflexivity.
Qed.

Lemma item_at_line (checked : list str) (URL rest p0 : str) :
  issue_or_pull_request_url URL ->
  at_line_end rest ->
  exists c,
    search checklistItemRegex p0 (box_line checked URL ++ rest)
    = Some (Found (rev p0) (box_line checked URL) c rest)
    /\ get_cap 1 c = Some URL.
Proof.
  intros (owner & repo & kind & number & [Ho _] & [Hr _] & Hk & Hn & ->) Hrest.
  assert (Hparts : url_parts owner repo kind number) by (repeat split; assumption || apply Hn).
  assert (Hbox : exists box,
             (box = " " \/ box = "x")%char
             /\ box_line checked (forge_url owner repo kind number)
                = lit "- [" ++ [box] ++ lit "] " ++ forge_url owner repo kind number).
  { unfold box_line. destruct (Underscore.contains checked _).
    - exists "x"%char. split; [right; reflexivity | reflexivity].
    - exists " "%char. split; [left; reflexivity | reflexivity]. }
  destruct Hbox as (box & Hb & ->).
  destruct (@item_match_here box owner repo kind number [] rest Hb Hparts (Forall_nil _) Hrest)
    as (c & He & Hc).
  rewrite app_nil_r in He, Hc. exists c. split; [|exact Hc].
  apply search_at.
  rewrite <- !app_assoc. exact He.
Qed.

Lemma search_past_line_end (p0 s : str) :
  search checklistItemRegex p0 (CRLF ++ s) = search checklistItemRegex (LF :: CR :: p0) s.
Proof.
  unfold CRLF. cbn [app].
  rewrite search_step by reflexivity. rewrite search_step by reflexivity. reflexivity.
Qed.

Lemma box_line_cons (checked : list str) (URL : str) :
  exists a w, box_line checked URL = a :: w.
Proof.
  unfold box_line. destruct (Underscore.contains checked URL); eexists; eexists; reflexivity.
Qed.

Lemma items_after_line (checked : list str) (URLs : list str) :
  Forall issue_or_pull_request_url URLs ->
  forall (fuel : nat) (p0 : str),
    length (CRLF ++ checklist_lines checked URLs) < fuel ->
    map (fun f => get_cap 1 (caps f))
      (search_all checklistItemRegex fuel p0 (CRLF ++ checklist_lines checked URLs))
    = map Some URLs.
Proof.
  induction 1 as [|URL URLs HU HUs IH]; intros fuel p0 Hfuel.
  - destruct fuel as [|fuel]; [lia|]. reflexivity.
  - destruct fuel as [|fuel]; [lia|]. cbn [search_all].
    rewrite search_past_line_end, checklist_lines_cons.
    destruct (@item_at_line checked URL (CRLF ++ checklist_lines checked URLs)
                (LF :: CR :: p0) HU (at_line_end_CRLF _)) as (c & -> & Hc).
    cbn [matched after caps map]. rewrite Hc.
    destruct (box_line_cons checked URL) as (a & w & Hw). rewrite Hw.
    f_equal. apply IH.
    rewrite checklist_lines_cons, !length_app in Hfuel. rewrite length_app.
    change (length CRLF) with 2 in *. lia.
Qed.

Lemma checklistItems_of_lines (checked : list str) (URLs : list str) :
  Forall issue_or_pull_request_url URLs ->
  checklistItems (checklist_lines checked URLs) = map Some URLs.
Proof.
  intro H. unfold checklistItems, String_matchAll. rewrite map_map.
  change (fun x => nth 1 (match_array checklistItemRegex x) None)
    with (fun f => get_cap 1 (caps f)).
  unfold all_matches. destruct H as [|URL URLs HU HUs]; [reflexivity|].
  cbn [search_all]. rewrite checklist_lines_cons.
  destruct (@item_at_line checked URL (CRLF ++ checklist_lines checked URLs) [] HU
              (at_line_end_CRLF _)) as (c & -> & Hc).
  cbn [matched after caps map]. rewrite Hc.
  destruct (box_line_cons checked URL) as (a & w & Hw). rewrite Hw.
  f_equal. apply items_after_line; [exact HUs|].
  rewrite !length_app. change (length CRLF) with 2. cbn [length]. lia.
Qed.

(** ** The two sections of a body made of lines *)

(** The line [l] ends with the text [X]. *)
Definition ends_with (X l : str) : Prop := exists pl, l = pl ++ X.

Lemma blank_no_header (a : ascii) (X : str) : ~ ends_with (a :: X) [].
Proof.
  intros [pl E]. destruct pl; discriminate E.
Qed.

Lemma PRListSection_shape (s s' : str) (c : captures) :
  exec_at PRListSectionRegex s = Some (s', c) ->
  exists ls,
    ls <> [] /\ Forall line_text ls
    /\ s = lit "pull requests:**" ++ CRLF ++ closed_lines ls ++ CRLF ++ s'
    /\ get_cap 1 c = Some (closed_lines ls).
Proof.
  unfold exec_at.
  change PRListSectionRegex
    with (Cat (Lit (lit "pull requests:**"))
            (Cat (Lit CRLF) (Cat (Grp 1 lines1) (Cat (Lit CRLF) Eps)))).
  intro H.
  apply run_Cat_sound in H. destruct H as (w1 & s1 & c1 & -> & H1 & H).
  apply derives_Lit in H1. destruct H1 as [-> ->].
  apply run_Cat_sound in H. destruct H as (w2 & s2 & c2 & -> & H2 & H).
  apply derives_Lit in H2. destruct H2 as [-> ->].
  apply run_Cat_sound in H. destruct H as (w3 & s3 & c3 & -> & H3 & H).
  apply run_Cat_sound in H. destruct H as (w4 & s4 & c4 & -> & H4 & H).
  apply (derives_Lit CRLF) in H4. destruct H4 as [-> ->].
  cbn [run] in H. injection H as <- <-.
  inversion H3 as [ | | | | | | | | | | i r w d d1 Hlines ]; subst.
  destruct (derives_lines1_lines Hlines) as (ls & Hne & Hls & ->).
  exists ls. repeat split; assumption.
Qed.

Lemma lines_line_end (ls : list str) (x : str) :
  exists y, closed_lines ls ++ CRLF ++ x = closed_lines (ls ++ [[]]) ++ x /\ y = x.
Proof.
  exists x. split; [|reflexivity].
  rewrite closed_lines_app. unfold closed_lines at 3. cbn [map concat app].
  rewrite <- !app_assoc. reflexivity.
Qed.

(** The pull-request section of a body of whole lines: the lines between
    the one line that ends with the header text and the one blank line
    after it. *)
Lemma PRListSection_of_lines (A P D : list str) (prefix : str) :
  Forall line_text A -> line_text prefix -> Forall line_text P -> Forall line_text D ->
  Forall (fun l => ~ ends_with (lit "pull requests:**") l) A ->
  Forall (fun l => ~ ends_with (lit "pull requests:**") l) (P ++ [] :: D) ->
  P <> [] ->
  Forall (fun l => l <> []) P -> Forall (fun l => l <> []) D ->
  first_group PRListSectionRegex
    (closed_lines (A ++ (prefix ++ lit "pull requests:**") :: P ++ [] :: D))
  = Ok (closed_lines P).
Proof.
  intros HA Hprefix HP HD HnA HnPD Hne HneP HneD.
  set (X := lit "pull requests:**").
  set (L := A ++ (prefix ++ X) :: P ++ [] :: D).
  assert (HL : Forall line_text L).
  { unfold L. apply Forall_app. split; [exact HA|]. constructor.
    - apply Forall_app. split; [exact Hprefix | repeat constructor].
    - apply Forall_app. split; [exact HP|]. constructor; [constructor | exact HD]. }
  set (s1 := X ++ CRLF ++ closed_lines P ++ CRLF ++ closed_lines D).
  assert (Hbody : closed_lines L = (closed_lines A ++ prefix) ++ s1).
  { unfold L, s1. rewrite closed_lines_app, closed_lines_cons, closed_lines_app,
      closed_lines_cons. rewrite <- !app_assoc. reflexivity. }
  assert (Hhere : exec_at PRListSectionRegex s1 <> None).
  { assert (Hm : matches PRListSectionRegex (X ++ CRLF ++ closed_lines P ++ CRLF)).
    { change PRListSectionRegex
        with (Cat (Lit X) (Cat (Lit CRLF) (Cat (Grp 1 lines1) (Cat (Lit CRLF) Eps)))).
      apply matches_Cat; [apply matches_Lit|].
      apply matches_Cat; [apply matches_Lit|].
      apply matches_Cat; [apply matches_Grp; apply matches_lines1; assumption|].
      pose proof (matches_Cat (matches_Lit CRLF) matches_Eps) as Hend.
      rewrite app_nil_r in Hend. exact Hend. }
    destruct (@exec_at_complete _ _ (closed_lines D) Hm eq_refl) as (s'' & c & He).
    unfold s1. rewrite <- !app_assoc in He. rewrite He. discriminate. }
  destruct (@search_leftmost _ _ Hhere (closed_lines A ++ prefix) [])
    as (f & skipped & rest_pre & Hf & Hpre & Hm & He).
  destruct (PRListSection_shape _ He) as (ls & Hlsne & Hls & Hshape & Hcap).
  assert (Hocc : closed_lines L
                 = skipped ++ X ++ CR :: LF :: closed_lines ls ++ CRLF ++ after f).
  { rewrite Hbody, Hpre, <- app_assoc, <- Hm, Hshape. reflexivity. }
  apply line_end_in_lines in Hocc; [| exact HL | repeat constructor | discriminate].
  destruct Hocc as (l1 & pl & l2 & HLsplit & _ & Hy).
  injection Hy as Hy.
  assert (Hu : l1 = A /\ pl ++ X = prefix ++ X /\ l2 = P ++ [] :: D).
  { apply (@split_unique _ (ends_with X) A l1 (prefix ++ X) (pl ++ X) (P ++ [] :: D) l2).
    - exact HLsplit.
    - exact HnA.
    - exact HnPD.
    - exists pl. reflexivity. }
  destruct Hu as (_ & _ & ->).
  assert (Hls' : ls = P).
  { assert (E : closed_lines (ls ++ [[]]) ++ after f = closed_lines (P ++ [] :: D) ++ []).
    { rewrite app_nil_r, <- Hy. destruct (lines_line_end ls (after f)) as (y & <- & _).
      reflexivity. }
    apply closed_lines_prefix in E.
    - assert (E' : exists l3, P ++ [] :: D = ls ++ [] :: l3).
      { destruct E as [(l3 & E & _)|(l3 & E & E0)].
        - exists l3. rewrite E, <- app_assoc. reflexivity.
        - symmetry in E0. apply app_eq_nil in E0. destruct E0 as [E0 _].
          apply closed_lines_nil in E0. subst l3. rewrite app_nil_r in E.
          destruct (exists_last Hlsne) as (ls0 & z & ->).
          exists []. rewrite <- E. reflexivity. }
      destruct E' as (l3 & E').
      apply (@split_unique _ (fun l => l = []) P ls [] [] D l3) in E'.
      + destruct E' as (-> & _). reflexivity.
      + eapply Forall_impl; [|exact HneP]. intros l Hl. exact Hl.
      + eapply Forall_impl; [|exact HneD]. intros l Hl. exact Hl.
      + reflexivity.
    - apply Forall_app. split; [exact Hls | repeat constructor].
    - apply Forall_app. split; [exact HP|]. constructor; [constructor | exact HD]. }
  subst ls.
  unfold first_group, String_match, exec. fold L. rewrite Hbody, Hf.
  cbn [option_map of_nullable bind].
  change (nth 1 (match_array PRListSectionRegex f) None) with (get_cap 1 (caps f)).
  rewrite Hcap. reflexivity.
Qed.

(** The deploy-blocker section of a body of whole lines: all the lines
    after the one line that ends with the header text. *)
Lemma deployBlockerSection_of_lines (A D : list str) (prefix : str) :
  Forall line_text A -> line_text prefix -> Forall line_text D ->
  Forall (fun l => ~ ends_with (lit "Deploy Blockers:**") l) A ->
  Forall (fun l => ~ ends_with (lit "Deploy Blockers:**") l) D ->
  D <> [] ->
  first_group deployBlockerSectionRegex
    (closed_lines (A ++ (prefix ++ lit "Deploy Blockers:**") :: D))
  = Ok (closed_lines D).
Proof.
  intros HA Hprefix HD HnA HnD Hne.
  set (X := lit "Deploy Blockers:**").
  set (L := A ++ (prefix ++ X) :: D).
  assert (HL : Forall line_text L).
  { unfold L. apply Forall_app. split; [exact HA|]. constructor; [|exact HD].
    apply Forall_app. split; [exact Hprefix | repeat constructor]. }
  set (s1 := X ++ CRLF ++ closed_lines D).
  assert (Hbody : closed_lines L = (closed_lines A ++ prefix) ++ s1).
  { unfold L, s1. rewrite closed_lines_app, closed_lines_cons. rewrite <- !app_assoc.
    reflexivity. }
  assert (Hhere : exec_at deployBlockerSectionRegex s1
                  = Some ([], set_cap 1 (closed_lines D) [])).
  { unfold exec_at, s1.
    change deployBlockerSectionRegex
      with (Cat (Lit X) (Cat (Lit CRLF) (Cat (Grp 1 lines1) Eps))).
    rewrite run_Cat_eq, run_Lit_eq, run_Cat_eq, run_Lit_eq, run_Cat_eq, run_Grp_eq.
    rewrite run_lines1_all; try assumption.
    - cbn [run length]. rewrite Nat.sub_0_r, firstn_all. reflexivity.
    - cbn [run]. discriminate. }
  assert (Hsome : exec_at deployBlockerSectionRegex s1 <> None)
    by (rewrite Hhere; discriminate).
  destruct (@search_leftmost _ _ Hsome (closed_lines A ++ prefix) [])
    as (f & skipped & rest_pre & Hf & Hpre & Hm & He).
  assert (He' := He).
  change deployBlockerSectionRegex
    with (Cat (Lit X) (Cat (Lit CRLF) (Cat (Grp 1 lines1) Eps))) in He'.
  apply section_shape in He'; [|reflexivity].
  destruct He' as (section & following & Hshape & _ & _).
  assert (Hocc : closed_lines L = skipped ++ X ++ CR :: LF :: section ++ following).
  { rewrite Hbody, Hpre, <- app_assoc, <- Hm, Hshape. reflexivity. }
  apply line_end_in_lines in Hocc; [| exact HL | repeat constructor | discriminate].
  destruct Hocc as (l1 & pl & l2 & HLsplit & Hskipped & _).
  assert (Hu : l1 = A /\ pl ++ X = prefix ++ X /\ l2 = D).
  { apply (@split_unique _ (ends_with X) A l1 (prefix ++ X) (pl ++ X) D l2).
    - exact HLsplit.
    - exact HnA.
    - exact HnD.
    - exists pl. reflexivity. }
  destruct Hu as (-> & Hpl & _). apply app_inv_tail in Hpl. subst pl.
  assert (Hrest : rest_pre = []).
  { rewrite Hskipped in Hpre. rewrite <- (app_nil_r (closed_lines A ++ prefix)) in Hpre at 1.
    apply app_inv_head in Hpre. symmetry. exact Hpre. }
  subst rest_pre. cbn [app] in Hm. rewrite Hm, Hhere in He. injection He as Hafter Hcaps.
  unfold first_group, String_match, exec. fold L. rewrite Hbody, Hf.
  cbn [option_map of_nullable bind].
  change (nth 1 (match_array deployBlockerSectionRegex f) None) with (get_cap 1 (caps f)).
  rewrite <- Hcaps. reflexivity.
Qed.

(** ** A body that ends with a blank line

    The pull-request pattern of the decoder takes lines greedily and then
    asks for a blank line: when the body ends with one, its group runs to
    that last blank line, over the deploy-blocker section. *)

Lemma dots_then_line_end (R : Type) (k : cont R) (l : str) :
  line_text l ->
  forall (fuel : nat) (rest : str) (c : captures),
    length (l ++ CRLF ++ rest) <= fuel ->
    repeat_matcher (run Dot) fuel (l ++ CRLF ++ rest) c
      (fun s1 c1 => run (Lit CRLF) s1 c1 k)
    = k rest c.
Proof.
  induction 1 as [|a l Ha Hl IH]; intros fuel rest c Hlen.
  - cbn [app]. destruct fuel as [|fuel]; [reflexivity|]. reflexivity.
  - destruct fuel as [|fuel]; [cbn in Hlen; lia|].
    cbn [app repeat_matcher]. rewrite one_char_Dot. unfold in_line. rewrite Ha.
    cbn [negb length].
    replace (length (l ++ CRLF ++ rest) <? S (length (l ++ CRLF ++ rest))) with true
      by (symmetry; apply Nat.ltb_lt; lia).
    cbn [app length] in Hlen. rewrite (IH fuel rest c) by lia.
    destruct (k rest c) as [x|]; [reflexivity|].
    cbn [Lit CRLF run]. destruct (Ascii.eqb_spec a CR) as [->|_]; [discriminate Ha|].
    reflexivity.
Qed.

(** A line and its end, whatever the continuation answers. *)
Lemma run_line_pattern_any (R : Type) (l rest : str) (c : captures) (k : cont R) :
  line_text l -> run line_pattern (l ++ CRLF ++ rest) c k = k rest c.
Proof.
  intro Hl. unfold line_pattern. rewrite run_Cat_eq. cbn [run].
  apply dots_then_line_end; [exact Hl | apply Nat.le_refl].
Qed.

Lemma lines_up_to_last_blank (R : Type) (k : cont R) (ls : list str) :
  (forall c', k [] c' = None) ->
  Forall line_text ls ->
  forall (fuel : nat) (c : captures),
    length (closed_lines ls ++ CRLF) <= fuel ->
    k CRLF c <> None ->
    repeat_matcher (run line_pattern) fuel (closed_lines ls ++ CRLF) c k = k CRLF c.
Proof.
  intros Hend. induction 1 as [|l ls Hl Hls IH]; intros fuel c Hlen Hk.
  - cbn [closed_lines map concat app] in *.
    destruct fuel as [|fuel]; [cbn in Hlen; lia|]. cbn [repeat_matcher].
    change CRLF with ([] ++ CRLF ++ []) at 1. rewrite run_line_pattern_any by constructor.
    cbn [length Nat.ltb Nat.leb]. rewrite repeat_matcher_at_end, Hend. reflexivity.
  - rewrite closed_lines_cons, <- !app_assoc in *.
    destruct fuel as [|fuel].
    { rewrite !length_app in Hlen. cbn [length CRLF] in Hlen. lia. }
    cbn [repeat_matcher]. rewrite run_line_pattern_any by exact Hl.
    assert (Hlt : (length (closed_lines ls ++ CRLF)
                     <? length (l ++ CRLF ++ closed_lines ls ++ CRLF)) = true).
    { apply Nat.ltb_lt. rewrite !length_app. cbn [length CRLF]. lia. }
    rewrite Hlt. rewrite IH.
    + destruct (k CRLF c) as [x|] eqn:Hx; [reflexivity | contradiction].
    + rewrite !length_app in *. cbn [length CRLF] in *. lia.
    + exact Hk.
Qed.

Lemma exec_at_PRListSection_to_blank (ls : list str) :
  ls <> [] -> Forall line_text ls ->
  exec_at PRListSectionRegex (lit "pull requests:**" ++ CRLF ++ closed_lines ls ++ CRLF)
  = Some ([], set_cap 1 (closed_lines ls) []).
Proof.
  intros Hne Hls. destruct ls as [|l ls]; [contradiction|].
  inversion Hls as [|l' ls' Hl Hls']; subst.
  unfold exec_at.
  change PRListSectionRegex
    with (Cat (Lit (lit "pull requests:**"))
            (Cat (Lit CRLF) (Cat (Grp 1 lines1) (Cat (Lit CRLF) Eps)))).
  rewrite run_Cat_eq, run_Lit_eq, run_Cat_eq, run_Lit_eq, run_Cat_eq, run_Grp_eq.
  unfold lines1, Plus. fold line_pattern. rewrite run_Cat_eq.
  rewrite closed_lines_cons, <- !app_assoc. rewrite run_line_pattern_any by exact Hl.
  cbn [run]. rewrite lines_up_to_last_blank.
  - cbn [Lit CRLF run]. rewrite !Ascii.eqb_refl.
    replace (l ++ CRLF ++ closed_lines ls ++ CRLF)
      with ((l ++ CRLF ++ closed_lines ls) ++ CRLF) by (rewrite <- !app_assoc; reflexivity).
    rewrite firstn_app_length. reflexivity.
  - intro c'. reflexivity.
  - exact Hls'.
  - apply Nat.le_refl.
  - cbn [Lit CRLF run]. rewrite !Ascii.eqb_refl. discriminate.
Qed.

(** The pull-request section of a body of whole lines that ends with a
    blank line: all the lines between the header and that last line. *)
Lemma PRListSection_to_last_blank_line (A LS : list str) (prefix : str) :
  Forall line_text A -> line_text prefix -> Forall line_text LS ->
  Forall (fun l => ~ ends_with (lit "pull requests:**") l) A ->
  Forall (fun l => ~ ends_with (lit "pull requests:**") l) LS ->
  LS <> [] ->
  first_group PRListSectionRegex
    (closed_lines (A ++ (prefix ++ lit "pull requests:**") :: LS ++ [[]]))
  = Ok (closed_lines LS).
Proof.
  intros HA Hprefix HLS HnA HnLS Hne.
  set (X := lit "pull requests:**").
  set (L := A ++ (prefix ++ X) :: LS ++ [[]]).
  assert (HL : Forall line_text L).
  { unfold L. apply Forall_app. split; [exact HA|]. constructor.
    - apply Forall_app. split; [exact Hprefix | repeat constructor].
    - apply Forall_app. split; [exact HLS | repeat constructor]. }
  set (s1 := X ++ CRLF ++ closed_lines LS ++ CRLF).
  assert (Hbody : closed_lines L = (closed_lines A ++ prefix) ++ s1).
  { unfold L, s1. rewrite closed_lines_app, closed_lines_cons, closed_lines_app.
    unfold closed_lines at 4. cbn [map concat app]. rewrite <- !app_assoc. reflexivity. }
  assert (Hhere : exec_at PRListSectionRegex s1 = Some ([], set_cap 1 (closed_lines LS) []))
    by (apply exec_at_PRListSection_to_blank; assumption).
  assert (Hsome : exec_at PRListSectionRegex s1 <> None) by (rewrite Hhere; discriminate).
  destruct (@search_leftmost _ _ Hsome (closed_lines A ++ prefix) [])
    as (f & skipped & rest_pre & Hf & Hpre & Hm & He).
  destruct (PRListSection_shape _ He) as (ls & _ & _ & Hshape & _).
  assert (Hocc : closed_lines L
                 = skipped ++ X ++ CR :: LF :: closed_lines ls ++ CRLF ++ after f).
  { rewrite Hbody, Hpre, <- app_assoc, <- Hm, Hshape. reflexivity. }
  apply line_end_in_lines in Hocc; [| exact HL | repeat constructor | discriminate].
  destruct Hocc as (l1 & pl & l2 & HLsplit & Hskipped & _).
  assert (Hu : l1 = A /\ pl ++ X = prefix ++ X /\ l2 = LS ++ [[]]).
  { apply (@split_unique _ (ends_with X) A l1 (prefix ++ X) (pl ++ X) (LS ++ [[]]) l2).
    - exact HLsplit.
    - exact HnA.
    - apply Forall_app. split; [exact HnLS | constructor; [apply blank_no_header|constructor]].
    - exists pl. reflexivity. }
  destruct Hu as (-> & Hpl & _). apply app_inv_tail in Hpl. subst pl.
  assert (Hrest : rest_pre = []).
  { rewrite Hskipped in Hpre. rewrite <- (app_nil_r (closed_lines A ++ prefix)) in Hpre at 1.
    apply app_inv_head in Hpre. symmetry. exact Hpre. }
  subst rest_pre. cbn [app] in Hm. rewrite Hm, Hhere in He. injection He as Hafter Hcaps.
  unfold first_group, String_match, exec. fold L. rewrite Hbody, Hf.
  cbn [option_map of_nullable bind].
  change (nth 1 (match_array PRListSectionRegex f) None) with (get_cap 1 (caps f)).
  rewrite <- Hcaps. reflexivity.
Qed.

(** ** Checklist lines followed by other text *)

Lemma checklistItemRegex_head :
  exists t0 t1, checklistItemRegex = Cat (Cat (Chr "-") t0) t1.
Proof.
  do 2 eexists. reflexivity.
Qed.

Lemma item_needs_hyphen (a : ascii) (s : str) :
  a <> "-"%char -> exec_at checklistItemRegex (a :: s) = None.
Proof.
  intro H. destruct checklistItemRegex_head as (t0 & t1 & E). rewrite E.
  unfold exec_at. rewrite !run_Cat_eq. apply run_Chr_mismatch. exact H.
Qed.

Lemma search_all_skip (r : regex) (junk : str) :
  (forall a s, In a junk -> exec_at r (a :: s) = None) ->
  forall (fuel : nat) (p0 s : str),
    search_all r fuel p0 (junk ++ s) = search_all r fuel (rev junk ++ p0) s.
Proof.
  intros H fuel p0 s. destruct fuel as [|fuel]; [reflexivity|].
  cbn [search_all]. rewrite (search_skip _ _ H). reflexivity.
Qed.

Definition item_entries (fuel : nat) (p0 s : str) : list (option str) :=
  map (fun f => get_cap 1 (caps f)) (search_all checklistItemRegex fuel p0 s).

Lemma items_after_line_tail (checked : list str) (tail : str) (tail_items : list (option str)) :
  (forall fuel p0, length (CRLF ++ tail) < fuel ->
     item_entries fuel p0 (CRLF ++ tail) = tail_items) ->
  forall URLs : list str,
    Forall issue_or_pull_request_url URLs ->
    forall (fuel : nat) (p0 : str),
      length (CRLF ++ checklist_lines checked URLs ++ tail) < fuel ->
      item_entries fuel p0 (CRLF ++ checklist_lines checked URLs ++ tail)
      = map Some URLs ++ tail_items.
Proof.
  intros Htail. induction 1 as [|URL URLs HU HUs IH]; intros fuel p0 Hfuel.
  - apply Htail. exact Hfuel.
  - destruct fuel as [|fuel]; [lia|]. unfold item_entries. cbn [search_all].
    rewrite search_past_line_end, checklist_lines_cons, <- !app_assoc.
    destruct (@item_at_line checked URL (CRLF ++ checklist_lines checked URLs ++ tail)
                (LF :: CR :: p0) HU (at_line_end_CRLF _)) as (c & -> & Hc).
    cbn [matched after caps map]. rewrite Hc.
    destruct (box_line_cons checked URL) as (a & w & Hw). rewrite Hw.
    cbn [app]. f_equal. apply IH.
    rewrite checklist_lines_cons, !length_app in Hfuel. rewrite !length_app.
    change (length CRLF) with 2 in *. lia.
Qed.

Lemma checklistItems_of_lines_tail (checked : list str) (tail : str)
  (tail_items : list (option str)) (URLs : list str) :
  (forall fuel p0, length (CRLF ++ tail) < fuel ->
     item_entries fuel p0 (CRLF ++ tail) = tail_items) ->
  Forall issue_or_pull_request_url URLs -> URLs <> [] ->
  checklistItems (checklist_lines checked URLs ++ tail) = map Some URLs ++ tail_items.
Proof.
  intros Htail H Hne. unfold checklistItems, String_matchAll. rewrite map_map.
  change (fun x => nth 1 (match_array checklistItemRegex x) None)
    with (fun f => get_cap 1 (caps f)).
  unfold all_matches. destruct H as [|URL URLs HU HUs]; [contradiction|].
  cbn [search_all]. rewrite checklist_lines_cons, <- !app_assoc.
  destruct (@item_at_line checked URL (CRLF ++ checklist_lines checked URLs ++ tail) [] HU
              (at_line_end_CRLF _)) as (c & -> & Hc).
  cbn [matched after caps map]. rewrite Hc.
  destruct (box_line_cons checked URL) as (a & w & Hw). rewrite Hw.
  cbn [app]. f_equal.
  apply (@items_after_line_tail checked tail tail_items Htail URLs HUs).
  cbn [length]. rewrite !length_app. change (length CRLF) with 2. lia.
Qed.

Lemma no_item_in_blank_lines (fuel : nat) (p0 : str) :
  item_entries fuel p0 (CRLF ++ CRLF) = [].
Proof.
  destruct fuel as [|fuel]; reflexivity.
Qed.

Lemma items_after_blocker_header (checked DBs : list str) :
  Forall issue_or_pull_request_url DBs ->
  forall (fuel : nat) (p0 : str),
    length (CRLF ++ CRLF ++ lit "**Deploy Blockers:**" ++ CRLF ++ checklist_lines checked DBs)
    < fuel ->
    item_entries fuel p0
      (CRLF ++ CRLF ++ lit "**Deploy Blockers:**" ++ CRLF ++ checklist_lines checked DBs)
    = map Some DBs.
Proof.
  intros HD fuel p0 Hfuel. unfold item_entries.
  change (CRLF ++ CRLF ++ lit "**Deploy Blockers:**" ++ CRLF ++ checklist_lines checked DBs)
    with ((CRLF ++ CRLF ++ lit "**Deploy Blockers:**")
            ++ CRLF ++ checklist_lines checked DBs).
  rewrite search_all_skip.
  - apply items_after_line; [exact HD|].
    rewrite !length_app in *. change (length CRLF) with 2 in *. lia.
  - intros a s Ha. apply item_needs_hyphen.
    cbn in Ha. repeat (destruct Ha as [<-|Ha]; [discriminate|]). contradiction.
Qed.

(** ** Decoding what the encoder rendered *)

Section RoundTrip.
Import Underscore.

Definition box_lines (checked URLs : list str) : list str := map (box_line checked) URLs.

Lemma checklist_lines_box (checked URLs : list str) :
  checklist_lines checked URLs = closed_lines (box_lines checked URLs).
Proof.
  apply checklist_lines_closed.
Qed.

Lemma forge_url_digit_ended (owner repo kind number : str) :
  digits_text number -> digit_ended (forge_url owner repo kind number).
Proof.
  intro H. unfold forge_url. do 8 apply digit_ended_app. apply digits_digit_ended. exact H.
Qed.

Lemma either_url_line (checked : list str) (URL : str) :
  issue_or_pull_request_url URL ->
  line_text (box_line checked URL) /\ digit_ended (box_line checked URL)
  /\ box_line checked URL <> [].
Proof.
  intros (owner & repo & kind & number & [Ho _] & [Hr _] & Hk & Hn & ->).
  assert (Hparts : url_parts owner repo kind number) by (repeat split; assumption || apply Hn).
  split; [|split].
  - unfold box_line. apply Forall_app. split.
    + destruct (contains checked _); repeat constructor.
    + apply Forall_app. split; [repeat constructor | apply forge_url_line_text; exact Hparts].
  - unfold box_line. do 2 apply digit_ended_app. apply forge_url_digit_ended. exact Hn.
  - destruct (box_line_cons checked (forge_url owner repo kind number)) as (a & w & ->).
    discriminate.
Qed.

Lemma box_lines_facts (checked URLs : list str) :
  Forall issue_or_pull_request_url URLs ->
  Forall line_text (box_lines checked URLs)
  /\ Forall digit_ended (box_lines checked URLs)
  /\ Forall (fun l => l <> []) (box_lines checked URLs).
Proof.
  induction 1 as [|URL URLs HU HUs (IH1 & IH2 & IH3)]; cbn [box_lines map].
  - repeat split; constructor.
  - destruct (either_url_line checked HU) as (H1 & H2 & H3).
    repeat split; constructor; assumption.
Qed.

Lemma digit_ended_no_header (header l : str) :
  digit_ended l -> ~ ends_with (header ++ ["*"%char]) l.
Proof.
  intros H [pl E]. exact (digit_ended_not_starred pl header H E).
Qed.

Definition release_line (tag : str) : str := lit "**Release Version:** " ++ tag.
Definition compare_line (URL : str) : str := lit "**Compare Changes:** " ++ URL.
Definition PR_header : str :=
  lit "**This release contains changes from the following pull requests:**".
Definition blocker_header : str := lit "**Deploy Blockers:**".

Lemma blocker_header_not_PR : ~ ends_with (lit "pull requests:**") blocker_header.
Proof.
  intros [pl E]. apply (f_equal (@rev ascii)) in E. rewrite rev_app_distr in E.
  cbn in E. discriminate E.
Qed.

Lemma PR_header_not_blocker : ~ ends_with (lit "Deploy Blockers:**") PR_header.
Proof.
  intros [pl E]. apply (f_equal (@rev ascii)) in E. rewrite rev_app_distr in E.
  cbn in E. discriminate E.
Qed.

(** The text of a body with both sections. *)
Definition body_text (tag URL : str) (verified PRs resolved DBs : list str) : str :=
  lit "**Release Version:** " ++ tag ++ CRLF
  ++ lit "**Compare Changes:** " ++ URL ++ CRLF
  ++ (lit "**This release contains changes from the following pull requests:**" ++ CRLF
      ++ checklist_lines verified PRs)
  ++ (CRLF ++ lit "**Deploy Blockers:**" ++ CRLF ++ checklist_lines resolved DBs).

Lemma body_text_lines (tag URL : str) (verified PRs resolved DBs : list str) :
  body_text tag URL verified PRs resolved DBs
  = closed_lines ([release_line tag; compare_line URL]
                    ++ PR_header :: box_lines verified PRs
                    ++ [] :: blocker_header :: box_lines resolved DBs).
Proof.
  unfold body_text. rewrite !checklist_lines_box.
  change ([release_line tag; compare_line URL]
            ++ PR_header :: box_lines verified PRs
            ++ [] :: blocker_header :: box_lines resolved DBs)
    with (release_line tag :: compare_line URL :: PR_header
            :: (box_lines verified PRs ++ [] :: blocker_header :: box_lines resolved DBs)).
  rewrite !closed_lines_cons, closed_lines_app, !closed_lines_cons.
  unfold release_line, compare_line, PR_header, blocker_header.
  rewrite <- !app_assoc. reflexivity.
Qed.

Section Sections.
Variables (M m p : str) (b : option str).
Variables (pM pm pp : str) (pb : option str) (cM cm cp : str) (cb : option str).
Variables (verified PRs resolved DBs : list str).

Hypothesis tag_parts : version_parts M m p b.
Hypothesis previous_parts : version_parts pM pm pp pb.
Hypothesis current_parts : version_parts cM cm cp cb.
Hypothesis PRs_shape : Forall pull_request_url PRs.
Hypothesis DBs_shape : Forall issue_or_pull_request_url DBs.
Hypothesis PRs_some : PRs <> [].
Hypothesis DBs_some : DBs <> [].

Let tag_text := version_text M m p b.
Let link := getComparisonURL (version_text pM pm pp pb) (version_text cM cm cp cb).
Let text := body_text tag_text link verified PRs resolved DBs.

Lemma PRs_either : Forall issue_or_pull_request_url PRs.
Proof.
  eapply Forall_impl; [|exact PRs_shape]. exact pull_request_url_either.
Qed.

Lemma version_line_text : line_text tag_text.
Proof.
  pose proof (version_text_chars tag_parts) as H. unfold line_text.
  eapply Forall_impl; [|exact H]. intros a Ha. unfold version_char in Ha.
  destruct (is_line_terminator a) eqn:Hl; [|reflexivity].
  apply line_terminator_cases in Hl. destruct Hl as [->| ->]; discriminate Ha.
Qed.

Lemma comparison_URL_facts : line_text link /\ digit_ended link.
Proof.
  unfold link, getComparisonURL. split.
  - assert (Hv : forall A B C D, version_parts A B C D -> line_text (version_text A B C D)).
    { intros A B C D HV. pose proof (version_text_chars HV) as H. unfold line_text.
      eapply Forall_impl; [|exact H]. intros a Ha. unfold version_char in Ha.
      destruct (is_line_terminator a) eqn:Hl; [|reflexivity].
      apply line_terminator_cases in Hl. destruct Hl as [->| ->]; discriminate Ha. }
    unfold line_text in *. rewrite !Forall_app.
    split; [repeat constructor|]. split; [repeat constructor|].
    split; [apply Hv; exact previous_parts|]. split; [repeat constructor|].
    apply Hv. exact current_parts.
  - do 4 apply digit_ended_app. apply version_text_digit_ended. exact current_parts.
Qed.

Lemma rendered_tag : extract_tag text = Ok tag_text.
Proof.
  unfold text, body_text, tag_text. apply extract_tag_of_release_line; [exact tag_parts|].
  split; [reflexivity | discriminate].
Qed.

Lemma rendered_comparisonURL : extract_comparisonURL text = Ok link.
Proof.
  unfold text, body_text, tag_text, link. rewrite <- !app_assoc.
  apply extract_comparisonURL_of_body; try assumption.
  split; [reflexivity | discriminate].
Qed.

Lemma rendered_PRList : extract_PRList text = Ok (map Some PRs).
Proof.
  unfold extract_PRList, text. rewrite body_text_lines.
  destruct (box_lines_facts verified PRs_either) as (HP1 & HP2 & HP3).
  destruct (box_lines_facts resolved DBs_shape) as (HD1 & HD2 & HD3).
  destruct comparison_URL_facts as [HU1 HU2].
  change PR_header
    with (lit "**This release contains changes from the following " ++ lit "pull requests:**").
  rewrite PRListSection_of_lines.
  - cbn [bind]. rewrite <- checklist_lines_box.
    rewrite (checklistItems_of_lines verified PRs_either). reflexivity.
  - constructor; [|constructor; [|constructor]].
    + apply Forall_app. split; [repeat constructor | exact version_line_text].
    + apply Forall_app. split; [repeat constructor | exact HU1].
  - repeat constructor.
  - exact HP1.
  - constructor; [repeat constructor | exact HD1].
  - constructor; [|constructor; [|constructor]].
    + apply (@digit_ended_no_header (lit "pull requests:*")).
      apply digit_ended_app. apply version_text_digit_ended. exact tag_parts.
    + apply (@digit_ended_no_header (lit "pull requests:*")).
      apply digit_ended_app. exact HU2.
  - apply Forall_app. split.
    + eapply Forall_impl; [|exact HP2]. intros l Hl.
      apply (@digit_ended_no_header (lit "pull requests:*")). exact Hl.
    + constructor; [apply blank_no_header|]. constructor; [exact blocker_header_not_PR|].
      eapply Forall_impl; [|exact HD2]. intros l Hl.
      apply (@digit_ended_no_header (lit "pull requests:*")). exact Hl.
  - unfold box_lines. destruct PRs; [contradiction | discriminate].
  - exact HP3.
  - constructor; [discriminate | exact HD3].
Qed.

Lemma rendered_deployBlockers : extract_deployBlockers text = Ok (map Some DBs).
Proof.
  unfold extract_deployBlockers, text. rewrite body_text_lines.
  destruct (box_lines_facts verified PRs_either) as (HP1 & HP2 & HP3).
  destruct (box_lines_facts resolved DBs_shape) as (HD1 & HD2 & HD3).
  destruct comparison_URL_facts as [HU1 HU2].
  change ([release_line tag_text; compare_line link]
            ++ PR_header :: box_lines verified PRs
            ++ [] :: blocker_header :: box_lines resolved DBs)
    with (([release_line tag_text; compare_line link; PR_header] ++ box_lines verified PRs)
            ++ [] :: (lit "**" ++ lit "Deploy Blockers:**") :: box_lines resolved DBs).
  replace (([release_line tag_text; compare_line link; PR_header] ++ box_lines verified PRs)
             ++ [] :: (lit "**" ++ lit "Deploy Blockers:**") :: box_lines resolved DBs)
    with ((([release_line tag_text; compare_line link; PR_header] ++ box_lines verified PRs)
             ++ [[]]) ++ (lit "**" ++ lit "Deploy Blockers:**") :: box_lines resolved DBs)
    by (rewrite <- !app_assoc; reflexivity).
  rewrite deployBlockerSection_of_lines.
  - cbn [bind]. rewrite <- checklist_lines_box.
    rewrite (checklistItems_of_lines resolved DBs_shape). reflexivity.
  - apply Forall_app. split; [|repeat constructor].
    apply Forall_app. split; [|exact HP1].
    constructor; [|constructor; [|constructor; [|constructor]]].
    + apply Forall_app. split; [repeat constructor | exact version_line_text].
    + apply Forall_app. split; [repeat constructor | exact HU1].
    + repeat constructor.
  - repeat constructor.
  - exact HD1.
  - apply Forall_app. split; [|constructor; [apply blank_no_header | constructor]].
    apply Forall_app. split.
    + constructor; [|constructor; [|constructor; [|constructor]]].
      * apply (@digit_ended_no_header (lit "Deploy Blockers:*")).
        apply digit_ended_app. apply version_text_digit_ended. exact tag_parts.
      * apply (@digit_ended_no_header (lit "Deploy Blockers:*")).
        apply digit_ended_app. exact HU2.
      * exact PR_header_not_blocker.
    + eapply Forall_impl; [|exact HP2]. intros l Hl.
      apply (@digit_ended_no_header (lit "Deploy Blockers:*")). exact Hl.
  - eapply Forall_impl; [|exact HD2]. intros l Hl.
    apply (@digit_ended_no_header (lit "Deploy Blockers:*")). exact Hl.
  - unfold box_lines. destruct DBs; [contradiction | discriminate].
Qed.

Lemma decode_body_text (issue : Issue) :
  issue_body issue = Some text ->
  getStagingDeployCashData issue
  = Ok {| title := issue_title issue; url := issue_url issue; labels := issue_labels issue;
          tag := tag_text; comparisonURL := link; PRList := map Some PRs;
          deployBlockers := map Some DBs |}.
Proof.
  intro Hbody. unfold getStagingDeployCashData. rewrite Hbody. cbn [of_nullable bind].
  rewrite rendered_tag. cbn [bind]. rewrite rendered_comparisonURL. cbn [bind].
  rewrite rendered_PRList. cbn [bind]. rewrite rendered_deployBlockers. reflexivity.
Qed.

(** The same body with one more line end: a blank line at its end. *)

Lemma body_text_blank_lines :
  text ++ CRLF
  = closed_lines ([release_line tag_text; compare_line link]
                    ++ PR_header
                    :: (box_lines verified PRs
                        ++ [] :: blocker_header :: box_lines resolved DBs)
                    ++ [[]]).
Proof.
  unfold text. rewrite body_text_lines.
  change ([release_line tag_text; compare_line link]
            ++ PR_header
            :: (box_lines verified PRs ++ [] :: blocker_header :: box_lines resolved DBs)
            ++ [[]])
    with (([release_line tag_text; compare_line link]
             ++ PR_header
             :: box_lines verified PRs ++ [] :: blocker_header :: box_lines resolved DBs)
            ++ [[]]).
  rewrite (closed_lines_app _ [[]]). reflexivity.
Qed.

Lemma rendered_tag_blank : extract_tag (text ++ CRLF) = Ok tag_text.
Proof.
  unfold text, body_text, tag_text. rewrite <- !app_assoc.
  apply extract_tag_of_release_line; [exact tag_parts|].
  split; [reflexivity | discriminate].
Qed.

Lemma rendered_comparisonURL_blank : extract_comparisonURL (text ++ CRLF) = Ok link.
Proof.
  unfold text, body_text, tag_text, link. rewrite <- !app_assoc.
  apply extract_comparisonURL_of_body; try assumption.
  split; [reflexivity | discriminate].
Qed.

Lemma rendered_PRList_blank :
  extract_PRList (text ++ CRLF) = Ok (map Some PRs ++ map Some DBs).
Proof.
  unfold extract_PRList. rewrite body_text_blank_lines.
  destruct (box_lines_facts verified PRs_either) as (HP1 & HP2 & HP3).
  destruct (box_lines_facts resolved DBs_shape) as (HD1 & HD2 & HD3).
  destruct comparison_URL_facts as [HU1 HU2].
  change PR_header
    with (lit "**This release contains changes from the following " ++ lit "pull requests:**").
  rewrite PRListSection_to_last_blank_line.
  - cbn [bind]. rewrite closed_lines_app, !closed_lines_cons, <- !checklist_lines_box.
    change (@nil ascii ++ CRLF ++ blocker_header ++ CRLF ++ checklist_lines resolved DBs)
      with (CRLF ++ lit "**Deploy Blockers:**" ++ CRLF ++ checklist_lines resolved DBs).
    rewrite (@checklistItems_of_lines_tail verified
               (CRLF ++ lit "**Deploy Blockers:**" ++ CRLF ++ checklist_lines resolved DBs)
               (map Some DBs) PRs); try reflexivity; try assumption.
    + intros fuel p0 Hfuel. apply items_after_blocker_header; assumption.
    + exact PRs_either.
  - constructor; [|constructor; [|constructor]].
    + apply Forall_app. split; [repeat constructor | exact version_line_text].
    + apply Forall_app. split; [repeat constructor | exact HU1].
  - repeat constructor.
  - apply Forall_app. split; [exact HP1|].
    constructor; [constructor|]. constructor; [repeat constructor | exact HD1].
  - constructor; [|constructor; [|constructor]].
    + apply (@digit_ended_no_header (lit "pull requests:*")).
      apply digit_ended_app. apply version_text_digit_ended. exact tag_parts.
    + apply (@digit_ended_no_header (lit "pull requests:*")).
      apply digit_ended_app. exact HU2.
  - apply Forall_app. split.
    + eapply Forall_impl; [|exact HP2]. intros l Hl.
      apply (@digit_ended_no_header (lit "pull requests:*")). exact Hl.
    + constructor; [apply blank_no_header|]. constructor; [exact blocker_header_not_PR|].
      eapply Forall_impl; [|exact HD2]. intros l Hl.
      apply (@digit_ended_no_header (lit "pull requests:*")). exact Hl.
  - unfold box_lines. destruct PRs; [contradiction | discriminate].
Qed.

Lemma rendered_deployBlockers_blank :
  extract_deployBlockers (text ++ CRLF) = Ok (map Some DBs).
Proof.
  unfold extract_deployBlockers. rewrite body_text_blank_lines.
  destruct (box_lines_facts verified PRs_either) as (HP1 & HP2 & HP3).
  destruct (box_lines_facts resolved DBs_shape) as (HD1 & HD2 & HD3).
  destruct comparison_URL_facts as [HU1 HU2].
  replace ([release_line tag_text; compare_line link]
             ++ PR_header
             :: (box_lines verified PRs ++ [] :: blocker_header :: box_lines resolved DBs)
             ++ [[]])
    with ((([release_line tag_text; compare_line link; PR_header] ++ box_lines verified PRs)
             ++ [[]])
            ++ (lit "**" ++ lit "Deploy Blockers:**") :: (box_lines resolved DBs ++ [[]]))
    by (cbn [app]; rewrite <- !app_assoc; reflexivity).
  rewrite deployBlockerSection_of_lines.
  - cbn [bind]. rewrite closed_lines_app, <- checklist_lines_box.
    change (closed_lines [[]]) with CRLF.
    rewrite (@checklistItems_of_lines_tail resolved CRLF [] DBs).
    + rewrite app_nil_r. reflexivity.
    + intros fuel p0 _. apply no_item_in_blank_lines.
    + exact DBs_shape.
    + exact DBs_some.
  - apply Forall_app. split; [|repeat constructor].
    apply Forall_app. split; [|exact HP1].
    constructor; [|constructor; [|constructor; [|constructor]]].
    + apply Forall_app. split; [repeat constructor | exact version_line_text].
    + apply Forall_app. split; [repeat constructor | exact HU1].
    + repeat constructor.
  - repeat constructor.
  - apply Forall_app. split; [exact HD1 | repeat constructor].
  - apply Forall_app. split; [|constructor; [apply blank_no_header | constructor]].
    apply Forall_app. split.
    + constructor; [|constructor; [|constructor; [|constructor]]].
      * apply (@digit_ended_no_header (lit "Deploy Blockers:*")).
        apply digit_ended_app. apply version_text_digit_ended. exact tag_parts.
      * apply (@digit_ended_no_header (lit "Deploy Blockers:*")).
        apply digit_ended_app. exact HU2.
      * exact PR_header_not_blocker.
    + eapply Forall_impl; [|exact HP2]. intros l Hl.
      apply (@digit_ended_no_header (lit "Deploy Blockers:*")). exact Hl.
  - apply Forall_app. split; [|constructor; [apply blank_no_header | constructor]].
    eapply Forall_impl; [|exact HD2]. intros l Hl.
    apply (@digit_ended_no_header (lit "Deploy Blockers:*")). exact Hl.
  - destruct (box_lines resolved DBs); discriminate.
Qed.

Lemma decode_body_text_blank (issue : Issue) :
  issue_body issue = Some (text ++ CRLF) ->
  getStagingDeployCashData issue
  = Ok {| title := issue_title issue; url := issue_url issue; labels := issue_labels issue;
          tag := tag_text; comparisonURL := link;
          PRList := map Some PRs ++ map Some DBs;
          deployBlockers := map Some DBs |}.
Proof.
  intro Hbody. unfold getStagingDeployCashData. rewrite Hbody. cbn [of_nullable bind].
  rewrite rendered_tag_blank. cbn [bind]. rewrite rendered_comparisonURL_blank. cbn [bind].
  rewrite rendered_PRList_blank. cbn [bind]. rewrite rendered_deployBlockers_blank.
  reflexivity.
Qed.

End Sections.
End RoundTrip.

Section RoundTripTheorems.
Import Underscore.

Lemma sorted_keeps (Q : str -> Prop) (iteratee : str -> result number) (l r : list str) :
  sortBy (unique l) iteratee = Ok r -> Forall Q l -> l <> [] -> Forall Q r /\ r <> [].
Proof.
  intros Hsort HQ Hne. destruct (sortBy_spec _ _ Hsort) as [Hperm _]. split.
  - rewrite Forall_forall in *. intros x Hx. apply HQ. apply unique_spec.
    apply (Permutation_in _ Hperm). exact Hx.
  - intros ->. apply Permutation_nil in Hperm.
    destruct l as [|x l]; [contradiction|].
    assert (Hin : In x (unique (x :: l))) by (apply unique_spec; left; reflexivity).
    rewrite Hperm in Hin. exact Hin.
Qed.

Lemma pull_request_url_parses (URL : str) :
  pull_request_url URL -> exists n, getPullRequestNumberFromURL URL = Ok n.
Proof.
  intros (owner & repo & number & Ho & Hr & Hn & ->). eexists.
  apply pull_request_number_of_url; assumption.
Qed.

Lemma issue_or_pull_request_url_parses (URL : str) :
  issue_or_pull_request_url URL -> exists n, getIssueOrPullRequestNumberFromURL URL = Ok n.
Proof.
  intros (owner & repo & kind & number & Ho & Hr & Hk & Hn & ->). eexists.
  apply issue_or_pull_request_number_of_url; assumption.
Qed.

(** The callback of the encoder on lists of the expected URLs, neither
    empty: the canonical text, with the lists without repeats and in
    order. *)
Lemma render_body_text (tag comparisonURL : str)
  (PRList verifiedPRList deployBlockers resolvedDeployBlockers : list str) :
  Forall pull_request_url PRList -> Forall issue_or_pull_request_url deployBlockers ->
  PRList <> [] -> deployBlockers <> [] ->
  exists sortedPRList sortedDeployBlockers,
    sortBy (unique PRList) getPullRequestNumberFromURL = Ok sortedPRList
    /\ sortBy (unique deployBlockers) getIssueOrPullRequestNumberFromURL
       = Ok sortedDeployBlockers
    /\ Forall pull_request_url sortedPRList /\ sortedPRList <> []
    /\ Forall issue_or_pull_request_url sortedDeployBlockers /\ sortedDeployBlockers <> []
    /\ render_body tag comparisonURL PRList verifiedPRList deployBlockers
         resolvedDeployBlockers
       = Ok (body_text tag comparisonURL verifiedPRList sortedPRList resolvedDeployBlockers
               sortedDeployBlockers).
Proof.
  intros HP HD HPne HDne.
  assert (Hok : exists issueBody,
             render_body tag comparisonURL PRList verifiedPRList deployBlockers
               resolvedDeployBlockers = Ok issueBody).
  { apply render_body_ok_iff. split.
    - intros URL HU. rewrite Forall_forall in HP. apply pull_request_url_parses.
      apply HP. exact HU.
    - intros URL HU. rewrite Forall_forall in HD. apply issue_or_pull_request_url_parses.
      apply HD. exact HU. }
  destruct Hok as [issueBody Hr].
  destruct (render_body_spec _ _ _ _ _ _ Hr) as (s1 & s2 & H1 & H2 & ->).
  destruct (@sorted_keeps pull_request_url _ _ _ H1 HP HPne) as [HP' HPne'].
  destruct (@sorted_keeps issue_or_pull_request_url _ _ _ H2 HD HDne) as [HD' HDne'].
  exists s1, s2. repeat split; try assumption.
  rewrite Hr. f_equal. unfold PR_section, deploy_blocker_section, body_text.
  destruct PRList; [contradiction|]. destruct deployBlockers; [contradiction|].
  reflexivity.
Qed.

(** X17: a body in the layout of the encoder, with a version for a tag, a
    comparison link between two versions and both lists non-empty and made of
    forge URLs, decodes to that tag, that link and the two lists in the
    order of their lines, whichever boxes are checked. *)
Theorem decoder_reads_rendered_layout
  (M m p : str) (b : option str)
  (pM pm pp : str) (pb : option str) (cM cm cp : str) (cb : option str)
  (verified PRs resolved DBs : list str) (issue : Issue) :
  version_parts M m p b -> version_parts pM pm pp pb -> version_parts cM cm cp cb ->
  Forall pull_request_url PRs -> Forall issue_or_pull_request_url DBs ->
  PRs <> [] -> DBs <> [] ->
  issue_body issue
  = Some (lit "**Release Version:** " ++ version_text M m p b ++ CRLF
          ++ lit "**Compare Changes:** "
          ++ getComparisonURL (version_text pM pm pp pb) (version_text cM cm cp cb) ++ CRLF
          ++ (lit "**This release contains changes from the following pull requests:**"
              ++ CRLF ++ checklist_lines verified PRs)
          ++ (CRLF ++ lit "**Deploy Blockers:**" ++ CRLF ++ checklist_lines resolved DBs)) ->
  getStagingDeployCashData issue
  = Ok {| title := issue_title issue; url := issue_url issue; labels := issue_labels issue;
          tag := version_text M m p b;
          comparisonURL :=
            getComparisonURL (version_text pM pm pp pb) (version_text cM cm cp cb);
          PRList := map Some PRs; deployBlockers := map Some DBs |}.
Proof.
  intros Ht Hp Hc HP HD HPne HDne Hbody.
  exact (@decode_body_text M m p b pM pm pp pb cM cm cp cb verified PRs resolved DBs
           Ht Hp Hc HP HD HPne HDne issue Hbody).
Qed.

(** X18: encoding, then decoding, for tags made of digits only.  Take a
    tag that is three runs of digits joined by dots, with or without a
    hyphen and a fourth run (no letter, no [v], no build metadata), and let
    the comparator resolve with the link from a previous tag of the same
    form to it; let both lists be non-empty and made of forge URLs.  Then
    the encoder resolves with a body from which the decoder reads back the
    tag, the link and the two lists as the encoder sorted them, that is
    [sortBy] of [unique] of each list by its parser; the verified and
    resolved lists are lost.  Tags of another form, such as [1.0.1-beta],
    are outside this statement. *)
Theorem checklist_round_trip
  (octokit : Octokit) (M m p : str) (b : option str) (pM pm pp : str) (pb : option str)
  (PRList verifiedPRList deployBlockers resolvedDeployBlockers : list str) :
  version_parts M m p b -> version_parts pM pm pp pb ->
  generateVersionComparisonURL octokit (lit "Expensify/Expensify.cash")
    (version_text M m p b) (lit "BUILD")
  = Resolved (getComparisonURL (version_text pM pm pp pb) (version_text M m p b)) ->
  Forall pull_request_url PRList -> Forall issue_or_pull_request_url deployBlockers ->
  PRList <> [] -> deployBlockers <> [] ->
  exists issueBody sortedPRList sortedDeployBlockers,
    generateStagingDeployCashBody octokit (version_text M m p b) PRList verifiedPRList
      deployBlockers resolvedDeployBlockers
    = (Resolved (VString issueBody), [])
    /\ sortBy (unique PRList) getPullRequestNumberFromURL = Ok sortedPRList
    /\ sortBy (unique deployBlockers) getIssueOrPullRequestNumberFromURL
       = Ok sortedDeployBlockers
    /\ forall issue,
         issue_body issue = Some issueBody ->
         getStagingDeployCashData issue
         = Ok {| title := issue_title issue; url := issue_url issue;
                 labels := issue_labels issue;
                 tag := version_text M m p b;
                 comparisonURL :=
                   getComparisonURL (version_text pM pm pp pb) (version_text M m p b);
                 PRList := map Some sortedPRList;
                 deployBlockers := map Some sortedDeployBlockers |}.
Proof.
  intros Ht Hp Hcmp HP HD HPne HDne.
  destruct (@render_body_text (version_text M m p b)
              (getComparisonURL (version_text pM pm pp pb) (version_text M m p b))
              PRList verifiedPRList deployBlockers resolvedDeployBlockers HP HD HPne HDne)
    as (s1 & s2 & H1 & H2 & HP' & HPne' & HD' & HDne' & Hr).
  eexists. exists s1, s2. split; [|split; [exact H1 | split; [exact H2|]]].
  - unfold generateStagingDeployCashBody.
    change (GITHUB_OWNER ++ lit "/" ++ EXPENSIFY_CASH_REPO)
      with (lit "Expensify/Expensify.cash").
    rewrite Hcmp, Hr. reflexivity.
  - intros issue Hbody.
    exact (@decode_body_text M m p b pM pm pp pb M m p b verifiedPRList s1
             resolvedDeployBlockers s2 Ht Hp Ht HP' HD' HPne' HDne' issue Hbody).
Qed.

(** X21: the same body with one more line end, so that it ends with a
    blank line, still decodes, but the pull-request section then runs to
    that last blank line: [PRList] holds the pull requests and, after them,
    the deploy blockers, which [deployBlockers] holds as well. *)
Theorem trailing_blank_line_mixes_lists
  (M m p : str) (b : option str)
  (pM pm pp : str) (pb : option str) (cM cm cp : str) (cb : option str)
  (verified PRs resolved DBs : list str) (issue : Issue) :
  version_parts M m p b -> version_parts pM pm pp pb -> version_parts cM cm cp cb ->
  Forall pull_request_url PRs -> Forall issue_or_pull_request_url DBs ->
  PRs <> [] -> DBs <> [] ->
  issue_body issue
  = Some ((lit "**Release Version:** " ++ version_text M m p b ++ CRLF
           ++ lit "**Compare Changes:** "
           ++ getComparisonURL (version_text pM pm pp pb) (version_text cM cm cp cb) ++ CRLF
           ++ (lit "**This release contains changes from the following pull requests:**"
               ++ CRLF ++ checklist_lines verified PRs)
           ++ (CRLF ++ lit "**Deploy Blockers:**" ++ CRLF ++ checklist_lines resolved DBs))
          ++ CRLF) ->
  getStagingDeployCashData issue
  = Ok {| title := issue_title issue; url := issue_url issue; labels := issue_labels issue;
          tag := version_text M m p b;
          comparisonURL :=
            getComparisonURL (version_text pM pm pp pb) (version_text cM cm cp cb);
          PRList := map Some PRs ++ map Some DBs; deployBlockers := map Some DBs |}.
Proof.
  intros Ht Hp Hc HP HD HPne HDne Hbody.
  exact (@decode_body_text_blank M m p b pM pm pp pb cM cm cp cb verified PRs resolved DBs
           Ht Hp Hc HP HD HPne HDne issue Hbody).
Qed.

End RoundTripTheorems.

Lemma digits_text_lit_1 : digits_text (lit "1").
Proof.
  split; [discriminate | repeat constructor].
Qed.

Lemma digits_text_lit_0 : digits_text (lit "0").
Proof.
  split; [discriminate | repeat constructor].
Qed.

Lemma name_text_Expensify : name_text (lit "Expensify").
Proof.
  split.
  - repeat constructor.
  - intro H. cbn in H. repeat (destruct H as [H|H]; [discriminate H|]). exact H.
Qed.

Lemma name_text_Expensify_cash : name_text (lit "Expensify.cash").
Proof.
  split.
  - repeat constructor.
  - intro H. cbn in H. repeat (destruct H as [H|H]; [discriminate H|]). exact H.
Qed.

Lemma pull_request_url_of_cash (number : str) :
  digits_text number ->
  pull_request_url (forge_url (lit "Expensify") (lit "Expensify.cash") (lit "pull") number).
Proof.
  intro H. exists (lit "Expensify"), (lit "Expensify.cash"), number.
  repeat split; try apply name_text_Expensify; try apply name_text_Expensify_cash; apply H.
Qed.

Lemma issue_url_of_cash (number : str) :
  digits_text number ->
  issue_or_pull_request_url
    (forge_url (lit "Expensify") (lit "Expensify.cash") (lit "issues") number).
Proof.
  intro H. exists (lit "Expensify"), (lit "Expensify.cash"), (lit "issues"), number.
  repeat split; try apply name_text_Expensify; try apply name_text_Expensify_cash;
    try apply H. right. reflexivity.
Qed.

Lemma digits_text_lit (w : str) :
  w <> [] -> forallb is_digit w = true -> digits_text w.
Proof.
  intros Hne H. split; [exact Hne|]. rewrite forallb_forall in H.
  apply Forall_forall. exact H.
Qed.

Lemma decoder_reads_rendered_layout_witness :
  getStagingDeployCashData
    (issue_with_body
       (lit "**Release Version:** " ++ version_text (lit "1") (lit "0") (lit "1") (Some (lit "1"))
        ++ CRLF
        ++ lit "**Compare Changes:** "
        ++ getComparisonURL (version_text (lit "1") (lit "0") (lit "1") (Some (lit "0")))
             (version_text (lit "1") (lit "0") (lit "1") (Some (lit "1")))
        ++ CRLF
        ++ (lit "**This release contains changes from the following pull requests:**"
            ++ CRLF
            ++ checklist_lines
                 [forge_url (lit "Expensify") (lit "Expensify.cash") (lit "pull") (lit "1")]
                 [forge_url (lit "Expensify") (lit "Expensify.cash") (lit "pull") (lit "1");
                  forge_url (lit "Expensify") (lit "Expensify.cash") (lit "pull") (lit "0")])
        ++ (CRLF ++ lit "**Deploy Blockers:**" ++ CRLF
            ++ checklist_lines []
                 [forge_url (lit "Expensify") (lit "Expensify.cash") (lit "issues")
                    (lit "1")])))
  = Ok {| title := lit "Deploy Checklist"; url := lit "https://api.github.com/issues/1";
          labels := [STAGING_DEPLOY_CASH_LABEL];
          tag := version_text (lit "1") (lit "0") (lit "1") (Some (lit "1"));
          comparisonURL :=
            getComparisonURL (version_text (lit "1") (lit "0") (lit "1") (Some (lit "0")))
              (version_text (lit "1") (lit "0") (lit "1") (Some (lit "1")));
          PRList :=
            map Some
              [forge_url (lit "Expensify") (lit "Expensify.cash") (lit "pull") (lit "1");
               forge_url (lit "Expensify") (lit "Expensify.cash") (lit "pull") (lit "0")];
          deployBlockers :=
            map Some
              [forge_url (lit "Expensify") (lit "Expensify.cash") (lit "issues") (lit "1")] |}.
Proof.
  apply (@decoder_reads_rendered_layout
           (lit "1") (lit "0") (lit "1") (Some (lit "1"))
           (lit "1") (lit "0") (lit "1") (Some (lit "0"))
           (lit "1") (lit "0") (lit "1") (Some (lit "1"))
           [forge_url (lit "Expensify") (lit "Expensify.cash") (lit "pull") (lit "1")]
           [forge_url (lit "Expensify") (lit "Expensify.cash") (lit "pull") (lit "1");
            forge_url (lit "Expensify") (lit "Expensify.cash") (lit "pull") (lit "0")]
           []
           [forge_url (lit "Expensify") (lit "Expensify.cash") (lit "issues") (lit "1")]).
  - repeat split; first [discriminate | repeat constructor].
  - repeat split; first [discriminate | repeat constructor].
  - repeat split; first [discriminate | repeat constructor].
  - constructor; [apply pull_request_url_of_cash; exact digits_text_lit_1|].
    constructor; [apply pull_request_url_of_cash; exact digits_text_lit_0 | constructor].
  - constructor; [apply issue_url_of_cash; exact digits_text_lit_1 | constructor].
  - discriminate.
  - discriminate.
  - reflexivity.
Defined.

Lemma checklist_round_trip_witness :
  exists issueBody sortedPRList sortedDeployBlockers,
    generateStagingDeployCashBody (octokit_listing [lit "1.0.1-1"; lit "1.0.1-0"])
      (version_text (lit "1") (lit "0") (lit "1") (Some (lit "1")))
      [forge_url (lit "Expensify") (lit "Expensify.cash") (lit "pull") (lit "1");
       forge_url (lit "Expensify") (lit "Expensify.cash") (lit "pull") (lit "0");
       forge_url (lit "Expensify") (lit "Expensify.cash") (lit "pull") (lit "1")]
      [forge_url (lit "Expensify") (lit "Expensify.cash") (lit "pull") (lit "0")]
      [forge_url (lit "Expensify") (lit "Expensify.cash") (lit "issues") (lit "1")] []
    = (Resolved (VString issueBody), [])
    /\ Underscore.sortBy
         (Underscore.unique
            [forge_url (lit "Expensify") (lit "Expensify.cash") (lit "pull") (lit "1");
             forge_url (lit "Expensify") (lit "Expensify.cash") (lit "pull") (lit "0");
             forge_url (lit "Expensify") (lit "Expensify.cash") (lit "pull") (lit "1")])
         getPullRequestNumberFromURL = Ok sortedPRList
    /\ Underscore.sortBy
         (Underscore.unique
            [forge_url (lit "Expensify") (lit "Expensify.cash") (lit "issues") (lit "1")])
         getIssueOrPullRequestNumberFromURL = Ok sortedDeployBlockers
    /\ forall issue,
         issue_body issue = Some issueBody ->
         getStagingDeployCashData issue
         = Ok {| title := issue_title issue; url := issue_url issue;
                 labels := issue_labels issue;
                 tag := version_text (lit "1") (lit "0") (lit "1") (Some (lit "1"));
                 comparisonURL :=
                   getComparisonURL
                     (version_text (lit "1") (lit "0") (lit "1") (Some (lit "0")))
                     (version_text (lit "1") (lit "0") (lit "1") (Some (lit "1")));
                 PRList := map Some sortedPRList;
                 deployBlockers := map Some sortedDeployBlockers |}.
Proof.
  apply (@checklist_round_trip (octokit_listing [lit "1.0.1-1"; lit "1.0.1-0"])
           (lit "1") (lit "0") (lit "1") (Some (lit "1"))
           (lit "1") (lit "0") (lit "1") (Some (lit "0"))).
  - repeat split; first [discriminate | repeat constructor].
  - repeat split; first [discriminate | repeat constructor].
  - vm_compute. reflexivity.
  - constructor; [apply pull_request_url_of_cash; exact digits_text_lit_1|].
    constructor; [apply pull_request_url_of_cash; exact digits_text_lit_0|].
    constructor; [apply pull_request_url_of_cash; exact digits_text_lit_1 | constructor].
  - constructor; [apply issue_url_of_cash; exact digits_text_lit_1 | constructor].
  - discriminate.
  - discriminate.
Defined.

Lemma trailing_blank_line_mixes_lists_witness :
  getStagingDeployCashData
    (issue_with_body
       ((lit "**Release Version:** "
         ++ version_text (lit "1") (lit "0") (lit "1") (Some (lit "1")) ++ CRLF
         ++ lit "**Compare Changes:** "
         ++ getComparisonURL (version_text (lit "1") (lit "0") (lit "1") (Some (lit "0")))
              (version_text (lit "1") (lit "0") (lit "1") (Some (lit "1")))
         ++ CRLF
         ++ (lit "**This release contains changes from the following pull requests:**"
             ++ CRLF
             ++ checklist_lines []
                  [forge_url (lit "Expensify") (lit "Expensify.cash") (lit "pull") (lit "1")])
         ++ (CRLF ++ lit "**Deploy Blockers:**" ++ CRLF
             ++ checklist_lines []
                  [forge_url (lit "Expensify") (lit "Expensify.cash") (lit "issues")
                     (lit "0")]))
        ++ CRLF))
  = Ok {| title := lit "Deploy Checklist"; url := lit "https://api.github.com/issues/1";
          labels := [STAGING_DEPLOY_CASH_LABEL];
          tag := version_text (lit "1") (lit "0") (lit "1") (Some (lit "1"));
          comparisonURL :=
            getComparisonURL (version_text (lit "1") (lit "0") (lit "1") (Some (lit "0")))
              (version_text (lit "1") (lit "0") (lit "1") (Some (lit "1")));
          PRList :=
            map Some
              [forge_url (lit "Expensify") (lit "Expensify.cash") (lit "pull") (lit "1")]
            ++ map Some
                 [forge_url (lit "Expensify") (lit "Expensify.cash") (lit "issues")
                    (lit "0")];
          deployBlockers :=
            map Some
              [forge_url (lit "Expensify") (lit "Expensify.cash") (lit "issues") (lit "0")] |}.
Proof.
  apply (@trailing_blank_line_mixes_lists
           (lit "1") (lit "0") (lit "1") (Some (lit "1"))
           (lit "1") (lit "0") (lit "1") (Some (lit "0"))
           (lit "1") (lit "0") (lit "1") (Some (lit "1"))
           []
           [forge_url (lit "Expensify") (lit "Expensify.cash") (lit "pull") (lit "1")]
           []
           [forge_url (lit "Expensify") (lit "Expensify.cash") (lit "issues") (lit "0")]).
  - repeat split; first [discriminate | repeat constructor].
  - repeat split; first [discriminate | repeat constructor].
  - repeat split; first [discriminate | repeat constructor].
  - constructor; [apply pull_request_url_of_cash; exact digits_text_lit_1 | constructor].
  - constructor; [apply issue_url_of_cash; exact digits_text_lit_0 | constructor].
  - discriminate.
  - discriminate.
  - reflexivity.
Defined.

(** ** The decoded tag *)

Lemma derives_version (g : nat) (w : str) (c c' : captures) :
  derives (versionRegex_source g) w c c' ->
  exists M m p b, version_parts M m p b /\ w = version_text M m p b.
Proof.
  unfold versionRegex_source. cbn [Seq fold_right]. intro H.
  apply derives_Cat_inv in H. destruct H as (M & w1 & c1 & -> & HM & H).
  apply derives_Cat_inv in H. destruct H as (d1 & w2 & c2 & -> & Hd1 & H).
  apply derives_Cat_inv in H. destruct H as (m & w3 & c3 & -> & Hm & H).
  apply derives_Cat_inv in H. destruct H as (d2 & w4 & c4 & -> & Hd2 & H).
  apply derives_Cat_inv in H. destruct H as (p & w5 & c5 & -> & Hp & H).
  apply derives_Cat_inv in H. destruct H as (t & w6 & c6 & -> & Ht & H).
  inversion H; subst. inversion Hd1; subst. inversion Hd2; subst.
  inversion HM as [ | | | | | | | | | | i1 r1 x1 e1 e1' HM' ]; subst.
  inversion Hm as [ | | | | | | | | | | i2 r2 x2 e2 e2' Hm' ]; subst.
  inversion Hp as [ | | | | | | | | | | i3 r3 x3 e3 e3' Hp' ]; subst.
  apply derives_digits1 in HM', Hm', Hp'.
  unfold Opt in Ht. apply derives_Alt_inv in Ht. destruct Ht as [Ht|Ht].
  - apply derives_Cat_inv in Ht. destruct Ht as (h & x & c7 & -> & Hh & Hx).
    inversion Hh; subst.
    inversion Hx as [ | | | | | | | | | | i4 r4 x4 e4 e4' Hx' ]; subst.
    apply derives_digits1 in Hx'.
    exists M, m, p, (Some x). split; [exact (conj HM' (conj Hm' (conj Hp' Hx')))|].
    unfold version_text. rewrite app_nil_r. reflexivity.
  - inversion Ht; subst. exists M, m, p, None.
    split; [exact (conj HM' (conj Hm' (conj Hp' I)))|].
    unfold version_text. reflexivity.
Qed.

Lemma decode_ok_tag (issue : Issue) (d : StagingDeployCashData) :
  getStagingDeployCashData issue = Ok d ->
  exists body, issue_body issue = Some body /\ extract_tag body = Ok (tag d).
Proof.
  unfold getStagingDeployCashData.
  destruct (issue_body issue) as [body|]; cbn [of_nullable bind try_catch]; [|discriminate].
  destruct (extract_tag body) as [t|e] eqn:Ht; cbn [bind try_catch]; [|discriminate].
  destruct (extract_comparisonURL body) as [u|e]; cbn [bind try_catch]; [|discriminate].
  destruct (extract_PRList body) as [prs|e]; cbn [bind try_catch]; [|discriminate].
  destruct (extract_deployBlockers body) as [dbs|e]; cbn [bind try_catch]; [|discriminate].
  intro H. apply Ok_inj in H. subst d. exists body. split; [reflexivity | exact Ht].
Qed.

(** X19: the tag of every decoded checklist is the first text of the body
    that the version pattern matches, as it stands: it is made of three or
    four runs of digits with dots and a hyphen, so the removal of backticks
    that the decoder applies to it changes nothing. *)
Theorem decoded_tag_is_version (issue : Issue) (d : StagingDeployCashData) :
  getStagingDeployCashData issue = Ok d ->
  exists body more M m p b,
    issue_body issue = Some body
    /\ String_match_g versionRegex body = Some (tag d :: more)
    /\ version_parts M m p b
    /\ tag d = version_text M m p b.
Proof.
  intro Hd. destruct (decode_ok_tag _ Hd) as (body & Hbody & Htag).
  unfold extract_tag in Htag. unfold String_match_g, all_matches in *.
  cbn [search_all] in Htag.
  destruct (search versionRegex [] body) as [f|] eqn:Hs;
    [|cbn [of_nullable bind] in Htag; discriminate Htag].
  cbn [map of_nullable bind index nth_error] in Htag.
  destruct (search_sound _ _ _ Hs) as (skipped & _ & He).
  apply exec_at_sound in He. destruct He as (w & Hw & Hder).
  apply app_inv_tail in Hw. subst w.
  destruct (derives_version Hder) as (M & m & p & b & Hparts & Hf).
  assert (Hsame : String_replace_g backtickRegex (matched f) [] = matched f).
  { apply replace_without_backtick. rewrite Hf.
    apply version_text_without; [exact Hparts | reflexivity]. }
  rewrite Hsame in Htag. apply Ok_inj in Htag.
  exists body, (map matched
                  match matched f, after f with
                  | [], [] => []
                  | [], a :: s' => search_all versionRegex (length body) [a] s'
                  | _ :: _, s' => search_all versionRegex (length body) [] s'
                  end), M, m, p, b.
  cbn [search_all]. rewrite Hs. cbn [map]. rewrite <- Htag.
  split; [exact Hbody | split; [reflexivity | split; [exact Hparts | exact Hf]]].
Qed.

Lemma decoded_tag_is_version_witness :
  exists body more M m p b,
    issue_body (issue_with_body body_with_remark) = Some body
    /\ String_match_g versionRegex body = Some (tag decoded_body_with_remark :: more)
    /\ version_parts M m p b
    /\ tag decoded_body_with_remark = version_text M m p b.
Proof.
  apply (@decoded_tag_is_version (issue_with_body body_with_remark) decoded_body_with_remark).
  exact decode_body_with_remark.
Defined.

(** ** Where a parser reads its number *)

Fixpoint digit_run (s : str) : str :=
  match s with
  | a :: s' => if is_digit a then a :: digit_run s' else []
  | [] => []
  end.

Fixpoint after_digits (s : str) : str :=
  match s with
  | a :: s' => if is_digit a then after_digits s' else s
  | [] => []
  end.

Lemma digit_run_split (s : str) :
  s = digit_run s ++ after_digits s
  /\ Forall (fun a => is_digit a = true) (digit_run s)
  /\ stops_at is_digit (after_digits s).
Proof.
  induction s as [|a s (IH1 & IH2 & IH3)]; cbn [digit_run after_digits].
  - repeat split. constructor.
  - destruct (is_digit a) eqn:Ha.
    + repeat split; [cbn [app]; f_equal; exact IH1 | constructor; assumption | exact IH3].
    + repeat split; [constructor | exact Ha].
Qed.

(** The number group and the closing wildcard, at the place the match has
    reached: the group takes the whole run of digits found there. *)
Lemma run_number_group (s s' : str) (c c' : captures) :
  run (Cat (Grp 1 digits1) Eps) s c
    (fun s1 c1 => run (Star Dot) s1 c1 (fun s2 c2 => Some (s2, c2)))
  = Some (s', c') ->
  digits_text (digit_run s) /\ c' = set_cap 1 (digit_run s) c.
Proof.
  destruct (digit_run_split s) as (Hs & Hds & Hstop).
  destruct (digit_run s) as [|d ds] eqn:Hrun.
  - intro H. exfalso. cbn [app] in Hs. rewrite <- Hs in Hstop.
    rewrite run_Cat_eq, run_Grp_eq in H. unfold digits1, Plus in H.
    rewrite run_Cat_eq, one_char_digit in H.
    destruct s as [|a s0]; [discriminate H|]. cbn in Hstop. rewrite Hstop in H.
    discriminate H.
  - intro H. rewrite Hs in H at 1. rewrite run_Cat_eq in H.
    assert (Hd : digits_text (d :: ds)) by (split; [discriminate | exact Hds]).
    rewrite run_group_digits_then in H; [| exact Hd | exact Hstop |].
    + cbn [run] in H. rewrite wildcard_takes_line in H; [| discriminate | apply Nat.le_refl].
      injection H as _ <-. split; [exact Hd | reflexivity].
    + cbn [run]. rewrite wildcard_takes_line; [discriminate | discriminate | apply Nat.le_refl].
Qed.

(** A match of a URL pattern anywhere in a text: a base URL, two
    stretches of one line, the kind, and for group 1 the whole run of digits
    behind it. *)
Lemma url_match_reads_number (kind_re : regex) (URL : str) (array : list (option str)) :
  ngroups kind_re = 0 ->
  String_match (url_pattern kind_re 1) URL = Some array ->
  exists before_ base first second kind number after_,
    URL = before_ ++ base ++ lit "/" ++ first ++ lit "/" ++ second ++ lit "/" ++ kind
            ++ lit "/" ++ number ++ after_
    /\ (base = lit "https://github.com" \/ base = lit "http://github.com"
        \/ base = lit "https://api.github.com" \/ base = lit "http://api.github.com")
    /\ line_text first /\ line_text second
    /\ matches kind_re kind
    /\ digits_text number /\ stops_at is_digit after_
    /\ nth 1 array None = Some number.
Proof.
  intros Hkind. unfold String_match, exec.
  destruct (search (url_pattern kind_re 1) [] URL) as [f|] eqn:Hs; [|discriminate].
  cbn [option_map]. intro H. injection H as <-.
  destruct (search_sound _ _ _ Hs) as (skipped & HURL & He).
  unfold exec_at, url_pattern in He.
  change (url_core kind_re 1)
    with (Cat GITHUB_BASE_URL_REGEX
            (Cat (Chr "/") (Cat (Star Dot) (Cat (Chr "/") (Cat (Star Dot)
               (Cat (Chr "/") (Cat kind_re (Cat (Chr "/") (Cat (Grp 1 digits1) Eps)))))))))
    in He.
  rewrite run_Cat_eq in He.
  apply run_Cat_sound in He. destruct He as (B & s1 & c1 & E1 & HB & He).
  apply derives_base_url in HB. destruct HB as [-> HB].
  apply run_Cat_sound in He. destruct He as (w2 & s2 & c2 & -> & H2 & He).
  inversion H2; subst.
  apply run_Cat_sound in He. destruct He as (x & s3 & c3 & -> & Hx & He).
  pose proof (derives_no_groups Hx eq_refl) as Hc3. subst c3.
  apply run_Cat_sound in He. destruct He as (w4 & s4 & c4 & -> & H4 & He).
  inversion H4; subst.
  apply run_Cat_sound in He. destruct He as (y & s5 & c5 & -> & Hy & He).
  pose proof (derives_no_groups Hy eq_refl) as Hc5. subst c5.
  apply run_Cat_sound in He. destruct He as (w6 & s6 & c6 & -> & H6 & He).
  inversion H6; subst.
  apply run_Cat_sound in He. destruct He as (K & s7 & c7 & -> & HK & He).
  pose proof (derives_no_groups HK Hkind) as Hc7. subst c7.
  apply run_Cat_sound in He. destruct He as (w8 & s8 & c8 & -> & H8 & He).
  inversion H8; subst.
  apply run_number_group in He. destruct He as [Hn Hcaps].
  destruct (digit_run_split s8) as (Hs8 & _ & Hstop).
  exists skipped, B, x, y, K, (digit_run s8), (after_digits s8).
  split; [|split; [exact HB | split; [|split; [|split; [|split; [exact Hn | split]]]]]].
  - rewrite E1, <- Hs8. reflexivity.
  - exact (derives_line_free Hx eq_refl).
  - exact (derives_line_free Hy eq_refl).
  - exists [], []. exact HK.
  - exact Hstop.
  - unfold match_array. cbn [ngroups url_pattern url_core Seq fold_right].
    rewrite Hkind. cbn [seq map nth Nat.add]. rewrite Hcaps. reflexivity.
Qed.

Lemma number_from_match_ok (array : option (list (option str))) (message : str) (n : number) :
  number_from_match array message = Ok n ->
  exists a number, array = Some a /\ nth 1 a None = Some number /\ n = parseInt number.
Proof.
  unfold number_from_match.
  destruct array as [[|m0 [|[number|] [|m2 ms]]]|]; intro H; try discriminate H.
  injection H as <-. exists [m0; Some number], number. repeat split.
Qed.

(** X20: whenever the pull-request parser returns a number, the text it
    was given holds, somewhere, a base URL of the forge, a slash, two
    stretches of one line with a slash after each, [pull/] and a run of
    decimal digits that no digit follows; the number is what
    [Number.parseInt] makes of that whole run, a double, which is the value
    of the run when that is below 2^53. *)
Theorem pull_request_number_is_read_after_pull (URL : str) (n : number) :
  getPullRequestNumberFromURL URL = Ok n ->
  exists before_ base first second number after_,
    URL = before_ ++ base ++ lit "/" ++ first ++ lit "/" ++ second ++ lit "/pull/"
            ++ number ++ after_
    /\ (base = lit "https://github.com" \/ base = lit "http://github.com"
        \/ base = lit "https://api.github.com" \/ base = lit "http://api.github.com")
    /\ line_text first /\ line_text second
    /\ digits_text number /\ stops_at is_digit after_
    /\ n = parseInt number
    /\ ((digits_value number < 2 ^ 53)%N -> n = Finite (Z.of_N (digits_value number))).
Proof.
  unfold getPullRequestNumberFromURL, PULL_REQUEST_REGEX. intro H.
  apply number_from_match_ok in H. destruct H as (a & number & Hm & Hn & ->).
  apply url_match_reads_number in Hm; [|reflexivity].
  destruct Hm as (before_ & base & first & second & kind & number' & after_
                  & HURL & Hbase & H1 & H2 & (c & c' & Hk) & Hd & Hstop & Hn').
  rewrite Hn in Hn'. injection Hn' as ->.
  apply derives_Lit in Hk. destruct Hk as [-> _].
  exists before_, base, first, second, number', after_.
  split; [|split; [exact Hbase | split; [exact H1 | split; [exact H2 |
    split; [exact Hd | split; [exact Hstop | split; [reflexivity|]]]]]]].
  - rewrite HURL. reflexivity.
  - apply parseInt_exact.
Qed.

Lemma pull_request_number_is_read_after_pull_witness :
  exists before_ base first second number after_,
    lit "see https://github.com/Org/Repo/pull/482/files#diff"
    = before_ ++ base ++ lit "/" ++ first ++ lit "/" ++ second ++ lit "/pull/"
        ++ number ++ after_
    /\ (base = lit "https://github.com" \/ base = lit "http://github.com"
        \/ base = lit "https://api.github.com" \/ base = lit "http://api.github.com")
    /\ line_text first /\ line_text second
    /\ digits_text number /\ stops_at is_digit after_
    /\ Finite 482 = parseInt number
    /\ ((digits_value number < 2 ^ 53)%N -> Finite 482 = Finite (Z.of_N (digits_value number))).
Proof.
  apply (@pull_request_number_is_read_after_pull
           (lit "see https://github.com/Org/Repo/pull/482/files#diff") (Finite 482)).
  vm_compute. reflexivity.
Defined.

(** ** A checklist the module has just created

    [createNewStagingDeployCash] renders the body without deploy blockers,
    so what it stores on the forge is a checklist that
    [getStagingDeployCash] cannot read. *)

Section VersionsOnOneLine.
Import Semver.

Lemma uint_digits (d : Decimal.uint) :
  Forall (fun a => is_digit a = true) (lit (NilEmpty.string_of_uint d)).
Proof.
  induction d; cbn [NilEmpty.string_of_uint lit String.list_ascii_of_string];
    try (constructor; [reflexivity | exact IHd]).
  constructor.
Qed.

Lemma number_to_string_line (n : N) : line_text (number_to_string n).
Proof.
  apply digits_line_text. apply uint_digits.
Qed.

(** Every capture a one-line pattern adds is a one-line text. *)
Lemma captures_line_text (r : regex) (w : str) (c c' : captures) :
  derives r w c c' -> line_free r = true ->
  (forall i x, get_cap i c = Some x -> line_text x) ->
  forall i x, get_cap i c' = Some x -> line_text x.
Proof.
  induction 1 as [ | | | | | r1 r2 w1 w2 c c1 c2 H1 IH1 H2 IH2
                 | r1 r2 w c c1 H1 IH1 | r1 r2 w c c1 H1 IH1 | r c
                 | r w1 w2 c c1 c2 H1 IH1 H2 IH2 | g r w c c1 H1 IH1];
    cbn [line_free]; intros Hfree Hc; try exact Hc.
  - apply andb_true_iff in Hfree. destruct Hfree as [F1 F2].
    exact (IH2 F2 (IH1 F1 Hc)).
  - apply andb_true_iff in Hfree. destruct Hfree as [F1 F2]. exact (IH1 F1 Hc).
  - apply andb_true_iff in Hfree. destruct Hfree as [F1 F2]. exact (IH1 F2 Hc).
  - exact (IH2 Hfree (IH1 Hfree Hc)).
  - intros i x. unfold set_cap. cbn [get_cap]. destruct (Nat.eqb i g).
    + intro E. injection E as <-. exact (derives_line_free H1 Hfree).
    + apply (IH1 Hfree Hc).
Qed.

Lemma split_on_line_text (sep : ascii) (s : str) :
  line_text s -> Forall line_text (split_on sep s).
Proof.
  induction 1 as [|a s Ha Hs IH]; cbn [split_on].
  - repeat constructor.
  - destruct (Ascii.eqb a sep).
    + constructor; [constructor | exact IH].
    + destruct (split_on sep s) as [|w ws]; [repeat constructor; exact Ha|].
      inversion IH as [|w' ws' Hw Hws]; subst.
      constructor; [constructor; assumption | exact Hws].
Qed.

Lemma join_line_text (sep : str) (parts : list str) :
  line_text sep -> Forall line_text parts -> line_text (join sep parts).
Proof.
  intros Hsep. induction 1 as [|w ws Hw Hws IH]; cbn [join]; [constructor|].
  destruct ws as [|w2 ws]; [exact Hw|].
  apply Forall_app. split; [exact Hw|]. apply Forall_app. split; [exact Hsep | exact IH].
Qed.

Lemma identifier_line_text (id : str) :
  line_text id -> line_text (identifier_to_string (identifier_of id)).
Proof.
  intro H. unfold identifier_of. destruct (numeric id); cbn [identifier_to_string].
  - apply number_to_string_line.
  - exact H.
Qed.

Lemma no_caps (i : nat) (x : str) : get_cap i [] = Some x -> line_text x.
Proof.
  intro H. discriminate H.
Qed.

Lemma SemVer_new_prerelease_line (v : str) (t : SemVer) :
  SemVer_new v = Some t ->
  Forall line_text (map identifier_to_string (prerelease t)).
Proof.
  unfold SemVer_new. destruct (MAX_LENGTH <? length v); [discriminate|].
  unfold exec_anchored.
  destruct (exec_at FULL (trim v)) as [[s' c]|] eqn:He; [|discriminate].
  change (match_array FULL (Found [] (firstn (length (trim v) - length s') (trim v)) c s'))
    with [Some (firstn (length (trim v) - length s') (trim v));
          get_cap 1 c; get_cap 2 c; get_cap 3 c; get_cap 4 c; get_cap 5 c].
  destruct (get_cap 1 c) as [m1|]; [|discriminate].
  destruct (get_cap 2 c) as [m2|]; [|discriminate].
  destruct (get_cap 3 c) as [m3|]; [|discriminate].
  destruct ((MAX_SAFE_INTEGER <? digits_value m1)
            || (MAX_SAFE_INTEGER <? digits_value m2)
            || (MAX_SAFE_INTEGER <? digits_value m3))%N; [discriminate|].
  intro H. injection H as <-. cbn [prerelease].
  destruct (get_cap 4 c) as [m4|] eqn:H4; cbn [split_group map]; [|constructor].
  apply exec_at_sound in He. destruct He as (w & _ & Hd).
  pose proof (captures_line_text Hd eq_refl no_caps 4 H4) as Hm4.
  rewrite map_map. apply Forall_map.
  eapply Forall_impl; [|exact (split_on_line_text "." Hm4)].
  intros id Hid. apply identifier_line_text. exact Hid.
Qed.

Lemma version_line_text_of (v : str) (t : SemVer) :
  SemVer_new v = Some t -> line_text (version t).
Proof.
  intro H. pose proof (SemVer_new_prerelease_line _ H) as Hpre. unfold version.
  apply Forall_app. split; [apply number_to_string_line|].
  apply Forall_app. split; [repeat constructor|].
  apply Forall_app. split; [apply number_to_string_line|].
  apply Forall_app. split; [repeat constructor|].
  apply Forall_app. split; [apply number_to_string_line|].
  destruct (prerelease t) as [|id ids]; [constructor|].
  apply Forall_app. split; [repeat constructor|].
  apply join_line_text; [repeat constructor | exact Hpre].
Qed.

(** A pattern that ends with the end of the text, and whose parts stay on
    one line, only matches at the head of a one-line text. *)
Lemma run_to_end_of_text (rs : list regex) :
  Forall (fun r => line_free r = true) rs ->
  forall (s : str) (c : captures) (x : str * captures),
    run (Seq (rs ++ [Eos])) s c (fun s' c' => Some (s', c')) = Some x -> line_text s.
Proof.
  induction 1 as [|r rs Hr Hrs IH]; intros s c x H.
  - cbn in H. destruct s; [constructor | discriminate H].
  - cbn [app Seq fold_right] in H. apply run_Cat_sound in H.
    destruct H as (w & s1 & c1 & -> & Hw & H).
    apply Forall_app. split; [exact (derives_line_free Hw Hr) | exact (IH _ _ _ H)].
Qed.

Lemma parse_one_line (tag : str) (t : SemVer) :
  parse tag = Some t -> line_text tag /\ line_text (version t).
Proof.
  unfold parse. destruct (MAX_LENGTH <? length tag); [discriminate|].
  unfold exec_anchored at 1.
  destruct (exec_at FULL tag) as [[s' c]|] eqn:He; [|discriminate].
  intro H. split; [|exact (version_line_text_of _ H)].
  unfold exec_at in He.
  change FULL
    with (Seq ([Opt (Chr "v");
                Grp 1 NUMERICIDENTIFIER; Chr "."; Grp 2 NUMERICIDENTIFIER; Chr ".";
                Grp 3 NUMERICIDENTIFIER;
                Opt (Cat (Chr "-")
                       (Grp 4 (Cat PRERELEASEIDENTIFIER
                                 (Star (Cat (Chr ".") PRERELEASEIDENTIFIER)))));
                Opt (Cat (Chr "+")
                       (Grp 5 (Cat BUILDIDENTIFIER (Star (Cat (Chr ".") BUILDIDENTIFIER)))))]
                 ++ [Eos])) in He.
  apply run_to_end_of_text in He; [exact He|].
  repeat constructor.
Qed.

End VersionsOnOneLine.

Lemma tag_matches_needs_anchor (semverLevel repoTag : str) :
  tag_matches semverLevel None repoTag <> Ok true.
Proof.
  unfold tag_matches, at_level, major_condition, minor_condition, patch_condition,
    build_condition.
  cbn [of_nullable bind].
  destruct (str_eqb semverLevel (lit "MAJOR")); cbn [bind]; [discriminate|].
  destruct (str_eqb semverLevel (lit "MINOR")); cbn [bind]; [discriminate|].
  destruct (str_eqb semverLevel (lit "PATCH")); cbn [bind].
  - destruct (str_eqb semverLevel (lit "BUILD")); cbn [bind]; discriminate.
  - destruct (str_eqb semverLevel (lit "BUILD")); cbn [bind]; discriminate.
Qed.

Lemma scan_tags_resolved (semverLevel : str) (tagSemver : option Semver.SemVer)
  (data : list str) (comparisonURL : str) :
  scan_tags semverLevel tagSemver data = Resolved comparisonURL ->
  exists repoTag anchor,
    In repoTag data /\ tagSemver = Some anchor
    /\ comparisonURL = getComparisonURL repoTag (Semver.version anchor).
Proof.
  induction data as [|t data IH]; cbn [scan_tags]; [discriminate|].
  destruct (tag_matches semverLevel tagSemver t) as [[|]|e] eqn:Ht.
  - intro H. injection H as <-. destruct tagSemver as [anchor|].
    + exists t, anchor. split; [left; reflexivity|]. split; reflexivity.
    + exfalso. exact (tag_matches_needs_anchor _ _ Ht).
  - intro H. destruct (IH H) as (repoTag & anchor & Hin & Ha & Hu).
    exists repoTag, anchor. split; [right; exact Hin|]. split; assumption.
  - discriminate.
Qed.

Section UnreadableChecklist.
Variable Response : Type.
Variable issues : OctokitIssues Response.

(** X22: take a tag listing and a [PRList] of one-line texts.  Whenever
    the encoder gives [createNewStagingDeployCash] a body, the checklist
    issue is created with that body, and the module cannot read it back:
    on a forge that lists an issue with this body as the one open
    checklist, [getStagingDeployCash] rejects with the malformed-checklist
    error. *)
Theorem new_checklist_is_not_read_back
  (octokit : Octokit) (title tag : str) (PRList data : list str) (issueBody : str) :
  listTags octokit (Some (lit "Expensify")) (Some (lit "Expensify.cash")) = Resolved data ->
  Forall line_text data -> Forall line_text PRList ->
  fst (generateStagingDeployCashBody octokit tag PRList [] [] [])
  = Resolved (VString issueBody) ->
  createNewStagingDeployCash octokit issues title tag PRList
  = (create issues (new_checklist title (VString issueBody)), [])
  /\ forall (issue : Issue) (Listed : Type) (forge : OctokitIssues Listed),
       issue_body issue = Some issueBody ->
       listForRepo forge checklist_query = Resolved [issue] ->
       getStagingDeployCash forge
       = Rejected (Error (lit "Unable to find StagingDeployCash issue with correct data.")).
Proof.
  intros Hlist Hdata HPRs Hbody.
  rewrite createNewStagingDeployCash_cases.
  unfold generateStagingDeployCashBody in *.
  unfold generateVersionComparisonURL in *.
  change (split_on "/" (GITHUB_OWNER ++ lit "/" ++ EXPENSIFY_CASH_REPO))
    with [lit "Expensify"; lit "Expensify.cash"] in *.
  cbn [index nth_error] in *. rewrite Hlist in *.
  destruct (scan_tags (lit "BUILD") (Semver.parse tag) data) as [|comparisonURL|e] eqn:Hscan;
    cbn [fst] in Hbody; try discriminate Hbody.
  destruct (render_body tag comparisonURL PRList [] [] []) as [rendered|e] eqn:Hr;
    cbn [fst] in Hbody; [|discriminate Hbody].
  injection Hbody as ->. split; [reflexivity|].
  intros issue Listed forge Hissue Hforge.
  destruct (scan_tags_resolved _ _ _ Hscan) as (repoTag & anchor & Hin & Hparse & ->).
  destruct (parse_one_line _ Hparse) as [Htag Hversion].
  assert (Hurl : line_text (getComparisonURL repoTag (Semver.version anchor))).
  { unfold getComparisonURL, line_text in *. rewrite !Forall_app.
    split; [repeat constructor|]. split; [repeat constructor|].
    split; [rewrite Forall_forall in Hdata; apply (Hdata repoTag Hin)|].
    split; [repeat constructor | exact Hversion]. }
  pose proof (@decoder_rejects_body_without_blockers tag _ PRList [] [] issueBody issue
                Htag Hurl HPRs Hr Hissue) as Hreject.
  rewrite getStagingDeployCash_cases, Hforge, Hreject. reflexivity.
Qed.

End UnreadableChecklist.

Lemma new_checklist_is_not_read_back_witness :
  createNewStagingDeployCash (octokit_listing [lit "1.0.1-1"; lit "1.0.1-0"]) echoing_forge
    (lit "Deploy Checklist") (lit "1.0.1-1")
    [lit "https://github.com/Expensify/Expensify.cash/pull/1"]
  = (create echoing_forge
       (new_checklist (lit "Deploy Checklist")
          (VString
             (lit "**Release Version:** 1.0.1-1" ++ CRLF
              ++ lit "**Compare Changes:** https://github.com/Expensify/Expensify.cash/compare/1.0.1-0...1.0.1-1"
              ++ CRLF
              ++ lit "**This release contains changes from the following pull requests:**"
              ++ CRLF
              ++ lit "- [ ] https://github.com/Expensify/Expensify.cash/pull/1" ++ CRLF))),
     [])
  /\ forall (issue : Issue) (Listed : Type) (forge : OctokitIssues Listed),
       issue_body issue
       = Some (lit "**Release Version:** 1.0.1-1" ++ CRLF
               ++ lit "**Compare Changes:** https://github.com/Expensify/Expensify.cash/compare/1.0.1-0...1.0.1-1"
               ++ CRLF
               ++ lit "**This release contains changes from the following pull requests:**"
               ++ CRLF
               ++ lit "- [ ] https://github.com/Expensify/Expensify.cash/pull/1" ++ CRLF) ->
       listForRepo forge checklist_query = Resolved [issue] ->
       getStagingDeployCash forge
       = Rejected (Error (lit "Unable to find StagingDeployCash issue with correct data.")).
Proof.
  apply (@new_checklist_is_not_read_back CreateParams echoing_forge
           (octokit_listing [lit "1.0.1-1"; lit "1.0.1-0"])
           (lit "Deploy Checklist") (lit "1.0.1-1")
           [lit "https://github.com/Expensify/Expensify.cash/pull/1"]
           [lit "1.0.1-1"; lit "1.0.1-0"]).
  - reflexivity.
  - repeat constructor.
  - repeat constructor.
  - vm_compute. reflexivity.
Defined.
